(** * Carbon AI Chat demo (src/App.jsx): a shallow embedding

    The application is one React component, [App], with three groups of
    handlers: the chat adapter ([customSendMessage], [extractLangflowMessage],
    [buildTextResponse]), the document upload path ([handleFilesSelected],
    [ingestFileToAstra], [readFileAsBase64], [handleRemoveFile]) and the
    connectivity check ([testAstraConnection]).

    JavaScript strings are sequences of UTF-16 code units, JSON values are an
    inductive type, [undefined] is [None].  Handlers run in a state and
    exception monad over the component state; everything the browser decides
    (network replies, the chat instance accepting a message, random numbers,
    the clock, the file reader) is read from a [host] record, indexed by the
    number of host queries made so far. *)

From Stdlib Require Import NArith ZArith QArith List Bool String Ascii
  DecimalString DecimalN Lia.
Import ListNotations.

#[local] Set Warnings "-register-all".

Local Open Scope bool_scope.
Local Open Scope list_scope.
Local Open Scope nat_scope.

(** ** JavaScript strings *)

Module JsString.

Definition jsstring := list N.

(** An ASCII source literal as code units. *)
Definition lit (s : string) : jsstring :=
  map N_of_ascii (list_ascii_of_string s).

Fixpoint eqb (a b : jsstring) : bool :=
  match a, b with
  | [], [] => true
  | x :: a', y :: b' => N.eqb x y && eqb a' b'
  | _, _ => false
  end.

(** [`${n}`] for a non-negative integer. *)
Definition of_N (n : N) : jsstring :=
  lit (NilEmpty.string_of_uint (N.to_uint n)).

(** WhiteSpace and LineTerminator of ECMAScript, the code units that
    [String.prototype.trim] strips. *)
Definition isWhiteSpace (c : N) : bool :=
  ((9 <=? c) && (c <=? 13) || (c =? 32) || (c =? 160) || (c =? 5760)
   || (8192 <=? c) && (c <=? 8202) || (c =? 8232) || (c =? 8233)
   || (c =? 8239) || (c =? 8287) || (c =? 12288) || (c =? 65279))%N.

Fixpoint trimStart (s : jsstring) : jsstring :=
  match s with
  | [] => []
  | c :: r => if isWhiteSpace c then trimStart r else s
  end.

Definition trimEnd (s : jsstring) : jsstring := rev (trimStart (rev s)).

Definition trim (s : jsstring) : jsstring := trimEnd (trimStart s).

(** [s.split(',')]: the fields between commas, at least one. *)
Definition comma : N := 44%N.

Fixpoint split_comma (s : jsstring) : list jsstring :=
  match s with
  | [] => [[]]
  | c :: r =>
      if (c =? comma)%N then [] :: split_comma r
      else match split_comma r with
           | [] => [[c]]
           | f :: fs => (c :: f) :: fs
           end
  end.

(** A string is truthy when it is not empty. *)
Definition truthy (s : jsstring) : bool :=
  match s with [] => false | _ :: _ => true end.

End JsString.

Import JsString.
Arguments lit s%_string : simpl never.
Arguments of_N n : simpl never.
Arguments trim s : simpl never.

(** ** JSON values, as [response.json()] yields them *)

Inductive value : Type :=
| VNull
| VBool (b : bool)
| VNum (x : Q)
| VStr (s : jsstring)
| VArr (items : list value)
| VObj (fields : list (jsstring * value)).

(** The property names the source reads.  None of them is a member of
    [Object.prototype], [Array.prototype] or [String.prototype], so reading
    one from anything but an object with that own property is [undefined]. *)
Inductive field : Type :=
| outputs | artifacts | message | messages | results | text.

Definition field_name (f : field) : jsstring :=
  match f with
  | outputs => lit "outputs"
  | artifacts => lit "artifacts"
  | message => lit "message"
  | messages => lit "messages"
  | results => lit "results"
  | text => lit "text"
  end.

Fixpoint own_property (k : jsstring) (fields : list (jsstring * value))
  : option value :=
  match fields with
  | [] => None
  | (k', v) :: rest => if JsString.eqb k k' then Some v else own_property k rest
  end.

(** [v?.f]: [undefined] on [null] and [undefined]. *)
Definition get (f : field) (v : option value) : option value :=
  match v with
  | Some (VObj fields) => own_property (field_name f) fields
  | _ => None
  end.

(** [v?.[0]]: the first element of an array, the first code unit of a
    string, the property ["0"] of an object. *)
Definition at0 (v : option value) : option value :=
  match v with
  | Some (VArr items) => nth_error items 0
  | Some (VStr (c :: _)) => Some (VStr [c])
  | Some (VObj fields) => own_property (lit "0") fields
  | _ => None
  end.

(** [a ?? b] *)
Definition nullish (v : option value) : bool :=
  match v with
  | None | Some VNull => true
  | _ => false
  end.

Definition coalesce (a b : option value) : option value :=
  if nullish a then b else a.

(** [!data] is false exactly on truthy values. *)
Definition value_truthy (v : value) : bool :=
  match v with
  | VNull => false
  | VBool b => b
  | VNum x => negb (Qnum x =? 0)%Z
  | VStr s => JsString.truthy s
  | VArr _ | VObj _ => true
  end.

Declare Scope js_scope.
Delimit Scope js_scope with js.
Notation "v '?.' f" := (get f v)
  (at level 1, f at level 0, left associativity) : js_scope.
Notation "v '?.[0]'" := (at0 v) (at level 1, left associativity) : js_scope.
Notation "a '??' b" := (coalesce a b) (at level 40, left associativity) : js_scope.

(** ** Exceptions *)

Inductive js_error : Type :=
| TypeError (callee : jsstring)   (* [x.callee is not a function] *)
| Error (message : jsstring)      (* [new Error(message)] *)
| Rejected (message : jsstring).  (* a rejection raised by the browser *)

Definition error_message (e : js_error) : jsstring :=
  match e with
  | TypeError callee => callee ++ lit " is not a function"
  | Error m => m
  | Rejected m => m
  end.

Inductive completion (A : Type) : Type :=
| Normal (a : A)
| Throw (e : js_error).
Arguments Normal {A} a.
Arguments Throw {A} e.

(** [Array.prototype.flatMap] with a callback that may throw. *)
Fixpoint flatMap {A B : Type} (f : A -> completion (list B)) (l : list A)
  : completion (list B) :=
  match l with
  | [] => Normal []
  | x :: rest =>
      match f x with
      | Throw e => Throw e
      | Normal ys =>
          match flatMap f rest with
          | Throw e => Throw e
          | Normal zs => Normal (ys ++ zs)
          end
      end
  end.

(** ** extractLangflowMessage *)

Section Extract.
Local Open Scope js_scope.

(** The four paths of the first [??] chain, in source order. *)
Definition path1 (data : value) : option value :=
  (Some data)?.outputs?.[0]?.outputs?.[0]?.outputs?.message?.message.
Definition path2 (data : value) : option value :=
  (Some data)?.outputs?.[0]?.outputs?.[0]?.artifacts?.message.
Definition path3 (data : value) : option value :=
  (Some data)?.outputs?.[0]?.outputs?.[0]?.messages?.[0]?.message.
Definition path4 (data : value) : option value :=
  (Some data)?.outputs?.[0]?.outputs?.[0]?.results?.message?.text.

Definition first_choice (data : value) : option value :=
  path1 data ?? path2 data ?? path3 data ?? path4 data.

(** [messages.map((message) => message?.message)
            .filter((value) => typeof value === 'string')] *)
Fixpoint message_strings (msgs : list value) : list jsstring :=
  match msgs with
  | [] => []
  | m :: rest =>
      match (Some m)?.message with
      | Some (VStr s) => s :: message_strings rest
      | _ => message_strings rest
      end
  end.

(** The callback of the inner [flatMap]. *)
Definition subEntry_strings (subEntry : value) : completion (list jsstring) :=
  let maybeString :=
    (Some subEntry)?.outputs?.message?.message
      ?? (Some subEntry)?.artifacts?.message in
  match maybeString with
  | Some (VStr s) => Normal [s]
  | _ =>
      match (Some subEntry)?.messages with
      | None | Some VNull => Normal []
      | Some (VArr msgs) => Normal (message_strings msgs)
      | Some _ => Throw (TypeError (lit "messages.map"))
      end
  end.

(** The callback of the outer [flatMap]. *)
Definition entry_strings (entry : value) : completion (list jsstring) :=
  match (Some entry)?.outputs with
  | None | Some VNull => Normal []
  | Some (VArr inner) => flatMap subEntry_strings inner
  | Some _ => Throw (TypeError (lit "inner.flatMap"))
  end.

(** [data?.outputs?.flatMap(...)]: [None] is [undefined]. *)
Definition scan (data : value) : completion (option (list jsstring)) :=
  match (Some data)?.outputs with
  | None | Some VNull => Normal None
  | Some (VArr entries) =>
      match flatMap entry_strings entries with
      | Normal l => Normal (Some l)
      | Throw e => Throw e
      end
  | Some _ => Throw (TypeError (lit "data.outputs.flatMap"))
  end.

(** [null] is [None]. *)
Definition extractLangflowMessage (data : value) : completion (option jsstring) :=
  if negb (value_truthy data) then Normal None
  else
    let outputs := first_choice data in
    match outputs with
    | Some (VStr s) =>
        if JsString.truthy (trim s) then Normal (Some (trim s))
        else
          match scan data with
          | Throw e => Throw e
          | Normal (Some (t :: _)) => Normal (Some t)
          | Normal _ => Normal None
          end
    | _ =>
        match scan data with
        | Throw e => Throw e
        | Normal (Some (t :: _)) => Normal (Some t)
        | Normal _ => Normal None
        end
    end.

End Extract.

(** ** Build-time configuration ([import.meta.env]) *)

Record vite_env : Type := {
  VITE_LANGFLOW_URL : option jsstring;
  VITE_LANGFLOW_ORG_ID : option jsstring;
  VITE_LANGFLOW_TOKEN : option jsstring;
  VITE_ASTRA_API_ENDPOINT : option jsstring;
  VITE_ASTRA_DB_KEYSPACE : option jsstring;
  VITE_ASTRA_DB_COLLECTION : option jsstring;
  VITE_ASTRA_DB_TOKEN : option jsstring
}.

(** [v || d] for a string or [undefined]. *)
Definition or_else (v : option jsstring) (d : jsstring) : jsstring :=
  match v with
  | Some (c :: r) => c :: r
  | _ => d
  end.

(** ** Data exchanged with the browser and the two services *)

Record file : Type := {
  file_name : jsstring;
  file_type : jsstring;
  file_size : option N
}.

(** What the [FileReader] reports after [readAsDataURL]. *)
Inductive reader_outcome : Type :=
| onload (result : option jsstring)      (* [None]: the result is no string *)
| onerror (reader_error : option js_error).

Record astra_document : Type := {
  doc_filename : jsstring;
  doc_mimeType : jsstring;
  doc_size : option N;            (* [file.size ?? null] *)
  doc_uploadedAt : N;             (* the instant [toISOString] renders *)
  doc_vectorize : jsstring;
  doc_contentBase64 : jsstring
}.

Inductive astra_command : Type :=
| insertMany (documents : list astra_document)
| findOne (includeSimilarity includeSortVector : bool).   (* [filter: {}] *)

Record langflow_payload : Type := {
  output_type : jsstring;
  input_type : jsstring;
  input_value : jsstring;
  session_id : jsstring
}.

(** The object handed to [JSON.stringify]. *)
Inductive request_body : Type :=
| LangflowBody (payload : langflow_payload)
| AstraBody (command : astra_command).

Record http_request : Type := {
  req_url : jsstring;
  req_method : jsstring;
  req_headers : list (jsstring * jsstring);
  req_body : request_body;
  req_signal : option N
}.

Record http_response : Type := {
  resp_ok : bool;
  resp_status : N;
  resp_statusText : jsstring;
  resp_text : completion jsstring;     (* [await response.text()] *)
  resp_json : completion value         (* [await response.json()] *)
}.

Record generic_item : Type := {
  item_id : jsstring;
  response_type : jsstring;
  item_text : jsstring
}.

Record chat_message : Type := {
  msg_id : jsstring;
  msg_request_id : option jsstring;
  msg_generic : list generic_item;
  msg_timestamp : N
}.

Record message_input : Type := { input_text : option jsstring }.

Record message_request : Type := {
  request_input : option message_input;
  request_ident : option jsstring
}.

Record request_options : Type := { signal : option N }.

(** Everything the browser decides.  The argument [nat] is the number of
    host queries made before the call. *)
Record host : Type := {
  has_randomUUID : bool;
  randomUUID : nat -> jsstring;
  Date_now : nat -> N;
  Math_random36 : nat -> jsstring;   (* [Math.random().toString(36).slice(2, 10)] *)
  fetch_outcome : nat -> http_request -> completion http_response;
  addMessage_outcome : nat -> chat_message -> completion unit;
  FileReader_outcome : nat -> file -> reader_outcome
}.

(** ** Component state *)

Record file_entry : Type := {
  entry_id : jsstring;
  entry_file : file;
  entry_name : jsstring;
  entry_size : option N;                (* [None] is [NaN] *)
  entry_createdAt : N;
  entry_status : jsstring;
  entry_completedAt : option N;
  entry_astraResponse : option value;
  entry_errorMessage : option jsstring
}.

Record connection_status : Type := {
  checked : bool;
  success : bool;
  status_message : jsstring
}.

Inductive log_level : Type := log_info | log_warn | log_error.

Inductive event : Type :=
| EFetch (request : http_request)
| EAddMessage (m : chat_message)
| EConsole (level : log_level) (label : jsstring)
| EInputCleared.                        (* [event.target.value = ''] *)

Inductive bus_handler : Type := regenerateSessionId_handler.

Record state : Type := {
  uploadedFiles : list file_entry;
  astraConnectionStatus : connection_status;
  sessionRef : jsstring;
  resetRegisteredRef : bool;
  reset_handlers : list bus_handler;    (* RESET handlers on the chat instance *)
  timers : list file_entry;             (* pending [setTimeout] callbacks *)
  trace : list event;                   (* oldest first *)
  tick : nat
}.

Definition set_uploadedFiles (f : list file_entry -> list file_entry) (st : state) : state :=
  {| uploadedFiles := f (uploadedFiles st);
     astraConnectionStatus := astraConnectionStatus st;
     sessionRef := sessionRef st;
     resetRegisteredRef := resetRegisteredRef st;
     reset_handlers := reset_handlers st;
     timers := timers st; trace := trace st; tick := tick st |}.

Definition set_astraConnectionStatus (c : connection_status) (st : state) : state :=
  {| uploadedFiles := uploadedFiles st;
     astraConnectionStatus := c;
     sessionRef := sessionRef st;
     resetRegisteredRef := resetRegisteredRef st;
     reset_handlers := reset_handlers st;
     timers := timers st; trace := trace st; tick := tick st |}.

Definition set_sessionRef (s : jsstring) (st : state) : state :=
  {| uploadedFiles := uploadedFiles st;
     astraConnectionStatus := astraConnectionStatus st;
     sessionRef := s;
     resetRegisteredRef := resetRegisteredRef st;
     reset_handlers := reset_handlers st;
     timers := timers st; trace := trace st; tick := tick st |}.

Definition register_reset (hd : bus_handler) (st : state) : state :=
  {| uploadedFiles := uploadedFiles st;
     astraConnectionStatus := astraConnectionStatus st;
     sessionRef := sessionRef st;
     resetRegisteredRef := true;
     reset_handlers := reset_handlers st ++ [hd];
     timers := timers st; trace := trace st; tick := tick st |}.

Definition set_timers (f : list file_entry -> list file_entry) (st : state) : state :=
  {| uploadedFiles := uploadedFiles st;
     astraConnectionStatus := astraConnectionStatus st;
     sessionRef := sessionRef st;
     resetRegisteredRef := resetRegisteredRef st;
     reset_handlers := reset_handlers st;
     timers := f (timers st); trace := trace st; tick := tick st |}.

Definition record_event (e : event) (st : state) : state :=
  {| uploadedFiles := uploadedFiles st;
     astraConnectionStatus := astraConnectionStatus st;
     sessionRef := sessionRef st;
     resetRegisteredRef := resetRegisteredRef st;
     reset_handlers := reset_handlers st;
     timers := timers st; trace := trace st ++ [e]; tick := tick st |}.

Definition next_tick (st : state) : state :=
  {| uploadedFiles := uploadedFiles st;
     astraConnectionStatus := astraConnectionStatus st;
     sessionRef := sessionRef st;
     resetRegisteredRef := resetRegisteredRef st;
     reset_handlers := reset_handlers st;
     timers := timers st; trace := trace st; tick := S (tick st) |}.

(** ** The monad of handlers: component state and exceptions *)

Definition M (A : Type) : Type := state -> completion A * state.

Definition ret {A : Type} (a : A) : M A := fun st => (Normal a, st).

Definition bind {A B : Type} (m : M A) (k : A -> M B) : M B :=
  fun st =>
    match m st with
    | (Normal a, st') => k a st'
    | (Throw e, st') => (Throw e, st')
    end.

Definition throw {A : Type} (e : js_error) : M A := fun st => (Throw e, st).

(** [try { body } catch (error) { handler }] *)
Definition try_catch {A : Type} (body : M A) (handler : js_error -> M A) : M A :=
  fun st =>
    match body st with
    | (Normal a, st') => (Normal a, st')
    | (Throw e, st') => handler e st'
    end.

(** [await] on a promise the host has settled. *)
Definition settle {A : Type} (c : completion A) : M A := fun st => (c, st).

Definition update (f : state -> state) : M unit := fun st => (Normal tt, f st).

Definition read {A : Type} (proj : state -> A) : M A := fun st => (Normal (proj st), st).

(** One question to the host. *)
Definition query {A : Type} (answer : nat -> A) : M A :=
  fun st => (Normal (answer (tick st)), next_tick st).

Definition emit (e : event) : M unit := update (record_event e).

Declare Scope monad_scope.
Delimit Scope monad_scope with monad.
Notation "x <- m ;; k" := (bind m (fun x => k))
  (at level 61, m at next level, right associativity) : monad_scope.
Notation "m ;; k" := (bind m (fun _ => k))
  (at level 61, right associativity) : monad_scope.

Local Open Scope monad_scope.

Fixpoint mapM {A B : Type} (f : A -> M B) (l : list A) : M (list B) :=
  match l with
  | [] => ret []
  | x :: rest => y <- f x ;; ys <- mapM f rest ;; ret (y :: ys)
  end.

Fixpoint forEach {A : Type} (f : A -> M unit) (l : list A) : M unit :=
  match l with
  | [] => ret tt
  | x :: rest => f x ;; forEach f rest
  end.

Definition run {A : Type} (m : M A) (st : state) : state := snd (m st).

(** ** The module: constants and pure helpers *)

Section App.

Variable env : vite_env.
Variable h : host.

Definition LANGFLOW_URL : jsstring := or_else (VITE_LANGFLOW_URL env) (lit "").
Definition LANGFLOW_ORG_ID : jsstring := or_else (VITE_LANGFLOW_ORG_ID env) (lit "").
Definition LANGFLOW_TOKEN : jsstring := or_else (VITE_LANGFLOW_TOKEN env) (lit "").

Definition ASTRA_DB_API_ENDPOINT : jsstring := or_else (VITE_ASTRA_API_ENDPOINT env) (lit "").
Definition ASTRA_DB_KEYSPACE : jsstring := or_else (VITE_ASTRA_DB_KEYSPACE env) (lit "").
Definition ASTRA_DB_COLLECTION : jsstring := or_else (VITE_ASTRA_DB_COLLECTION env) (lit "raw_esg").
Definition ASTRA_DB_TOKEN : jsstring := or_else (VITE_ASTRA_DB_TOKEN env) (lit "").

Definition langflow_config_missing : bool :=
  negb (truthy LANGFLOW_URL) || negb (truthy LANGFLOW_ORG_ID)
  || negb (truthy LANGFLOW_TOKEN).

Definition astra_config_missing : bool :=
  negb (truthy ASTRA_DB_API_ENDPOINT) || negb (truthy ASTRA_DB_KEYSPACE)
  || negb (truthy ASTRA_DB_COLLECTION) || negb (truthy ASTRA_DB_TOKEN).

Definition langflow_missing_fallback : jsstring :=
  lit "LangFlow configuration is missing. Please check the environment variables.".
Definition langflow_no_reply_fallback : jsstring :=
  lit "I was unable to retrieve a response from the LangFlow assistant.".
Definition langflow_error_fallback : jsstring :=
  lit "Sorry, I ran into a problem reaching the LangFlow assistant. Please try again in a moment.".
Definition astra_skip_message : jsstring :=
  lit "Astra DB configuration missing. Skipping ingestion.".
Definition astra_missing_message : jsstring :=
  lit "Missing Astra DB configuration. Please check your environment variables.".

Definition console (level : log_level) (label : jsstring) : M unit :=
  emit (EConsole level label).

Definition makeId : M jsstring :=
  if has_randomUUID h then query (randomUUID h)
  else
    now <- query (Date_now h) ;;
    rnd <- query (Math_random36 h) ;;
    ret (of_N now ++ lit "-" ++ rnd).

Definition createSessionId : M jsstring :=
  if has_randomUUID h then query (randomUUID h)
  else
    now <- query (Date_now h) ;;
    rnd <- query (Math_random36 h) ;;
    ret (lit "session-" ++ of_N now ++ lit "-" ++ rnd).

Definition buildTextResponse (txt : jsstring) (requestId : option jsstring)
  : M chat_message :=
  id1 <- makeId ;;
  id2 <- makeId ;;
  now <- query (Date_now h) ;;
  ret {| msg_id := lit "response-" ++ id1;
         msg_request_id := requestId;
         msg_generic := [ {| item_id := lit "item-" ++ id2;
                             response_type := lit "text";
                             item_text := txt |} ];
         msg_timestamp := now |}.

(** [fetch(url, init)] *)
Definition fetch (request : http_request) : M http_response :=
  emit (EFetch request) ;;
  r <- query (fun k => fetch_outcome h k request) ;;
  settle r.

(** [instance.messaging.addMessage(m)] *)
Definition addMessage (m : chat_message) : M unit :=
  emit (EAddMessage m) ;;
  r <- query (fun k => addMessage_outcome h k m) ;;
  settle r.

(** [const [, base64 = result] = result.split(',')] *)
Definition base64_of (result : jsstring) : jsstring :=
  match split_comma result with
  | _ :: base64 :: _ => base64
  | _ => result
  end.

Definition readFileAsBase64 (f : file) : M jsstring :=
  r <- query (fun k => FileReader_outcome h k f) ;;
  match r with
  | onload (Some result) => ret (base64_of result)
  | onload None => throw (Error (lit "Failed to read file as base64."))
  | onerror (Some e) => throw e
  | onerror None => throw (Error (lit "Unknown file read error"))
  end.

(** ** ingestFileToAstra *)

Record ingestion_result : Type := {
  ing_success : bool;
  ing_skipped : bool;                  (* absent is [false] *)
  ing_message : option jsstring;
  ing_data : option value;
  ing_error : option js_error
}.

Definition astra_url : jsstring :=
  ASTRA_DB_API_ENDPOINT ++ lit "/api/json/v1/" ++ ASTRA_DB_KEYSPACE
    ++ lit "/" ++ ASTRA_DB_COLLECTION.

(** The [document] literal of [ingestFileToAstra]. *)
Definition astra_document_of (f : file) (now : N) (base64 : jsstring)
  : astra_document :=
  {| doc_filename := file_name f;
     doc_mimeType := or_else (Some (file_type f)) (lit "application/octet-stream");
     doc_size := file_size f;
     doc_uploadedAt := now;
     doc_vectorize := file_name f;
     doc_contentBase64 := base64 |}.

Definition insert_request (document : astra_document) : http_request :=
  {| req_url := astra_url;
     req_method := lit "POST";
     req_headers := [ (lit "Content-Type", lit "application/json");
                      (lit "X-Cassandra-Token", ASTRA_DB_TOKEN) ];
     req_body := AstraBody (insertMany [document]);
     req_signal := None |}.

Definition skipped_result : ingestion_result :=
  {| ing_success := false; ing_skipped := true;
     ing_message := Some astra_skip_message;
     ing_data := None; ing_error := None |}.

Definition success_result (data : value) : ingestion_result :=
  {| ing_success := true; ing_skipped := false;
     ing_message := None; ing_data := Some data; ing_error := None |}.

Definition failure_result (error : js_error) : ingestion_result :=
  {| ing_success := false; ing_skipped := false;
     ing_message := None; ing_data := None; ing_error := Some error |}.

Definition ingestFileToAstra (f : file) : M ingestion_result :=
  if astra_config_missing then
    console log_warn astra_skip_message ;;
    ret skipped_result
  else
    try_catch
      (base64 <- readFileAsBase64 f ;;
       now <- query (Date_now h) ;;
       let document := astra_document_of f now base64 in
       response <- fetch (insert_request document) ;;
       (if negb (resp_ok response) then
          errorText <- settle (resp_text response) ;;
          throw (Error (lit "Astra insertMany request failed: "
                          ++ of_N (resp_status response) ++ lit " "
                          ++ resp_statusText response ++ lit " " ++ errorText))
        else ret tt) ;;
       data <- settle (resp_json response) ;;
       ret (success_result data))
      (fun error =>
         console log_error (lit "Error ingesting file into Astra DB") ;;
         ret (failure_result error)).

(** ** Upload handlers *)

Definition status_uploading : jsstring := lit "uploading".
Definition status_complete : jsstring := lit "complete".
Definition status_error : jsstring := lit "error".

Definition handleFileUploaded (f : option file) (result : ingestion_result)
  : M jsstring :=
  console log_info (lit "file uploaded") ;;
  ret (lit "file uploaded").

(** The entry literal of [handleFilesSelected]. *)
Definition uploading_entry (id : jsstring) (f : file) (now : N) : file_entry :=
  {| entry_id := id;
     entry_file := f;
     entry_name := file_name f;
     entry_size := file_size f;
     entry_createdAt := now;
     entry_status := status_uploading;
     entry_completedAt := None;
     entry_astraResponse := None;
     entry_errorMessage := None |}.

Definition new_entry (f : file) : M file_entry :=
  id <- makeId ;;
  now <- query (Date_now h) ;;
  ret (uploading_entry id f now).

(** [{ ...item, status: 'complete', completedAt, astraResponse }] *)
Definition completed (item : file_entry) (now : N) (response : value) : file_entry :=
  {| entry_id := entry_id item;
     entry_file := entry_file item;
     entry_name := entry_name item;
     entry_size := entry_size item;
     entry_createdAt := entry_createdAt item;
     entry_status := status_complete;
     entry_completedAt := Some now;
     entry_astraResponse := Some response;
     entry_errorMessage := entry_errorMessage item |}.

(** [{ ...item, status: 'error', errorMessage }] *)
Definition failed (item : file_entry) (msg : jsstring) : file_entry :=
  {| entry_id := entry_id item;
     entry_file := entry_file item;
     entry_name := entry_name item;
     entry_size := entry_size item;
     entry_createdAt := entry_createdAt item;
     entry_status := status_error;
     entry_completedAt := entry_completedAt item;
     entry_astraResponse := entry_astraResponse item;
     entry_errorMessage := Some msg |}.

(** [ingestionResult.data ?? null] *)
Definition data_or_null (r : ingestion_result) : value :=
  match ing_data r with
  | Some d => d
  | None => VNull
  end.

(** [ingestionResult.error?.message ?? 'Failed to ingest file.'] *)
Definition error_text (r : ingestion_result) : jsstring :=
  match ing_error r with
  | Some e => error_message e
  | None => lit "Failed to ingest file."
  end.

(** The function mapped over [prev] by the timer callback. *)
Definition settle_entry (entry : file_entry) (ingestionResult : ingestion_result)
    (item : file_entry) : M file_entry :=
  if negb (JsString.eqb (entry_id item) (entry_id entry)) then ret item
  else if ing_success ingestionResult || ing_skipped ingestionResult then
    now <- query (Date_now h) ;;
    ret (completed item now (data_or_null ingestionResult))
  else
    ret (failed item (error_text ingestionResult)).

(** [setUploadedFiles((prev) => prev.map(...))] *)
Definition setUploadedFiles_map (f : file_entry -> M file_entry) : M unit :=
  prev <- read uploadedFiles ;;
  next <- mapM f prev ;;
  update (set_uploadedFiles (fun _ => next)).

(** The [async] callback given to [setTimeout]. *)
Definition timer_callback (entry : file_entry) : M unit :=
  ingestionResult <- ingestFileToAstra (entry_file entry) ;;
  (if ing_success ingestionResult || ing_skipped ingestionResult then
     handleFileUploaded (Some (entry_file entry)) ingestionResult ;; ret tt
   else ret tt) ;;
  setUploadedFiles_map (settle_entry entry ingestionResult).

(** [setTimeout(callback, 1200 + Math.random() * 1000)] *)
Definition schedule (entry : file_entry) : M unit :=
  query (fun _ => tt) ;;
  update (set_timers (fun pending => pending ++ [entry])).

(** [files] is [event.target.files]. *)
Definition handleFilesSelected (files : option (list file)) : M unit :=
  let filesFromEvent := match files with Some l => l | None => [] end in
  if Nat.eqb (List.length filesFromEvent) 0 then ret tt
  else
    nextFiles <- mapM new_entry filesFromEvent ;;
    update (set_uploadedFiles (fun prev => prev ++ nextFiles)) ;;
    forEach schedule nextFiles ;;
    emit EInputCleared.

Definition handleRemoveFile (fileId : jsstring) : M unit :=
  update (set_uploadedFiles
            (filter (fun f => negb (JsString.eqb (entry_id f) fileId)))).

(** ** testAstraConnection *)

Definition find_request : http_request :=
  {| req_url := astra_url;
     req_method := lit "POST";
     req_headers := [ (lit "Content-Type", lit "application/json");
                      (lit "Accept", lit "application/json");
                      (lit "X-Cassandra-Token", ASTRA_DB_TOKEN) ];
     req_body := AstraBody (findOne false false);
     req_signal := None |}.

Definition testAstraConnection : M unit :=
  if astra_config_missing then
    update (set_astraConnectionStatus
              {| checked := true; success := false;
                 status_message := astra_missing_message |})
  else
    try_catch
      (response <- fetch find_request ;;
       (if negb (resp_ok response) then
          txt <- settle (resp_text response) ;;
          throw (Error (of_N (resp_status response) ++ lit " "
                          ++ resp_statusText response ++ lit " " ++ txt))
        else ret tt) ;;
       update (set_astraConnectionStatus
                 {| checked := true; success := true;
                    status_message :=
                      lit "Successfully connected to Astra DB collection." |}))
      (fun error =>
         console log_error (lit "Astra connection test failed") ;;
         update (set_astraConnectionStatus
                   {| checked := true; success := false;
                      status_message := error_message error |})).

(** ** The chat adapter *)

(** [request?.input?.text] *)
Definition input_text_of (request : option message_request) : option jsstring :=
  match request with
  | Some r =>
      match request_input r with
      | Some i => input_text i
      | None => None
      end
  | None => None
  end.

(** [request?.input?.text?.trim()] *)
Definition userText_of (request : option message_request) : option jsstring :=
  option_map trim (input_text_of request).

(** [request?.id] *)
Definition request_id_of (request : option message_request) : option jsstring :=
  match request with
  | Some r => request_ident r
  | None => None
  end.

(** [requestOptions?.signal] *)
Definition signal_of (requestOptions : option request_options) : option N :=
  match requestOptions with
  | Some o => signal o
  | None => None
  end.

(** The [payload] literal of [customSendMessage]. *)
Definition chat_payload (userText session : jsstring) : langflow_payload :=
  {| output_type := lit "chat";
     input_type := lit "chat";
     input_value := userText;
     session_id := session |}.

Definition langflow_request (payload : langflow_payload)
    (requestOptions : option request_options) : http_request :=
  {| req_url := LANGFLOW_URL;
     req_method := lit "POST";
     req_headers := [ (lit "X-DataStax-Current-Org", LANGFLOW_ORG_ID);
                      (lit "Authorization", lit "Bearer " ++ LANGFLOW_TOKEN);
                      (lit "Content-Type", lit "application/json");
                      (lit "Accept", lit "application/json") ];
     req_body := LangflowBody payload;
     req_signal := signal_of requestOptions |}.

Definition customSendMessage (request : option message_request)
    (requestOptions : option request_options) : M unit :=
  match userText_of request with
  | None | Some [] => ret tt
  | Some userText =>
      session <- read sessionRef ;;
      let payload := chat_payload userText session in
      try_catch
        (if langflow_config_missing then
           m <- buildTextResponse langflow_missing_fallback (request_id_of request) ;;
           addMessage m ;;
           console log_error (lit "LangFlow configuration missing.")
         else
           response <- fetch (langflow_request payload requestOptions) ;;
           (if negb (resp_ok response) then
              errorText <- settle (resp_text response) ;;
              throw (Error (lit "LangFlow request failed: "
                              ++ of_N (resp_status response) ++ lit " "
                              ++ errorText))
            else ret tt) ;;
           data <- settle (resp_json response) ;;
           msg <- settle (extractLangflowMessage data) ;;
           let replyText :=
             match msg with
             | Some t => t
             | None => langflow_no_reply_fallback
             end in
           m <- buildTextResponse replyText (request_id_of request) ;;
           addMessage m)
        (fun error =>
           console log_error (lit "Error contacting LangFlow") ;;
           m <- buildTextResponse langflow_error_fallback (request_id_of request) ;;
           addMessage m ;;
           throw error)
  end.

(** ** Session identity *)

Definition regenerateSessionId : M unit :=
  s <- createSessionId ;;
  update (set_sessionRef s).

Definition run_handler (hd : bus_handler) : M unit :=
  match hd with
  | regenerateSessionId_handler => regenerateSessionId
  end.

(** [onBeforeRender]: [instance.on({ type: BusEventType.RESET, handler })],
    once. *)
Definition handleBeforeRender : M unit :=
  registered <- read resetRegisteredRef ;;
  if registered then ret tt
  else update (register_reset regenerateSessionId_handler).

(** The chat instance fires [BusEventType.RESET]. *)
Definition bus_reset : M unit :=
  handlers <- read reset_handlers ;;
  forEach run_handler handlers.

(** A later call of [App()]: [useRef(createSessionId())] evaluates its
    argument and keeps the stored reference. *)
Definition rerender : M unit :=
  createSessionId ;; ret tt.

(** ** The component as a transition system *)

Inductive action : Type :=
| FilesSelected (files : option (list file))
| TimerFired (k : nat)
| RemoveFile (fileId : jsstring)
| TestAstraConnection
| SendMessage (request : option message_request)
              (requestOptions : option request_options)
| BeforeRender
| BusReset
| Rerender.

Fixpoint remove_nth {A : Type} (k : nat) (l : list A) : list A :=
  match l, k with
  | [], _ => []
  | _ :: rest, O => rest
  | x :: rest, S k' => x :: remove_nth k' rest
  end.

(** The k-th pending timer fires and its callback runs to its end, with
    nothing in between its awaits; the states in which the callback waits
    are those of [page_step] below. *)
Definition fire_timer (k : nat) : M unit :=
  pending <- read timers ;;
  match nth_error pending k with
  | None => ret tt
  | Some entry =>
      update (set_timers (remove_nth k)) ;;
      timer_callback entry
  end.

Definition handle (a : action) : M unit :=
  match a with
  | FilesSelected files => handleFilesSelected files
  | TimerFired k => fire_timer k
  | RemoveFile fileId => handleRemoveFile fileId
  | TestAstraConnection => testAstraConnection
  | SendMessage request requestOptions => customSendMessage request requestOptions
  | BeforeRender => handleBeforeRender
  | BusReset => bus_reset
  | Rerender => rerender
  end.

(** A rejected handler promise leaves the component running. *)
Definition step (a : action) (st : state) : state := run (handle a) st.

Definition steps (acts : list action) (st : state) : state :=
  fold_left (fun s a => step a s) acts st.

(** The first call of [App()]: the initial values of the hooks, then the
    session identifier. *)
Definition blank : state :=
  {| uploadedFiles := [];
     astraConnectionStatus :=
       {| checked := false; success := false; status_message := lit "" |};
     sessionRef := lit "";
     resetRegisteredRef := false;
     reset_handlers := [];
     timers := [];
     trace := [];
     tick := 0 |}.

(** [sessionRef = useRef(createSessionId())] *)
Definition mount : state :=
  run (s <- createSessionId ;; update (set_sessionRef s)) blank.

Inductive reachable : state -> Prop :=
| reachable_mount : reachable mount
| reachable_step (a : action) (st : state) :
    reachable st -> reachable (step a st).

(** ** What the sidebar shows for one entry *)

Inductive status_control : Type := UploadingLabel | FailedTag | UploadedTag.

Record item_view : Type := {
  view_key : jsstring;
  view_className : jsstring;
  view_name : jsstring;
  view_size : option N;                 (* the argument of [formatBytes] *)
  view_createdAt : N;                   (* the argument of [formatDateTime] *)
  view_control : status_control;
  view_progress : bool;
  view_error : option jsstring
}.

Definition render_item (item : file_entry) : item_view :=
  {| view_key := entry_id item;
     view_className := lit "sidebar__item sidebar__item--" ++ entry_status item;
     view_name := entry_name item;
     view_size := entry_size item;
     view_createdAt := entry_createdAt item;
     view_control :=
       if JsString.eqb (entry_status item) status_uploading then UploadingLabel
       else if JsString.eqb (entry_status item) status_error then FailedTag
       else UploadedTag;
     view_progress := JsString.eqb (entry_status item) status_uploading;
     view_error :=
       if JsString.eqb (entry_status item) status_error then
         Some (match entry_errorMessage item with
               | Some m => m
               | None => lit "Failed to ingest file."
               end)
       else None |}.

End App.

(** ** Frame relations and observations used by the statements *)

Definition respects (R : state -> state -> Prop) {A : Type} (m : M A) : Prop :=
  forall st, R st (snd (m st)).

Definition fetched (e : event) : option http_request :=
  match e with EFetch r => Some r | _ => None end.

Definition added (e : event) : option chat_message :=
  match e with EAddMessage m => Some m | _ => None end.

Definition logged (level : log_level) (e : event) : option jsstring :=
  match e, level with
  | EConsole log_info l, log_info => Some l
  | EConsole log_warn l, log_warn => Some l
  | EConsole log_error l, log_error => Some l
  | _, _ => None
  end.

Fixpoint collect {A B : Type} (f : A -> option B) (l : list A) : list B :=
  match l with
  | [] => []
  | x :: rest =>
      match f x with
      | Some y => y :: collect f rest
      | None => collect f rest
      end
  end.

(** The texts of a message built by [buildTextResponse]. *)
Definition message_texts (m : chat_message) : list jsstring :=
  map item_text (msg_generic m).

(** The request carries no text: [request?.input?.text] is absent, empty or
    white space only. *)
Definition no_input_text (request : option message_request) : bool :=
  match input_text_of request with
  | Some t => forallb isWhiteSpace t
  | None => true
  end.

(** The events a handler adds to the trace all satisfy [P]. *)
Definition extends_trace (P : event -> Prop) (st st' : state) : Prop :=
  exists delta, trace st' = trace st ++ delta /\ Forall P delta.

Definition same_session (st st' : state) : Prop := sessionRef st' = sessionRef st.

Definition same_files (st st' : state) : Prop := uploadedFiles st' = uploadedFiles st.

Definition later (st st' : state) : Prop := tick st <= tick st'.

(** The value [makeId] returns when it is called after [k] host queries. *)
Definition makeId_at (h : host) (k : nat) : jsstring :=
  if has_randomUUID h then randomUUID h k
  else of_N (Date_now h k) ++ lit "-" ++ Math_random36 h (S k).

(** The same for [createSessionId]. *)
Definition createSessionId_at (h : host) (k : nat) : jsstring :=
  if has_randomUUID h then randomUUID h k
  else lit "session-" ++ of_N (Date_now h k) ++ lit "-" ++ Math_random36 h (S k).

(** ** Sample configurations, hosts and inputs *)

Module Sample.

Definition configured : vite_env :=
  {| VITE_LANGFLOW_URL := Some (lit "https://flow.example/run");
     VITE_LANGFLOW_ORG_ID := Some (lit "org");
     VITE_LANGFLOW_TOKEN := Some (lit "secret");
     VITE_ASTRA_API_ENDPOINT := Some (lit "https://db.example");
     VITE_ASTRA_DB_KEYSPACE := Some (lit "ks");
     VITE_ASTRA_DB_COLLECTION := None;
     VITE_ASTRA_DB_TOKEN := Some (lit "secret") |}.

Definition unconfigured : vite_env :=
  {| VITE_LANGFLOW_URL := None;
     VITE_LANGFLOW_ORG_ID := None;
     VITE_LANGFLOW_TOKEN := None;
     VITE_ASTRA_API_ENDPOINT := None;
     VITE_ASTRA_DB_KEYSPACE := None;
     VITE_ASTRA_DB_COLLECTION := None;
     VITE_ASTRA_DB_TOKEN := None |}.

Definition reply (ok : bool) (status : N) (data : value) : http_response :=
  {| resp_ok := ok;
     resp_status := status;
     resp_statusText := lit "";
     resp_text := Normal (lit "");
     resp_json := Normal data |}.

(** A browser with [crypto.randomUUID], whose k-th query yields the id [k],
    a network that answers every request with [r], a chat instance that
    accepts every message and a file reader that yields [dataURL]. *)
Definition browser (r : http_response) (reader : reader_outcome) : host :=
  {| has_randomUUID := true;
     randomUUID := fun k => of_N (N.of_nat k);
     Date_now := fun k => N.of_nat k;
     Math_random36 := fun k => of_N (N.of_nat k);
     fetch_outcome := fun _ _ => Normal r;
     addMessage_outcome := fun _ _ => Normal tt;
     FileReader_outcome := fun _ _ => reader |}.



(** The same browser with a chat instance that takes the message with the
    error fallback and rejects every other one. *)
Definition closing_chat (r : http_response) : host :=
  {| has_randomUUID := true;
     randomUUID := fun k => of_N (N.of_nat k);
     Date_now := fun k => N.of_nat k;
     Math_random36 := fun k => of_N (N.of_nat k);
     fetch_outcome := fun _ _ => Normal r;
     addMessage_outcome :=
       fun _ m =>
         match message_texts m with
         | [t] => if JsString.eqb t langflow_error_fallback then Normal tt
                  else Throw (Rejected (lit "The chat is closed."))
         | _ => Throw (Rejected (lit "The chat is closed."))
         end;
     FileReader_outcome :=
       fun _ _ => onload (Some (lit "data:text/plain;base64,QUJD")) |}.

Definition text_plain_ABC : reader_outcome :=
  onload (Some (lit "data:text/plain;base64,QUJD")).

Definition not_readable : reader_outcome :=
  onerror (Some (Rejected (lit "The file could not be read."))).

Definition request_with (t : string) : option message_request :=
  Some {| request_input := Some {| input_text := Some (lit t) |};
          request_ident := Some (lit "request-1") |}.

Definition notes_txt : file :=
  {| file_name := lit "notes.txt";
     file_type := lit "text/plain";
     file_size := Some 3%N |}.


End Sample.

(** [n] host queries later. *)
Definition advance (n : nat) (st : state) : state := Nat.iter n next_tick st.

(** Host queries made by one call of [makeId]. *)
Definition id_cost (h : host) : nat := if has_randomUUID h then 1 else 2.

(** The object [buildTextResponse(txt, requestId)] returns when it is called
    after [k] host queries. *)
Definition text_response_at (h : host) (txt : jsstring)
    (requestId : option jsstring) (k : nat) : chat_message :=
  {| msg_id := lit "response-" ++ makeId_at h k;
     msg_request_id := requestId;
     msg_generic := [ {| item_id := lit "item-" ++ makeId_at h (id_cost h + k);
                         response_type := lit "text";
                         item_text := txt |} ];
     msg_timestamp := Date_now h (id_cost h + (id_cost h + k)) |}.

(** Host queries made by one call of [buildTextResponse]. *)
Definition response_cost (h : host) : nat := S (id_cost h + id_cost h).

(** What the [try] block of [customSendMessage] has in hand when it reaches
    its [addMessage], for the reply the host gives to the request made after
    [k] host queries: the text to show, or the error thrown before. *)
Definition langflow_reply (h : host) (request : http_request) (k : nat)
  : completion jsstring :=
  match fetch_outcome h k request with
  | Throw e => Throw e
  | Normal response =>
      if negb (resp_ok response) then
        match resp_text response with
        | Throw e => Throw e
        | Normal errorText =>
            Throw (Error (lit "LangFlow request failed: "
                            ++ of_N (resp_status response) ++ lit " "
                            ++ errorText))
        end
      else
        match resp_json response with
        | Throw e => Throw e
        | Normal data =>
            match extractLangflowMessage data with
            | Throw e => Throw e
            | Normal (Some t) => Normal t
            | Normal None => Normal langflow_no_reply_fallback
            end
        end
  end.

(** The events of the [catch] block of [customSendMessage] entered after [k]
    host queries. *)
Definition catch_events (h : host) (requestId : option jsstring) (k : nat)
  : list event :=
  [ EConsole log_error (lit "Error contacting LangFlow");
    EAddMessage (text_response_at h langflow_error_fallback requestId k) ].

(** The entries [handleFilesSelected] creates for [files] when it starts
    after [k] host queries. *)
Fixpoint entries_at (h : host) (files : list file) (k : nat) : list file_entry :=
  match files with
  | [] => []
  | f :: rest =>
      uploading_entry (makeId_at h k) f (Date_now h (id_cost h + k))
      :: entries_at h rest (S (id_cost h + k))
  end.

(** How the timer callback of [entry] with result [r] maps [item]. *)
Definition settled (entry : file_entry) (r : ingestion_result)
    (item item' : file_entry) : Prop :=
  if negb (JsString.eqb (entry_id item) (entry_id entry)) then item' = item
  else if ing_success r || ing_skipped r then
    exists now, item' = completed item now (data_or_null r)
  else item' = failed item (error_text r).

Definition known_status (s : jsstring) : Prop :=
  s = status_uploading \/ s = status_complete \/ s = status_error.

(** The ways a handler can change [uploadedFiles]. *)
Inductive files_step (h : host) (st st' : state) : Prop :=
| files_kept :
    uploadedFiles st' = uploadedFiles st -> files_step h st st'
| files_added (files : list file) :
    uploadedFiles st' = uploadedFiles st ++ entries_at h files (tick st) ->
    tick st + List.length files * S (id_cost h) <= tick st' ->
    files_step h st st'
| files_settled (entry : file_entry) (r : ingestion_result) :
    Forall2 (settled entry r) (uploadedFiles st) (uploadedFiles st') ->
    files_step h st st'
| files_removed (fileId : jsstring) :
    uploadedFiles st'
    = filter (fun f => negb (JsString.eqb (entry_id f) fileId)) (uploadedFiles st) ->
    files_step h st st'.

(** An HTTP request that is a chat turn carries the session identifier [s]. *)
Definition carries (s : jsstring) (e : event) : Prop :=
  match e with
  | EFetch r =>
      match req_body r with
      | LangflowBody p => session_id p = s
      | AstraBody _ => True
      end
  | _ => True
  end.

(** The event is no chat turn. *)
Definition no_chat_turn (e : event) : Prop :=
  match e with
  | EFetch r =>
      match req_body r with
      | LangflowBody _ => False
      | AstraBody _ => True
      end
  | _ => True
  end.

(** The event is no HTTP request. *)
Definition no_request (e : event) : Prop := fetched e = None.

(** The only HTTP request the event can be is the read-only [findOne]. *)
Definition read_only (e : event) : Prop :=
  match e with
  | EFetch r =>
      req_method r = lit "POST" /\ req_body r = AstraBody (findOne false false)
  | _ => True
  end.

(** The identifiers of the list are distinct and were all drawn by [makeId]
    before the current host query. *)
Definition ids_drawn (h : host) (st : state) : Prop :=
  NoDup (map entry_id (uploadedFiles st))
  /\ Forall (fun e => exists i, i < tick st /\ entry_id e = makeId_at h i)
       (uploadedFiles st).

(** [item'] is [item] after the timer callback of [entry] marked it complete:
    entries with the identifier of [entry] get the status ['complete'] and a
    [completedAt] time, the others are untouched. *)
Definition completes (entry item item' : file_entry) : Prop :=
  (entry_id item = entry_id entry ->
   entry_status item' = status_complete
   /\ (exists now, entry_completedAt item' = Some now)
   /\ entry_id item' = entry_id item
   /\ entry_file item' = entry_file item)
  /\ (entry_id item <> entry_id entry -> item' = item).

(** The console entry of the [catch] block of [ingestFileToAstra]. *)
Definition ingest_error_log : event :=
  EConsole log_error (lit "Error ingesting file into Astra DB").

(** The RESET registration is untouched. *)
Definition same_bus (st st' : state) : Prop :=
  reset_handlers st' = reset_handlers st
  /\ resetRegisteredRef st' = resetRegisteredRef st.

(** ** Further observations *)

(** The payloads of the chat turns among the events. *)
Definition chat_turn (e : event) : option langflow_payload :=
  match e with
  | EFetch r =>
      match req_body r with
      | LangflowBody p => Some p
      | AstraBody _ => None
      end
  | _ => None
  end.

(** The string has no white space at either end. *)
Definition tight (s : jsstring) : Prop :=
  match s with
  | [] => True
  | c :: r => isWhiteSpace c = false /\ isWhiteSpace (last r c) = false
  end.

(** [v] is [t] without white space around it. *)
Definition trimmed_from (t v : jsstring) : Prop :=
  exists p q,
    t = p ++ v ++ q
    /\ forallb isWhiteSpace p = true
    /\ forallb isWhiteSpace q = true.

(** [typeof v] is ['boolean'], ['number'] or ['string']. *)
Definition scalar (v : value) : bool :=
  match v with
  | VBool _ | VNum _ | VStr _ => true
  | _ => false
  end.

(** Something that is there and is no array. *)
Definition not_an_array (v : value) : bool :=
  match v with
  | VNull | VArr _ => false
  | _ => true
  end.

(** The first choice of [extractLangflowMessage] gives no usable text. *)
Definition no_first_choice (data : value) : Prop :=
  forall s, first_choice data = Some (VStr s) -> trim s = [].

Definition is_TypeError (e : js_error) : Prop := exists callee, e = TypeError callee.

(** ** The texts of a reply, in document order

    What [extractLangflowMessage] reads, written down as lists: the places
    of the first sub-entry, and the strings of all sub-entries in the order
    of the document. *)










(** Nothing of the component's own state differs. *)
Definition same_component (st st' : state) : Prop :=
  uploadedFiles st' = uploadedFiles st
  /\ astraConnectionStatus st' = astraConnectionStatus st
  /\ sessionRef st' = sessionRef st
  /\ resetRegisteredRef st' = resetRegisteredRef st
  /\ reset_handlers st' = reset_handlers st
  /\ timers st' = timers st.

(** The event does not involve the chat: no message, no chat turn. *)
Definition off_chat (e : event) : Prop := added e = None /\ chat_turn e = None.

(** How the promise of [customSendMessage] settles once the [try] block has
    [reply] in hand, the first message being offered after [k] host
    queries. *)
Definition settlement (h : host) (requestId : option jsstring) (k : nat)
    (reply : completion jsstring) : completion unit :=
  let in_catch (e : js_error) (k' : nat) :=
    match addMessage_outcome h (response_cost h + k')
            (text_response_at h langflow_error_fallback requestId k') with
    | Normal _ => Throw e
    | Throw e' => Throw e'
    end in
  match reply with
  | Normal txt =>
      match addMessage_outcome h (response_cost h + k)
              (text_response_at h txt requestId k) with
      | Normal _ => Normal tt
      | Throw e => in_catch e (S (response_cost h + k))
      end
  | Throw e => in_catch e k
  end.

(** What the [catch] block of [customSendMessage] makes of the error [e] of
    a turn whose events after the request are [delta], when the block is
    entered after [k] host queries: the error fallback is the one message
    offered, the failure is logged once, and the promise [out] rejects with
    [e] itself once the chat instance has taken the message, and with the
    error of [addMessage] otherwise. *)
Definition caught (h : host) (requestId : option jsstring) (k : nat)
    (e : js_error) (delta : list event) (out : completion unit) : Prop :=
  let m := text_response_at h langflow_error_fallback requestId k in
  collect added delta = [m]
  /\ message_texts m = [langflow_error_fallback]
  /\ collect (logged log_error) delta = [lit "Error contacting LangFlow"]
  /\ (addMessage_outcome h (response_cost h + k) m = Normal tt -> out = Throw e)
  /\ (forall e', addMessage_outcome h (response_cost h + k) m = Throw e' ->
                 out = Throw e').

(** What stays of an entry whatever happens to its upload. *)
Definition identity_of (e : file_entry)
  : jsstring * file * jsstring * option N * N :=
  (entry_id e, entry_file e, entry_name e, entry_size e, entry_createdAt e).

(** The message of the error [ingestFileToAstra] throws on a reply that is
    no success. *)
Definition insert_failure (response : http_response) (errorText : jsstring)
  : js_error :=
  Error (lit "Astra insertMany request failed: "
           ++ of_N (resp_status response) ++ lit " "
           ++ resp_statusText response ++ lit " " ++ errorText).

(** [item'] is [item] after the timer callback of [entry] marked it failed
    with [msg]. *)
Definition fails_with (entry : file_entry) (msg : jsstring)
    (item item' : file_entry) : Prop :=
  (entry_id item = entry_id entry ->
   entry_status item' = status_error
   /\ entry_errorMessage item' = Some msg
   /\ view_control (render_item item') = FailedTag
   /\ view_error (render_item item') = Some msg
   /\ identity_of item' = identity_of item)
  /\ (entry_id item <> entry_id entry -> item' = item).

Definition same_timers (st st' : state) : Prop := timers st' = timers st.

(** ** Timer callbacks in flight

    [fire_timer] runs the callback of a timer to its end.  In the browser
    the callback stops at [await ingestFileToAstra(entry.file)] and handlers
    of the component may run before it goes on with [setUploadedFiles].  The
    transition system below shows the component in between: a callback that
    has started waits with the result of its ingestion until it is resumed.
    The ingestion does not read or write the component's own state, so its
    host queries are made when the callback starts. *)

(** The callback after its [await]: lines 201 to 227 of the source. *)
Definition resume_callback (h : host) (entry : file_entry)
    (ingestionResult : ingestion_result) : M unit :=
  (if ing_success ingestionResult || ing_skipped ingestionResult then
     handleFileUploaded (Some (entry_file entry)) ingestionResult ;; ret tt
   else ret tt) ;;
  setUploadedFiles_map (settle_entry h entry ingestionResult).

Record page : Type := {
  component : state;
  in_flight : list (file_entry * ingestion_result)
}.

Inductive page_action : Type :=
| Handler (a : action)       (* a handler, run to its end *)
| TimerStarts (k : nat)      (* the k-th pending timer fires; its callback runs
                                up to the end of the awaited ingestion *)
| CallbackResumes (j : nat). (* the j-th callback in flight goes on *)

Definition start_callback (env : vite_env) (h : host) (k : nat) (p : page)
  : page :=
  match nth_error (timers (component p)) k with
  | None => p
  | Some entry =>
      match ingestFileToAstra env h (entry_file entry)
              (set_timers (remove_nth k) (component p)) with
      | (Normal r, st) =>
          {| component := st; in_flight := in_flight p ++ [(entry, r)] |}
      | (Throw _, st) =>
          {| component := st; in_flight := in_flight p |}
      end
  end.

Definition finish_callback (h : host) (j : nat) (p : page) : page :=
  match nth_error (in_flight p) j with
  | None => p
  | Some (entry, r) =>
      {| component := run (resume_callback h entry r) (component p);
         in_flight := remove_nth j (in_flight p) |}
  end.

Definition page_step (env : vite_env) (h : host) (a : page_action) (p : page)
  : page :=
  match a with
  | Handler a => {| component := step env h a (component p);
                    in_flight := in_flight p |}
  | TimerStarts k => start_callback env h k p
  | CallbackResumes j => finish_callback h j p
  end.

Definition page_steps (env : vite_env) (h : host) (acts : list page_action)
    (p : page) : page :=
  fold_left (fun q a => page_step env h a q) acts p.

Definition loaded (h : host) : page :=
  {| component := mount h; in_flight := [] |}.

Inductive page_reachable (env : vite_env) (h : host) : page -> Prop :=
| page_loaded : page_reachable env h (loaded h)
| page_moved (a : page_action) (p : page) :
    page_reachable env h p -> page_reachable env h (page_step env h a p).

(** The identifiers of the entries whose callbacks are in flight. *)
Definition awaited_ids (p : page) : list jsstring :=
  map (fun w => entry_id (fst w)) (in_flight p).

(** Every entry of [st] still shown as uploading has a pending timer or is
    among [waiting]. *)
Definition uploading_is_awaited (waiting : list jsstring) (st : state) : Prop :=
  forall e, In e (uploadedFiles st) ->
            entry_status e = status_uploading ->
            In (entry_id e) (map entry_id (timers st))
            \/ In (entry_id e) waiting.

(** The identifiers of the pending timers are distinct and were drawn by
    [makeId] before the current host query; no settled entry has one. *)
Definition timers_drawn (h : host) (st : state) : Prop :=
  NoDup (map entry_id (timers st))
  /\ Forall (fun t => exists i, i < tick st /\ entry_id t = makeId_at h i)
       (timers st)
  /\ (forall e, In e (uploadedFiles st) ->
                entry_status e <> status_uploading ->
                ~ In (entry_id e) (map entry_id (timers st))).

(** ** The rest of the sidebar *)

(** The connection banner: [astraConnectionStatus.checked && <div ...>], as
    its class name and its text. *)
Definition render_connection (c : connection_status)
  : option (jsstring * jsstring) :=
  if checked c then
    Some (lit "sidebar__connection "
            ++ (if success c then lit "sidebar__connection--success"
                else lit "sidebar__connection--error"),
          status_message c)
  else None.

(** The list area: the placeholder for an empty list, one article per entry
    otherwise. *)
Inductive list_view : Type :=
| EmptyPlaceholder
| Articles (items : list item_view).

Definition render_list (files : list file_entry) : list_view :=
  if Nat.eqb (List.length files) 0 then EmptyPlaceholder
  else Articles (map render_item files).

Definition same_connection (st st' : state) : Prop :=
  astraConnectionStatus st' = astraConnectionStatus st.

(** The message of the error [testAstraConnection] throws on a reply that is
    no success. *)
Definition find_failure (response : http_response) (txt : jsstring) : jsstring :=
  of_N (resp_status response) ++ lit " " ++ resp_statusText response
    ++ lit " " ++ txt.

(** * Proofs *)

(** ** Frame rules: a relation between the states before and after *)

Section Frame.

Variable R : state -> state -> Prop.
Hypothesis R_refl : forall st, R st st.
Hypothesis R_trans : forall a b c, R a b -> R b c -> R a c.

Lemma respects_ret {A : Type} (a : A) : respects R (ret a).
Proof. intros st. apply R_refl. Qed.

Lemma respects_throw {A : Type} (e : js_error) : respects R (@throw A e).
Proof. intros st. apply R_refl. Qed.

Lemma respects_settle {A : Type} (c : completion A) : respects R (settle c).
Proof. intros st. apply R_refl. Qed.

Lemma respects_read {A : Type} (proj : state -> A) : respects R (read proj).
Proof. intros st. apply R_refl. Qed.

Lemma respects_update (f : state -> state) :
  (forall st, R st (f st)) -> respects R (update f).
Proof. intros Hf st. apply Hf. Qed.

Lemma respects_query {A : Type} (answer : nat -> A) :
  (forall st, R st (next_tick st)) -> respects R (query answer).
Proof. intros Hq st. apply Hq. Qed.

Lemma respects_bind {A B : Type} (m : M A) (k : A -> M B) :
  respects R m -> (forall a, respects R (k a)) -> respects R (bind m k).
Proof.
  intros Hm Hk st. unfold bind. specialize (Hm st).
  destruct (m st) as [[a | e] st']; simpl in *.
  - eapply R_trans; [exact Hm | apply Hk].
  - exact Hm.
Qed.

Lemma respects_try_catch {A : Type} (body : M A) (handler : js_error -> M A) :
  respects R body -> (forall e, respects R (handler e)) ->
  respects R (try_catch body handler).
Proof.
  intros Hb Hh st. unfold try_catch. specialize (Hb st).
  destruct (body st) as [[a | e] st']; simpl in *.
  - exact Hb.
  - eapply R_trans; [exact Hb | apply Hh].
Qed.

Lemma respects_mapM {A B : Type} (f : A -> M B) (l : list A) :
  (forall a, respects R (f a)) -> respects R (mapM f l).
Proof.
  intros Hf. induction l as [| x rest IH]; simpl.
  - apply respects_ret.
  - apply respects_bind; [apply Hf | intros y].
    apply respects_bind; [exact IH | intros ys]. apply respects_ret.
Qed.

Lemma respects_forEach {A : Type} (f : A -> M unit) (l : list A) :
  (forall a, respects R (f a)) -> respects R (forEach f l).
Proof.
  intros Hf. induction l as [| x rest IH]; simpl.
  - apply respects_ret.
  - apply respects_bind; [apply Hf | intros _; exact IH].
Qed.

End Frame.

(** Splits a goal [respects R m] along the structure of [m]; what remains
    are the state updates, host queries and calls of other handlers. *)
Ltac frame_rules Hrefl Htrans :=
  repeat
    (intros;
     match goal with
     | |- respects _ (ret _) => apply respects_ret; exact Hrefl
     | |- respects _ (throw _) => apply respects_throw; exact Hrefl
     | |- respects _ (settle _) => apply respects_settle; exact Hrefl
     | |- respects _ (read _) => apply respects_read; exact Hrefl
     | |- respects _ (bind _ _) => apply respects_bind; [exact Htrans | | ]
     | |- respects _ (try_catch _ _) =>
         apply respects_try_catch; [exact Htrans | | ]
     | |- respects _ (mapM _ _) =>
         apply respects_mapM; [exact Hrefl | exact Htrans | ]
     | |- respects _ (forEach _ _) =>
         apply respects_forEach; [exact Hrefl | exact Htrans | ]
     | |- respects _ (query _) => apply respects_query
     | |- respects _ (update _) => apply respects_update
     | |- respects _ (if ?b then _ else _) => destruct b
     | |- respects _ (match ?x with _ => _ end) => destruct x
     end).




(** ** Traces and strings *)

Lemma collect_app {A B : Type} (f : A -> option B) (l1 l2 : list A) :
  collect f (l1 ++ l2) = collect f l1 ++ collect f l2.
Proof.
  induction l1 as [| x rest IH]; simpl; [reflexivity |].
  destruct (f x); simpl; rewrite IH; reflexivity.
Qed.

Lemma trimStart_nil_iff (s : jsstring) :
  trimStart s = [] <-> forallb isWhiteSpace s = true.
Proof.
  induction s as [| c r IH]; simpl; [tauto |].
  destruct (isWhiteSpace c); simpl; [exact IH |].
  split; discriminate.
Qed.

Lemma trimStart_suffix (s : jsstring) :
  exists p, s = p ++ trimStart s /\ forallb isWhiteSpace p = true.
Proof.
  induction s as [| c r [p [Hp Hw]]]; simpl.
  - exists []. split; reflexivity.
  - destruct (isWhiteSpace c) eqn:Hc.
    + exists (c :: p). simpl. rewrite Hc, Hw. split; [f_equal; exact Hp | reflexivity].
    + exists []. split; reflexivity.
Qed.

Lemma forallb_rev {A : Type} (p : A -> bool) (l : list A) :
  forallb p (rev l) = forallb p l.
Proof.
  induction l as [| x r IH]; simpl; [reflexivity |].
  rewrite forallb_app, IH. simpl. rewrite andb_true_r. apply andb_comm.
Qed.

Lemma trim_nil_iff (s : jsstring) :
  trim s = [] <-> forallb isWhiteSpace s = true.
Proof.
  unfold trim, trimEnd. split.
  - intros H.
    assert (H1 : trimStart (rev (trimStart s)) = []).
    { destruct (trimStart (rev (trimStart s))) as [| c l]; [reflexivity |].
      simpl in H. destruct (rev l); discriminate. }
    apply trimStart_nil_iff in H1. rewrite forallb_rev in H1.
    destruct (trimStart_suffix s) as [p [Hp Hw]].
    rewrite Hp, forallb_app, Hw, H1. reflexivity.
  - intros H. apply trimStart_nil_iff in H. rewrite H. reflexivity.
Qed.

(** ** Requests without text *)

Lemma userText_blank (request : option message_request) :
  no_input_text request = true ->
  userText_of request = None \/ userText_of request = Some [].
Proof.
  unfold no_input_text, userText_of.
  destruct (input_text_of request) as [t |]; simpl; auto.
  intros H. right. f_equal. apply trim_nil_iff. exact H.
Qed.

Lemma userText_present (request : option message_request) :
  no_input_text request = false ->
  exists c r, userText_of request = Some (c :: r).
Proof.
  unfold no_input_text, userText_of.
  destruct (input_text_of request) as [t |]; simpl; try discriminate.
  intros H. destruct (trim t) as [| c r] eqn:Ht.
  - apply trim_nil_iff in Ht. congruence.
  - exists c, r. reflexivity.
Qed.

Lemma no_input_text_false_iff (request : option message_request) :
  no_input_text request = false <->
  exists t, input_text_of request = Some t /\ trim t <> [].
Proof.
  unfold no_input_text. destruct (input_text_of request) as [t |]; split.
  - intros H. exists t. split; [reflexivity |]. intros Ht.
    apply trim_nil_iff in Ht. congruence.
  - intros [t' [Ht' Hne]]. inversion Ht'; subst t'.
    destruct (forallb isWhiteSpace t) eqn:Hw; [| reflexivity].
    apply trim_nil_iff in Hw. contradiction.
  - discriminate.
  - intros [t' [Ht' _]]. discriminate.
Qed.

(** C10. A request whose text is absent, empty or white space only makes
    [customSendMessage] return at once: the state, and with it the trace of
    HTTP requests and chat messages, is the one it started from. *)
Theorem customSendMessage_ignores_blank_input
    (env : vite_env) (h : host) (request : option message_request)
    (requestOptions : option request_options) (st : state) :
  no_input_text request = true ->
  customSendMessage env h request requestOptions st = (Normal tt, st).
Proof.
  intros H. unfold customSendMessage.
  destruct (userText_blank request H) as [-> | ->]; reflexivity.
Qed.

Lemma customSendMessage_ignores_blank_input_witness :
  no_input_text (Sample.request_with "   ") = true /\
  customSendMessage Sample.unconfigured
    (Sample.browser (Sample.reply true 200 VNull) Sample.text_plain_ABC)
    (Sample.request_with "   ") None blank = (Normal tt, blank).
Proof.
  split; [reflexivity |].
  apply customSendMessage_ignores_blank_input. reflexivity.
Defined.

(** ** Running the building blocks *)

Lemma bind_unfold {A B : Type} (m : M A) (k : A -> M B) (st : state) :
  bind m k st =
  match m st with
  | (Normal a, st') => k a st'
  | (Throw e, st') => (Throw e, st')
  end.
Proof. reflexivity. Qed.

Lemma try_catch_unfold {A : Type} (body : M A) (handler : js_error -> M A)
    (st : state) :
  try_catch body handler st =
  match body st with
  | (Normal a, st') => (Normal a, st')
  | (Throw e, st') => handler e st'
  end.
Proof. reflexivity. Qed.

Lemma tick_advance (n : nat) (st : state) : tick (advance n st) = n + tick st.
Proof. induction n as [| n IH]; simpl; [reflexivity | now rewrite IH]. Qed.

Lemma trace_advance (n : nat) (st : state) : trace (advance n st) = trace st.
Proof. induction n as [| n IH]; simpl; [reflexivity | exact IH]. Qed.

Lemma sessionRef_advance (n : nat) (st : state) :
  sessionRef (advance n st) = sessionRef st.
Proof. induction n as [| n IH]; simpl; [reflexivity | exact IH]. Qed.

Lemma uploadedFiles_advance (n : nat) (st : state) :
  uploadedFiles (advance n st) = uploadedFiles st.
Proof. induction n as [| n IH]; simpl; [reflexivity | exact IH]. Qed.

Lemma makeId_run (h : host) (st : state) :
  makeId h st = (Normal (makeId_at h (tick st)), advance (id_cost h) st).
Proof.
  unfold makeId, makeId_at, id_cost. destruct (has_randomUUID h); reflexivity.
Qed.

Lemma createSessionId_run (h : host) (st : state) :
  createSessionId h st
  = (Normal (createSessionId_at h (tick st)), advance (id_cost h) st).
Proof.
  unfold createSessionId, createSessionId_at, id_cost.
  destruct (has_randomUUID h); reflexivity.
Qed.

Lemma buildTextResponse_run (h : host) (txt : jsstring)
    (requestId : option jsstring) (st : state) :
  buildTextResponse h txt requestId st
  = (Normal (text_response_at h txt requestId (tick st)),
     advance (response_cost h) st).
Proof.
  unfold buildTextResponse, text_response_at, response_cost.
  rewrite bind_unfold, makeId_run. cbn beta iota.
  rewrite bind_unfold, makeId_run. cbn beta iota.
  rewrite !tick_advance. unfold id_cost.
  destruct (has_randomUUID h); reflexivity.
Qed.

Lemma addMessage_run (h : host) (m : chat_message) (st : state) :
  addMessage h m st
  = (addMessage_outcome h (tick st) m, next_tick (record_event (EAddMessage m) st)).
Proof. reflexivity. Qed.

Lemma fetch_run (h : host) (request : http_request) (st : state) :
  fetch h request st
  = (fetch_outcome h (tick st) request,
     next_tick (record_event (EFetch request) st)).
Proof. reflexivity. Qed.

(** Runs the next statement of a handler whose outcome is known. *)
Ltac exec :=
  repeat
    (first
       [ rewrite try_catch_unfold
       | rewrite bind_unfold
       | rewrite buildTextResponse_run
       | rewrite addMessage_run
       | rewrite fetch_run
       | progress unfold read, ret, settle, throw, update, query, console, emit
       | progress cbn [negb] ]).

(** Case analysis on what the chat instance answers. *)
Ltac chat_answers h :=
  repeat
    match goal with
    | |- context [addMessage_outcome h ?k ?m] =>
        destruct (addMessage_outcome h k m) as [[] | ?]; exec
    end.

(** Normalises the trace of a state reached by [exec]. *)
Ltac traces :=
  repeat
    (progress
       (cbn [trace record_event next_tick set_uploadedFiles
             set_astraConnectionStatus set_sessionRef set_timers
             register_reset snd fst];
        rewrite ?trace_advance));
  rewrite <- ?app_assoc; cbn [app].

(** Normalises the query counts of a state reached by [exec]. *)
Ltac ticks :=
  repeat
    (progress
       (cbn [tick record_event next_tick set_uploadedFiles
             set_astraConnectionStatus set_sessionRef set_timers
             register_reset snd fst];
        rewrite ?tick_advance)).

(** ** Configuration *)

Lemma truthy_false_iff (s : jsstring) : truthy s = false <-> s = lit "".
Proof. destruct s; split; intros H; try reflexivity; discriminate. Qed.

Lemma langflow_config_missing_iff (env : vite_env) :
  langflow_config_missing env = true <->
  LANGFLOW_URL env = lit "" \/ LANGFLOW_ORG_ID env = lit ""
  \/ LANGFLOW_TOKEN env = lit "".
Proof.
  unfold langflow_config_missing.
  rewrite !orb_true_iff, !negb_true_iff, !truthy_false_iff. tauto.
Qed.

Lemma ASTRA_DB_COLLECTION_truthy (env : vite_env) :
  truthy (ASTRA_DB_COLLECTION env) = true.
Proof.
  unfold ASTRA_DB_COLLECTION, or_else.
  destruct (VITE_ASTRA_DB_COLLECTION env) as [[| c r] |]; reflexivity.
Qed.

Lemma astra_config_missing_iff (env : vite_env) :
  astra_config_missing env = true <->
  ASTRA_DB_API_ENDPOINT env = lit "" \/ ASTRA_DB_KEYSPACE env = lit ""
  \/ ASTRA_DB_TOKEN env = lit "".
Proof.
  unfold astra_config_missing. rewrite ASTRA_DB_COLLECTION_truthy.
  rewrite !orb_true_iff, !negb_true_iff, !truthy_false_iff. simpl.
  intuition discriminate.
Qed.

(** ** customSendMessage with its configuration missing *)

Lemma customSendMessage_unconfigured_trace
    (env : vite_env) (h : host) (request : option message_request)
    (requestOptions : option request_options) (st : state) :
  no_input_text request = false ->
  langflow_config_missing env = true ->
  let rid := request_id_of request in
  let m := text_response_at h langflow_missing_fallback rid (tick st) in
  let out := customSendMessage env h request requestOptions st in
  trace (snd out)
  = trace st ++ EAddMessage m ::
      match addMessage_outcome h (response_cost h + tick st) m with
      | Normal _ => [EConsole log_error (lit "LangFlow configuration missing.")]
      | Throw _ => catch_events h rid (S (response_cost h + tick st))
      end
  /\ (addMessage_outcome h (response_cost h + tick st) m = Normal tt ->
      fst out = Normal tt).
Proof.
  intros Hi Hc rid m out.
  destruct (userText_present request Hi) as [c [r Hu]].
  subst out. unfold customSendMessage, catch_events. rewrite Hu, Hc. exec.
  fold rid m. rewrite tick_advance.
  destruct (addMessage_outcome h (response_cost h + tick st) m) as [[] | e];
    exec.
  - traces. split; reflexivity.
  - ticks. chat_answers h; traces; (split; [reflexivity | discriminate]).
Qed.

(** ** Missing configuration *)

(** C1, as stated, fails: with the LangFlow configuration missing and a
    request whose text is three spaces, [customSendMessage] adds no message
    at all. *)
Lemma blank_request_gets_no_fallback :
  let h := Sample.browser (Sample.reply true 200 VNull) Sample.text_plain_ABC in
  let request := Sample.request_with "   " in
  LANGFLOW_URL Sample.unconfigured = lit ""
  /\ customSendMessage Sample.unconfigured h request None (mount h)
     = (Normal tt, mount h)
  /\ collect added
       (trace (snd (customSendMessage Sample.unconfigured h request None (mount h))))
     = [].
Proof. repeat split. Qed.

(** C1, amended.  With a LangFlow value missing and a request that carries
    text, [customSendMessage] issues no HTTP request and first offers the
    chat instance the message with the LangFlow fallback text; when the
    instance accepts it, that is the only message and the call returns
    normally after logging.  With an Astra value missing, [ingestFileToAstra]
    returns its own skip message and [testAstraConnection] stores its own
    message, both without an HTTP request. *)
Theorem missing_configuration_fallbacks
    (env : vite_env) (h : host) (request : option message_request)
    (requestOptions : option request_options) (f : file) (st : state) :
  (LANGFLOW_URL env = lit "" \/ LANGFLOW_ORG_ID env = lit ""
   \/ LANGFLOW_TOKEN env = lit "" ->
   no_input_text request = false ->
   let m := text_response_at h langflow_missing_fallback
              (request_id_of request) (tick st) in
   let out := customSendMessage env h request requestOptions st in
   exists rest : list event,
     trace (snd out) = trace st ++ EAddMessage m :: rest
     /\ collect fetched (EAddMessage m :: rest) = []
     /\ message_texts m = [langflow_missing_fallback]
     /\ (addMessage_outcome h (response_cost h + tick st) m = Normal tt ->
         fst out = Normal tt
         /\ rest = [EConsole log_error (lit "LangFlow configuration missing.")]))
  /\
  (ASTRA_DB_API_ENDPOINT env = lit "" \/ ASTRA_DB_KEYSPACE env = lit ""
   \/ ASTRA_DB_TOKEN env = lit "" ->
   ingestFileToAstra env h f st
   = (Normal skipped_result,
      record_event (EConsole log_warn astra_skip_message) st)
   /\ ing_message skipped_result = Some astra_skip_message
   /\
   testAstraConnection env h st
   = (Normal tt,
      set_astraConnectionStatus
        {| checked := true; success := false;
           status_message := astra_missing_message |} st)).
Proof.
  split.
  - intros Hc Hi m out. apply langflow_config_missing_iff in Hc.
    destruct (customSendMessage_unconfigured_trace env h request requestOptions
                st Hi Hc) as [Htr Hfst].
    fold m out in Htr, Hfst. eexists. split; [exact Htr |].
    destruct (addMessage_outcome h (response_cost h + tick st) m) as [[] | e].
    + repeat split. exact (Hfst eq_refl).
    + repeat split; discriminate.
  - intros Hc. apply astra_config_missing_iff in Hc.
    unfold ingestFileToAstra, testAstraConnection. rewrite Hc.
    repeat split; reflexivity.
Qed.

Lemma missing_configuration_fallbacks_witness :
  let env := Sample.unconfigured in
  let h := Sample.browser (Sample.reply true 200 VNull) Sample.text_plain_ABC in
  let request := Sample.request_with "hello" in
  let m := text_response_at h langflow_missing_fallback
             (request_id_of request) (tick blank) in
  (exists rest : list event,
     trace (snd (customSendMessage env h request None blank))
     = trace blank ++ EAddMessage m :: rest
     /\ collect fetched (EAddMessage m :: rest) = []
     /\ message_texts m = [langflow_missing_fallback]
     /\ (addMessage_outcome h (response_cost h + tick blank) m = Normal tt ->
         fst (customSendMessage env h request None blank) = Normal tt
         /\ rest = [EConsole log_error (lit "LangFlow configuration missing.")]))
  /\ testAstraConnection env h blank
     = (Normal tt,
        set_astraConnectionStatus
          {| checked := true; success := false;
             status_message := astra_missing_message |} blank).
Proof.
  intros env h request m.
  destruct (missing_configuration_fallbacks env h request None Sample.notes_txt blank)
    as [H1 H2].
  split.
  - apply H1; [left; reflexivity | reflexivity].
  - apply H2. left. reflexivity.
Defined.

(** ** customSendMessage with its configuration present *)

Lemma customSendMessage_configured_trace
    (env : vite_env) (h : host) (request : option message_request)
    (requestOptions : option request_options) (st : state) (userText : jsstring) :
  userText_of request = Some userText ->
  userText <> [] ->
  langflow_config_missing env = false ->
  let req := langflow_request env (chat_payload userText (sessionRef st))
               requestOptions in
  let rid := request_id_of request in
  let k := S (tick st) in
  trace (snd (customSendMessage env h request requestOptions st))
  = trace st ++ EFetch req ::
      match langflow_reply h req (tick st) with
      | Normal txt =>
          EAddMessage (text_response_at h txt rid k) ::
          match addMessage_outcome h (response_cost h + k)
                  (text_response_at h txt rid k) with
          | Normal _ => []
          | Throw _ => catch_events h rid (S (response_cost h + k))
          end
      | Throw _ => catch_events h rid k
      end.
Proof.
  intros Hu Hne Hc req rid k.
  unfold customSendMessage. rewrite Hu, Hc.
  destruct userText as [| c r]; [congruence |].
  unfold langflow_reply, catch_events. exec. fold req rid.
  cbn [tick record_event next_tick].
  destruct (fetch_outcome h (tick st) req) as [response | e]; exec.
  - destruct (resp_ok response); exec.
    + destruct (resp_json response) as [data | e]; exec.
      * destruct (extractLangflowMessage data) as [[t |] | e]; exec;
          cbn [tick record_event next_tick]; rewrite ?tick_advance;
          cbn [tick record_event next_tick]; fold k;
          chat_answers h; traces; ticks; reflexivity.
      * chat_answers h; traces; ticks; reflexivity.
    + destruct (resp_text response) as [errorText | e]; exec;
        chat_answers h; traces; ticks; reflexivity.
  - chat_answers h; traces; ticks; reflexivity.
Qed.

(** Case analysis on what the chat instance answers, in the order of the
    calls. *)
Ltac chat_outcome h :=
  repeat
    (ticks;
     match goal with
     | |- fst (match addMessage_outcome h ?k ?m with _ => _ end) = _ =>
         destruct (addMessage_outcome h k m) as [[] | ?]; exec
     end).

Lemma customSendMessage_configured_outcome
    (env : vite_env) (h : host) (request : option message_request)
    (requestOptions : option request_options) (st : state) (userText : jsstring) :
  userText_of request = Some userText ->
  userText <> [] ->
  langflow_config_missing env = false ->
  let req := langflow_request env (chat_payload userText (sessionRef st))
               requestOptions in
  fst (customSendMessage env h request requestOptions st)
  = settlement h (request_id_of request) (S (tick st))
      (langflow_reply h req (tick st)).
Proof.
  intros Hu Hne Hc req.
  unfold customSendMessage. rewrite Hu, Hc.
  destruct userText as [| c r]; [congruence |].
  unfold langflow_reply, settlement. exec. fold req.
  cbn [tick record_event next_tick].
  destruct (fetch_outcome h (tick st) req) as [response | e]; exec.
  - destruct (resp_ok response); exec.
    + destruct (resp_json response) as [data | e]; exec.
      * destruct (extractLangflowMessage data) as [[t |] | e]; exec;
          chat_outcome h; reflexivity.
      * chat_outcome h; reflexivity.
    + destruct (resp_text response) as [errorText | e]; exec;
        chat_outcome h; reflexivity.
  - chat_outcome h; reflexivity.
Qed.

(** ** The order of the reply paths *)

Lemma get_some_truthy (f : field) (data v : value) :
  get f (Some data) = Some v -> value_truthy data = true.
Proof. destruct data; simpl; intros H; try discriminate; reflexivity. Qed.




(** ** Reading the reply in document order *)
















(** ** Failure classes of customSendMessage *)

(** C3, as stated, fails: with the configuration present, a successful reply
    whose JSON body is [{}] holds no assistant text; [customSendMessage]
    adds the fixed text and writes nothing to the console. *)
Lemma reply_without_text_is_not_logged :
  let h := Sample.browser (Sample.reply true 200 (VObj [])) Sample.text_plain_ABC in
  let request := Sample.request_with "hello" in
  let req := langflow_request Sample.configured
               (chat_payload (lit "hello") (sessionRef (mount h))) None in
  let out := customSendMessage Sample.configured h request None (mount h) in
  extractLangflowMessage (VObj []) = Normal None
  /\ fst out = Normal tt
  /\ trace (snd out)
     = [ EFetch req;
         EAddMessage (text_response_at h langflow_no_reply_fallback
                        (request_id_of request) 2) ]
  /\ collect (logged log_error) (trace (snd out)) = [].
Proof. repeat split. Qed.

(** C3, amended.  A request that carries text leads to at most one HTTP
    request, whatever fails.  With the configuration missing there is none,
    the first message offered is the configuration fallback and an error is
    logged; once the chat instance has taken the message the call returns.
    Every error of the [try] block, be it a request that fails, a reply with
    a non-success status, a body that is no JSON or a body on which
    [extractLangflowMessage] throws, leaves the error fallback as the one
    message and one log entry of the [catch] block; once the chat instance
    has taken that message the promise rejects with that same error, and
    when it does not, with the error of [addMessage].  A successful reply
    with a JSON body for which
    [extractLangflowMessage] returns null leads to the message with the
    no-reply fallback first; when the chat instance accepts it, it is the
    only message, nothing is logged and the call returns. *)
Theorem customSendMessage_failure_classes
    (env : vite_env) (h : host) (request : option message_request)
    (requestOptions : option request_options) (st : state) (t : jsstring) :
  input_text_of request = Some t ->
  trim t <> [] ->
  let req := langflow_request env (chat_payload (trim t) (sessionRef st))
               requestOptions in
  let rid := request_id_of request in
  let k := S (tick st) in
  let out := customSendMessage env h request requestOptions st in
  exists delta : list event,
    trace (snd out) = trace st ++ delta
    /\ List.length (collect fetched delta) <= 1
    /\ (langflow_config_missing env = true ->
        collect fetched delta = []
        /\ (exists more,
              map message_texts (collect added delta)
              = [langflow_missing_fallback] :: more)
        /\ collect (logged log_error) delta <> []
        /\ (addMessage_outcome h (response_cost h + tick st)
              (text_response_at h langflow_missing_fallback rid (tick st))
            = Normal tt ->
            map message_texts (collect added delta) = [[langflow_missing_fallback]]
            /\ collect (logged log_error) delta
               = [lit "LangFlow configuration missing."]
            /\ fst out = Normal tt))
    /\ (langflow_config_missing env = false ->
        (forall e,
           fetch_outcome h (tick st) req = Throw e ->
           caught h rid k e delta (fst out))
        /\ (forall response,
              fetch_outcome h (tick st) req = Normal response ->
              (resp_ok response = false ->
               (forall errorText,
                  resp_text response = Normal errorText ->
                  caught h rid k
                    (Error (lit "LangFlow request failed: "
                              ++ of_N (resp_status response) ++ lit " "
                              ++ errorText))
                    delta (fst out))
               /\ (forall e,
                     resp_text response = Throw e ->
                     caught h rid k e delta (fst out)))
              /\ (resp_ok response = true ->
                  (forall e,
                     resp_json response = Throw e ->
                     caught h rid k e delta (fst out))
                  /\ (forall data,
                        resp_json response = Normal data ->
                        (forall e,
                           extractLangflowMessage data = Throw e ->
                           caught h rid k e delta (fst out))
                        /\ (extractLangflowMessage data = Normal None ->
                            exists more,
                              map message_texts (collect added delta)
                              = [langflow_no_reply_fallback] :: more
                              /\ (addMessage_outcome h (response_cost h + k)
                                    (text_response_at h langflow_no_reply_fallback
                                       rid k) = Normal tt ->
                                  more = []
                                  /\ collect (logged log_error) delta = []
                                  /\ fst out = Normal tt)))))).
Proof.
  intros Ht Hne req rid k out.
  assert (Hu : userText_of request = Some (trim t)).
  { unfold userText_of. rewrite Ht. reflexivity. }
  assert (Hi : no_input_text request = false).
  { apply no_input_text_false_iff. exists t. split; assumption. }
  destruct (langflow_config_missing env) eqn:Hc.
  - destruct (customSendMessage_unconfigured_trace env h request requestOptions
                st Hi Hc) as [Htr Hfst].
    cbv zeta in Htr, Hfst. fold rid out in Htr, Hfst.
    eexists. split; [exact Htr |].
    split; [| split; [intros _ | discriminate]].
    + destruct (addMessage_outcome h (response_cost h + tick st) _) as [[] | e];
        cbn; lia.
    + split; [| split; [| split]].
      * destruct (addMessage_outcome h (response_cost h + tick st) _) as [[] | e];
          reflexivity.
      * destruct (addMessage_outcome h (response_cost h + tick st) _) as [[] | e];
          eexists; reflexivity.
      * destruct (addMessage_outcome h (response_cost h + tick st) _) as [[] | e];
          discriminate.
      * intros Hacc. rewrite Hacc. repeat split. exact (Hfst Hacc).
  - pose proof (customSendMessage_configured_trace env h request requestOptions
                  st (trim t) Hu Hne Hc) as Htr.
    pose proof (customSendMessage_configured_outcome env h request requestOptions
                  st (trim t) Hu Hne Hc) as Hout.
    cbv zeta in Htr, Hout. fold req rid k out in Htr, Hout.
    eexists. split; [exact Htr |]. split; [| split; [discriminate | intros _]].
    { destruct (langflow_reply h req (tick st)) as [txt | e];
        [ destruct (addMessage_outcome h _ _) | ]; cbn; lia. }
    rewrite Hout.
    assert (Hcaught : forall e,
              langflow_reply h req (tick st) = Throw e ->
              caught h rid k e
                (EFetch req ::
                 match langflow_reply h req (tick st) with
                 | Normal txt =>
                     EAddMessage (text_response_at h txt rid k) ::
                     match addMessage_outcome h (response_cost h + k)
                             (text_response_at h txt rid k) with
                     | Normal _ => []
                     | Throw _ => catch_events h rid (S (response_cost h + k))
                     end
                 | Throw _ => catch_events h rid k
                 end)
                (settlement h rid k (langflow_reply h req (tick st)))).
    { intros e He. rewrite He. unfold caught, settlement. cbv zeta.
      split; [reflexivity |]. split; [reflexivity |]. split; [reflexivity |].
      split.
      - intros Hacc. rewrite Hacc. reflexivity.
      - intros e' Hrej. rewrite Hrej. reflexivity. }
    split.
    + intros e Hf. apply Hcaught. unfold langflow_reply. rewrite Hf. reflexivity.
    + intros response Hf. split.
      * intros Hok. split.
        -- intros errorText Htxt. apply Hcaught. unfold langflow_reply.
           rewrite Hf, Hok, Htxt. reflexivity.
        -- intros e Htxt. apply Hcaught. unfold langflow_reply.
           rewrite Hf, Hok, Htxt. reflexivity.
      * intros Hok. split.
        -- intros e Hj. apply Hcaught. unfold langflow_reply.
           rewrite Hf, Hok, Hj. reflexivity.
        -- intros data Hj. split.
           ++ intros e Hx. apply Hcaught. unfold langflow_reply.
              rewrite Hf, Hok, Hj, Hx. reflexivity.
           ++ intros Hx. unfold langflow_reply. rewrite Hf, Hok, Hj, Hx.
              cbn [negb collect fetched added logged map message_texts
                   text_response_at msg_generic item_text settlement].
              eexists. split; [reflexivity |].
              intros Hacc. rewrite Hacc. repeat split.
Qed.

Lemma customSendMessage_failure_classes_witness :
  let env := Sample.configured in
  let h := Sample.browser (Sample.reply false 503 VNull) Sample.text_plain_ABC in
  let request := Sample.request_with "hello" in
  let out := customSendMessage env h request None blank in
  exists delta : list event,
    trace (snd out) = trace blank ++ delta
    /\ List.length (collect fetched delta) <= 1
    /\ map message_texts (collect added delta) = [[langflow_error_fallback]]
    /\ collect (logged log_error) delta = [lit "Error contacting LangFlow"]
    /\ fst out = Throw (Error (lit "LangFlow request failed: 503 ")).
Proof.
  intros env h request out.
  assert (Hne : trim (lit "hello") <> []) by (vm_compute; discriminate).
  destruct (customSendMessage_failure_classes env h request None blank
              (lit "hello") eq_refl Hne)
    as [delta [Htr [Hlen [_ Hconf]]]].
  exists delta. split; [exact Htr | split; [exact Hlen |]].
  destruct (Hconf eq_refl) as [_ Hreply].
  destruct (Hreply (Sample.reply false 503 VNull) eq_refl) as [Hbad _].
  destruct (Hbad eq_refl) as [Hstatus _].
  destruct (Hstatus (lit "") eq_refl) as [Hadd [Htext [Hlog [Hfst _]]]].
  split; [| split].
  - rewrite Hadd. cbn [map]. rewrite Htext. reflexivity.
  - exact Hlog.
  - unfold out. rewrite (Hfst eq_refl). vm_compute. reflexivity.
Defined.

(** ** Frame relations *)

Lemma same_session_refl (st : state) : same_session st st.
Proof. reflexivity. Qed.

Lemma same_session_trans (a b c : state) :
  same_session a b -> same_session b c -> same_session a c.
Proof. unfold same_session. congruence. Qed.

Lemma same_files_refl (st : state) : same_files st st.
Proof. reflexivity. Qed.

Lemma same_files_trans (a b c : state) :
  same_files a b -> same_files b c -> same_files a c.
Proof. unfold same_files. congruence. Qed.

Lemma later_refl (st : state) : later st st.
Proof. unfold later. lia. Qed.

Lemma later_trans (a b c : state) : later a b -> later b c -> later a c.
Proof. unfold later. lia. Qed.

Lemma extends_trace_refl (P : event -> Prop) (st : state) : extends_trace P st st.
Proof. exists []. split; [symmetry; apply app_nil_r | constructor]. Qed.

Lemma extends_trace_trans (P : event -> Prop) (a b c : state) :
  extends_trace P a b -> extends_trace P b c -> extends_trace P a c.
Proof.
  intros [d1 [H1 F1]] [d2 [H2 F2]]. exists (d1 ++ d2). split.
  - rewrite H2, H1. symmetry. apply app_assoc.
  - apply Forall_app. split; assumption.
Qed.

Lemma extends_trace_event (P : event -> Prop) (e : event) (st : state) :
  P e -> extends_trace P st (record_event e st).
Proof. intros He. exists [e]. split; [reflexivity | repeat constructor; exact He]. Qed.

Lemma extends_trace_silent (P : event -> Prop) (st st' : state) :
  trace st' = trace st -> extends_trace P st st'.
Proof. intros H. exists []. split; [rewrite H; symmetry; apply app_nil_r | constructor]. Qed.

(** Unfolds the handlers down to the monad. *)
Ltac open_handlers :=
  unfold handle, fire_timer, timer_callback, setUploadedFiles_map, settle_entry,
    insert_request, astra_document_of, find_request,
    handleFileUploaded, handleFilesSelected, new_entry, schedule,
    handleRemoveFile, testAstraConnection, customSendMessage,
    handleBeforeRender, bus_reset, run_handler, rerender, regenerateSessionId,
    ingestFileToAstra, readFileAsBase64, buildTextResponse, makeId,
    createSessionId, addMessage, fetch, console, emit.

(** Every handler but the RESET handler leaves [sessionRef] alone. *)
Lemma handle_same_session (env : vite_env) (h : host) (a : action) :
  a <> BusReset -> respects same_session (handle env h a).
Proof.
  intros Ha. destruct a; try congruence; open_handlers;
    frame_rules same_session_refl same_session_trans;
    intros; reflexivity.
Qed.

(** Handlers other than the three upload handlers leave [uploadedFiles] alone. *)
Lemma ingestFileToAstra_same_files (env : vite_env) (h : host) (f : file) :
  respects same_files (ingestFileToAstra env h f).
Proof.
  open_handlers; frame_rules same_files_refl same_files_trans;
    intros; reflexivity.
Qed.

Lemma handle_same_files (env : vite_env) (h : host) (a : action) :
  match a with
  | FilesSelected _ | TimerFired _ | RemoveFile _ => True
  | _ => respects same_files (handle env h a)
  end.
Proof.
  destruct a; try exact I; open_handlers;
    frame_rules same_files_refl same_files_trans;
    intros; reflexivity.
Qed.

(** Time does not run backwards. *)
Lemma handle_later (env : vite_env) (h : host) (a : action) :
  respects later (handle env h a).
Proof.
  destruct a; open_handlers; frame_rules later_refl later_trans;
    intros; unfold later; simpl; lia.
Qed.

(** ** Running the upload handlers *)

Lemma timers_advance (n : nat) (st : state) : timers (advance n st) = timers st.
Proof. induction n as [| n IH]; simpl; [reflexivity | exact IH]. Qed.

Lemma advance_advance (n m : nat) (st : state) :
  advance n (advance m st) = advance (m + n) st.
Proof.
  unfold advance. rewrite Nat.add_comm. symmetry. apply Nat.iter_add.
Qed.

Lemma new_entry_run (h : host) (f : file) (st : state) :
  new_entry h f st
  = (Normal (uploading_entry (makeId_at h (tick st)) f
               (Date_now h (id_cost h + tick st))),
     advance (S (id_cost h)) st).
Proof.
  unfold new_entry. rewrite bind_unfold, makeId_run. cbn beta iota.
  unfold bind, query, ret. rewrite tick_advance. reflexivity.
Qed.

Lemma mapM_new_entry_run (h : host) (files : list file) (st : state) :
  mapM (new_entry h) files st
  = (Normal (entries_at h files (tick st)),
     advance (List.length files * S (id_cost h)) st).
Proof.
  revert st. induction files as [| f rest IH]; intros st; [reflexivity |].
  cbn [mapM entries_at List.length]. rewrite bind_unfold, new_entry_run.
  cbn beta iota. rewrite bind_unfold, IH. cbn beta iota. unfold ret.
  rewrite tick_advance, advance_advance. reflexivity.
Qed.

Lemma schedule_run (e : file_entry) (st : state) :
  schedule e st
  = (Normal tt, set_timers (fun pending => pending ++ [e]) (next_tick st)).
Proof. reflexivity. Qed.

Lemma forEach_schedule_run (l : list file_entry) (st : state) :
  exists st',
    forEach schedule l st = (Normal tt, st')
    /\ uploadedFiles st' = uploadedFiles st
    /\ timers st' = timers st ++ l
    /\ trace st' = trace st
    /\ sessionRef st' = sessionRef st
    /\ tick st' = List.length l + tick st.
Proof.
  revert st. induction l as [| e rest IH]; intros st.
  - exists st. cbn. rewrite app_nil_r. repeat split.
  - cbn [forEach]. rewrite bind_unfold, schedule_run. cbn beta iota.
    destruct (IH (set_timers (fun pending => pending ++ [e]) (next_tick st)))
      as [st' [Hrun [Hf [Ht [Htr [Hs Hk]]]]]].
    exists st'. rewrite Hrun, Hf, Ht, Htr, Hs, Hk. cbn.
    rewrite <- app_assoc. repeat split. lia.
Qed.

(** What [handleFilesSelected] does to a non-empty selection. *)
Lemma handleFilesSelected_run (h : host) (f : file) (rest : list file)
    (st : state) :
  let news := entries_at h (f :: rest) (tick st) in
  let st' := snd (handleFilesSelected h (Some (f :: rest)) st) in
  uploadedFiles st' = uploadedFiles st ++ news
  /\ timers st' = timers st ++ news
  /\ trace st' = trace st ++ [EInputCleared]
  /\ tick st' = List.length news + (List.length (f :: rest) * S (id_cost h) + tick st).
Proof.
  intros news st'. subst st'. unfold handleFilesSelected.
  cbn [List.length Nat.eqb]. rewrite bind_unfold, mapM_new_entry_run.
  cbn beta iota. fold news. exec.
  destruct (forEach_schedule_run news
              (set_uploadedFiles (fun prev => prev ++ news)
                 (advance (List.length (f :: rest) * S (id_cost h)) st)))
    as [st' [Hrun [Hf [Ht [Htr [Hs Hk]]]]]].
  rewrite Hrun. cbn [snd record_event uploadedFiles timers trace tick].
  rewrite Hf, Ht, Htr, Hk. cbn [set_uploadedFiles uploadedFiles timers trace tick].
  rewrite uploadedFiles_advance, timers_advance, trace_advance, tick_advance.
  repeat split.
Qed.

Lemma mapM_settle_entry_run (h : host) (entry : file_entry)
    (r : ingestion_result) (prev : list file_entry) (st : state) :
  exists next st',
    mapM (settle_entry h entry r) prev st = (Normal next, st')
    /\ Forall2 (settled entry r) prev next
    /\ uploadedFiles st' = uploadedFiles st
    /\ trace st' = trace st
    /\ tick st <= tick st'.
Proof.
  revert st. induction prev as [| item rest IH]; intros st.
  - exists [], st. repeat split; constructor.
  - cbn [mapM]. rewrite bind_unfold.
    assert (Hitem : exists item' n,
               settle_entry h entry r item st = (Normal item', advance n st)
               /\ settled entry r item item').
    { unfold settle_entry, settled.
      destruct (negb (JsString.eqb (entry_id item) (entry_id entry))).
      - exists item, 0. split; reflexivity.
      - destruct (ing_success r || ing_skipped r).
        + eexists _, 1. split; [reflexivity | eexists; reflexivity].
        + eexists _, 0. split; reflexivity. }
    destruct Hitem as [item' [n [Hrun Hsettled]]]. rewrite Hrun. cbn beta iota.
    destruct (IH (advance n st)) as [next [st' [Hrest [Hall [Hf [Htr Hk]]]]]].
    rewrite bind_unfold, Hrest. cbn beta iota.
    exists (item' :: next), st'. unfold ret. repeat split.
    + constructor; assumption.
    + rewrite Hf. apply uploadedFiles_advance.
    + rewrite Htr. apply trace_advance.
    + rewrite tick_advance in Hk. lia.
Qed.

Lemma ingestFileToAstra_returns (env : vite_env) (h : host) (f : file)
    (st : state) :
  exists r st1,
    ingestFileToAstra env h f st = (Normal r, st1)
    /\ uploadedFiles st1 = uploadedFiles st.
Proof.
  pose proof (ingestFileToAstra_same_files env h f st) as Hsame.
  unfold same_files in Hsame. revert Hsame. unfold ingestFileToAstra.
  destruct (astra_config_missing env).
  - intros Hsame. eexists _, _. split; [reflexivity | exact Hsame].
  - rewrite try_catch_unfold.
    match goal with
    | |- context [match ?body st with _ => _ end] =>
        destruct (body st) as [[r | e] st1]
    end; exec; intros Hsame; eexists _, _; (split; [reflexivity | exact Hsame]).
Qed.

(** What the timer callback of [entry] does to the list. *)
Lemma timer_callback_run (env : vite_env) (h : host) (entry : file_entry)
    (st : state) :
  exists r st1,
    ingestFileToAstra env h (entry_file entry) st = (Normal r, st1)
    /\ Forall2 (settled entry r) (uploadedFiles st)
         (uploadedFiles (snd (timer_callback env h entry st))).
Proof.
  destruct (ingestFileToAstra_returns env h (entry_file entry) st)
    as [r [st1 [Hing Hf1]]].
  exists r, st1. split; [exact Hing |].
  unfold timer_callback. rewrite bind_unfold, Hing. cbn beta iota.
  rewrite bind_unfold.
  assert (Hlog : exists st2,
             (if ing_success r || ing_skipped r
              then handleFileUploaded (Some (entry_file entry)) r;; ret tt
              else ret tt) st1 = (Normal tt, st2)
             /\ uploadedFiles st2 = uploadedFiles st1).
  { destruct (ing_success r || ing_skipped r); eexists; split; reflexivity. }
  destruct Hlog as [st2 [Hlog Hf2]]. rewrite Hlog. cbn beta iota.
  unfold setUploadedFiles_map. exec.
  destruct (mapM_settle_entry_run h entry r (uploadedFiles st2) st2)
    as [next [st3 [Hmap [Hall _]]]].
  rewrite Hmap. cbn. rewrite <- Hf1, <- Hf2. exact Hall.
Qed.

(** ** How the handlers change the list of uploaded files *)

Lemma mount_run (h : host) :
  mount h = set_sessionRef (createSessionId_at h 0) (advance (id_cost h) blank).
Proof.
  unfold mount, run.
  rewrite bind_unfold, createSessionId_run. reflexivity.
Qed.

Lemma mount_uploadedFiles (h : host) : uploadedFiles (mount h) = [].
Proof.
  rewrite mount_run. cbn [set_sessionRef uploadedFiles].
  apply uploadedFiles_advance.
Qed.

Lemma step_files (env : vite_env) (h : host) (a : action) (st : state) :
  files_step h st (step env h a st).
Proof.
  pose proof (handle_same_files env h a) as Hsame.
  destruct a as [[[| f rest] |] | k | fileId | | request opts | | |];
    try (apply files_kept; exact (Hsame st)).
  - apply files_kept. reflexivity.
  - destruct (handleFilesSelected_run h f rest st) as [Hf [_ [_ Hk]]].
    apply files_added with (files := f :: rest); [exact Hf |].
    unfold step, run, handle. rewrite Hk. lia.
  - apply files_kept. reflexivity.
  - unfold step, run, handle, fire_timer. exec.
    destruct (nth_error (timers st) k) as [entry |]; [| apply files_kept; reflexivity].
    exec.
    destruct (timer_callback_run env h entry (set_timers (remove_nth k) st))
      as [r [st1 [_ Hall]]].
    apply files_settled with (entry := entry) (r := r). exact Hall.
  - apply files_removed with (fileId := fileId). reflexivity.
Qed.

Lemma settled_status (entry : file_entry) (r : ingestion_result)
    (item item' : file_entry) :
  settled entry r item item' ->
  known_status (entry_status item) -> known_status (entry_status item').
Proof.
  unfold settled, known_status.
  destruct (negb (JsString.eqb (entry_id item) (entry_id entry))).
  - intros ->. tauto.
  - destruct (ing_success r || ing_skipped r).
    + intros [now ->] _. right. left. reflexivity.
    + intros -> _. right. right. reflexivity.
Qed.

Lemma settled_id (entry : file_entry) (r : ingestion_result)
    (item item' : file_entry) :
  settled entry r item item' -> entry_id item' = entry_id item.
Proof.
  unfold settled.
  destruct (negb (JsString.eqb (entry_id item) (entry_id entry))).
  - intros ->. reflexivity.
  - destruct (ing_success r || ing_skipped r).
    + intros [now ->]. reflexivity.
    + intros ->. reflexivity.
Qed.

Lemma entries_at_uploading (h : host) (files : list file) (k : nat) :
  Forall (fun e => entry_status e = status_uploading) (entries_at h files k).
Proof.
  revert k. induction files as [| f rest IH]; intros k; cbn [entries_at];
    constructor; [reflexivity | apply IH].
Qed.

Lemma entries_at_files (h : host) (files : list file) (k : nat) :
  map entry_file (entries_at h files k) = files.
Proof.
  revert k. induction files as [| f rest IH]; intros k; cbn [entries_at map];
    [reflexivity | f_equal; apply IH].
Qed.

(** C6. In every state the component can reach, the status of every entry
    of the uploaded-files list is ['uploading'], ['complete'] or ['error']:
    the list is empty at first, and adding files, settling an ingestion and
    removing a file keep the property. *)
Theorem status_is_enumerated (env : vite_env) (h : host) (st : state) :
  reachable env h st ->
  Forall (fun e => known_status (entry_status e)) (uploadedFiles st).
Proof.
  induction 1 as [| a st Hreach IH].
  - rewrite mount_uploadedFiles. constructor.
  - destruct (step_files env h a st) as [Hk | files Ha _ | entry r Hs | fileId Hr].
    + rewrite Hk. exact IH.
    + rewrite Ha. apply Forall_app. split; [exact IH |].
      eapply Forall_impl; [| apply entries_at_uploading].
      intros e He. left. exact He.
    + revert IH. induction Hs as [| item item' prev next Hitem Hrest IHs];
        intros IH; [constructor |].
      inversion IH; subst. constructor.
      * eapply settled_status; eassumption.
      * apply IHs. assumption.
    + rewrite Hr. rewrite Forall_forall in IH |- *.
      intros e He. apply filter_In in He. apply IH. tauto.
Qed.

Lemma status_is_enumerated_witness :
  let h := Sample.browser (Sample.reply true 200 VNull) Sample.text_plain_ABC in
  let st := steps Sample.configured h
              [FilesSelected (Some [Sample.notes_txt; Sample.notes_txt]);
               TimerFired 1]
              (mount h) in
  Forall (fun e => known_status (entry_status e)) (uploadedFiles st).
Proof.
  intros h st. apply (status_is_enumerated Sample.configured h).
  subst st. cbn [steps fold_left].
  apply reachable_step, reachable_step, reachable_mount.
Defined.

(** ** Identifiers of the entries *)

Lemma entries_at_ids (h : host) (files : list file) (k : nat) :
  Forall (fun e => exists i,
            k <= i < k + List.length files * S (id_cost h)
            /\ entry_id e = makeId_at h i)
         (entries_at h files k).
Proof.
  revert k. induction files as [| f rest IH]; intros k; cbn [entries_at];
    constructor.
  - exists k. cbn [entry_id uploading_entry List.length]. split; [lia | reflexivity].
  - eapply Forall_impl; [| apply IH]. cbn beta.
    intros e [i [Hi He]]. exists i. split; [| exact He].
    cbn [List.length]. lia.
Qed.

Lemma entries_at_NoDup (h : host) (files : list file) (k : nat) :
  (forall i j, makeId_at h i = makeId_at h j -> i = j) ->
  NoDup (map entry_id (entries_at h files k)).
Proof.
  intros Hinj. revert k. induction files as [| f rest IH]; intros k;
    cbn [entries_at map]; constructor; [| apply IH].
  intros Hin. apply in_map_iff in Hin. destruct Hin as [e [He Hin]].
  pose proof (entries_at_ids h rest (S (id_cost h + k))) as Hids.
  rewrite Forall_forall in Hids. destruct (Hids e Hin) as [i [Hi Hid]].
  cbn [entry_id uploading_entry] in He. rewrite Hid in He.
  apply Hinj in He. lia.
Qed.

Lemma settled_ids (entry : file_entry) (r : ingestion_result)
    (prev next : list file_entry) :
  Forall2 (settled entry r) prev next ->
  map entry_id next = map entry_id prev.
Proof.
  induction 1 as [| item item' prev next Hitem Hrest IH]; cbn [map];
    [reflexivity |].
  rewrite IH, (settled_id _ _ _ _ Hitem). reflexivity.
Qed.

(** Removing entries keeps the remaining identifiers distinct. *)
Lemma removal_keeps_ids_distinct (keep : file_entry -> bool)
    (entries : list file_entry) :
  NoDup (map entry_id entries) ->
  NoDup (map entry_id (filter keep entries)).
Proof.
  intros Hnd. induction entries as [| e rest IH]; cbn [map filter];
    [constructor |].
  cbn [map] in Hnd. apply NoDup_cons_iff in Hnd. destruct Hnd as [Hnotin Hrest].
  destruct (keep e); cbn [map]; [| exact (IH Hrest)].
  apply NoDup_cons_iff. split; [| exact (IH Hrest)].
  intros Hin. apply Hnotin. apply in_map_iff in Hin.
  destruct Hin as [z [Hz Hin]]. apply filter_In in Hin.
  apply in_map_iff. exists z. tauto.
Qed.

Lemma Forall_map_eq {A B : Type} (f : A -> B) (P : B -> Prop) (l l' : list A) :
  map f l' = map f l ->
  Forall (fun x => P (f x)) l -> Forall (fun x => P (f x)) l'.
Proof.
  intros Heq Hall. rewrite <- Forall_map in Hall |- *.
  rewrite Heq. exact Hall.
Qed.

Lemma mount_ids_drawn (h : host) : ids_drawn h (mount h).
Proof.
  unfold ids_drawn. rewrite mount_uploadedFiles. split; constructor.
Qed.

Lemma step_ids_drawn (env : vite_env) (h : host) (a : action) (st : state) :
  (forall i j, makeId_at h i = makeId_at h j -> i = j) ->
  ids_drawn h st -> ids_drawn h (step env h a st).
Proof.
  intros Hinj [Hnd Hall].
  pose proof (handle_later env h a st) as Hlater. unfold later in Hlater.
  fold (run (handle env h a) st) in Hlater. fold (step env h a st) in Hlater.
  assert (Hold : Forall (fun e => exists i, i < tick (step env h a st)
                                  /\ entry_id e = makeId_at h i)
                   (uploadedFiles st)).
  { eapply Forall_impl; [| exact Hall]. cbn beta.
    intros e [i [Hi He]]. exists i. split; [lia | exact He]. }
  unfold ids_drawn.
  destruct (step_files env h a st) as [Hk | files Ha Htick | entry r Hs | fileId Hr].
  - rewrite Hk. split; assumption.
  - rewrite Ha. pose proof (entries_at_ids h files (tick st)) as Hnew. split.
    + rewrite map_app. apply NoDup_app; [exact Hnd | | ].
      * apply entries_at_NoDup. exact Hinj.
      * intros x Hx1 Hx2.
        apply in_map_iff in Hx1. destruct Hx1 as [e1 [He1 Hin1]].
        apply in_map_iff in Hx2. destruct Hx2 as [e2 [He2 Hin2]].
        rewrite Forall_forall in Hall, Hnew.
        destruct (Hall e1 Hin1) as [i [Hi Hid1]].
        destruct (Hnew e2 Hin2) as [j [Hj Hid2]].
        assert (i = j) by (apply Hinj; congruence). lia.
    + apply Forall_app. split; [exact Hold |].
      eapply Forall_impl; [| exact Hnew]. cbn beta.
      intros e [i [Hi He]]. exists i. split; [lia | exact He].
  - pose proof (settled_ids _ _ _ _ Hs) as Hids. split.
    + rewrite Hids. exact Hnd.
    + apply (Forall_map_eq entry_id
               (fun id => exists i, i < tick (step env h a st) /\ id = makeId_at h i)
               (uploadedFiles st)); assumption.
  - rewrite Hr. split.
    + apply removal_keeps_ids_distinct. exact Hnd.
    + rewrite Forall_forall in Hold |- *.
      intros e He. apply filter_In in He. apply Hold. tauto.
Qed.



Lemma map_injective {A B : Type} (f : A -> B) (l l' : list A) :
  (forall x y, f x = f y -> x = y) -> map f l = map f l' -> l = l'.
Proof.
  intros Hf. revert l'. induction l as [| x rest IH]; intros [| y rest'];
    cbn [map]; intros H; try discriminate; [reflexivity |].
  inversion H. f_equal; [apply Hf; assumption | apply IH; assumption].
Qed.

Lemma lit_injective (s s' : string) : lit s = lit s' -> s = s'.
Proof.
  unfold lit. intros H. apply map_injective in H.
  - rewrite <- (string_of_list_ascii_of_string s),
            <- (string_of_list_ascii_of_string s'), H. reflexivity.
  - intros x y Hxy. rewrite <- (ascii_N_embedding x), <- (ascii_N_embedding y), Hxy.
    reflexivity.
Qed.

Lemma of_N_injective (n n' : N) : of_N n = of_N n' -> n = n'.
Proof.
  unfold of_N. intros H. apply lit_injective in H.
  apply DecimalN.Unsigned.to_uint_inj.
  assert (Hs : Some (N.to_uint n) = Some (N.to_uint n')).
  { rewrite <- !DecimalString.NilEmpty.usu, H. reflexivity. }
  inversion Hs. reflexivity.
Qed.


(** ** Settling an upload *)

Lemma eqb_eq (a b : jsstring) : JsString.eqb a b = true <-> a = b.
Proof.
  revert b. induction a as [| x a IH]; intros [| y b]; cbn [JsString.eqb];
    try (split; [discriminate | congruence]); [tauto |].
  rewrite andb_true_iff, N.eqb_eq, IH. split.
  - intros [-> ->]. reflexivity.
  - intros H. inversion H. split; reflexivity.
Qed.

Lemma fire_timer_step (env : vite_env) (h : host) (k : nat)
    (entry : file_entry) (st : state) :
  nth_error (timers st) k = Some entry ->
  step env h (TimerFired k) st
  = snd (timer_callback env h entry (set_timers (remove_nth k) st)).
Proof.
  intros Hk. unfold step, run, handle, fire_timer. exec. rewrite Hk. exec.
  reflexivity.
Qed.

Lemma settled_cases (entry : file_entry) (r : ingestion_result)
    (item item' : file_entry) :
  settled entry r item item' ->
  (entry_id item = entry_id entry ->
   if ing_success r || ing_skipped r
   then exists now, item' = completed item now (data_or_null r)
   else item' = failed item (error_text r))
  /\ (entry_id item <> entry_id entry -> item' = item).
Proof.
  unfold settled.
  destruct (JsString.eqb (entry_id item) (entry_id entry)) eqn:Heq; cbn [negb].
  - apply eqb_eq in Heq. intros H. split; [intros _; exact H | contradiction].
  - intros H. split; [| intros _; exact H].
    intros Hid. apply eqb_eq in Hid. congruence.
Qed.

(** C2. Every entry [handleFilesSelected] creates starts with the status
    ['uploading'] and a pending timer.  When the timer of an entry fires and
    its ingestion returns success, the state update that follows gives every
    entry of the list with that identifier the status ['complete'] and a
    [completedAt] time, and leaves the other entries as they are. *)
Theorem successful_upload_completes (env : vite_env) (h : host) :
  (forall (files : list file) (st : state),
     exists news,
       uploadedFiles (step env h (FilesSelected (Some files)) st)
       = uploadedFiles st ++ news
       /\ timers (step env h (FilesSelected (Some files)) st)
          = timers st ++ news
       /\ map entry_file news = files
       /\ Forall (fun e => entry_status e = status_uploading) news)
  /\
  (forall (k : nat) (entry : file_entry) (st : state)
          (r : ingestion_result) (st1 : state),
     nth_error (timers st) k = Some entry ->
     ingestFileToAstra env h (entry_file entry) (set_timers (remove_nth k) st)
     = (Normal r, st1) ->
     ing_success r = true ->
     Forall2 (completes entry) (uploadedFiles st)
       (uploadedFiles (step env h (TimerFired k) st))).
Proof.
  split.
  - intros [| f rest] st.
    + exists []. rewrite !app_nil_r. repeat split. constructor.
    + destruct (handleFilesSelected_run h f rest st) as [Hf [Ht _]].
      exists (entries_at h (f :: rest) (tick st)).
      split; [exact Hf | split; [exact Ht | split]].
      * apply entries_at_files.
      * apply entries_at_uploading.
  - intros k entry st r st1 Hk Hing Hok.
    rewrite (fire_timer_step env h k entry st Hk).
    destruct (timer_callback_run env h entry (set_timers (remove_nth k) st))
      as [r' [st1' [Hing' Hall]]].
    rewrite Hing in Hing'. inversion Hing'; subst r' st1'.
    cbn [set_timers uploadedFiles] in Hall.
    eapply Forall2_impl; [| exact Hall]. cbn beta.
    intros item item' Hs. apply settled_cases in Hs. destruct Hs as [Hsame Hother].
    rewrite Hok in Hsame. cbn [orb] in Hsame.
    split; [| exact Hother].
    intros Hid. destruct (Hsame Hid) as [now ->].
    repeat split. exists now. reflexivity.
Qed.

Lemma successful_upload_completes_witness :
  let env := Sample.configured in
  let h := Sample.browser (Sample.reply true 200 (VObj [])) Sample.text_plain_ABC in
  let st := step env h (FilesSelected (Some [Sample.notes_txt])) (mount h) in
  let entry := uploading_entry (of_N 1) Sample.notes_txt 2 in
  timers st = [entry]
  /\ Forall2 (completes entry) (uploadedFiles st)
       (uploadedFiles (step env h (TimerFired 0) st)).
Proof.
  intros env h st entry. split; [reflexivity |].
  destruct (successful_upload_completes env h) as [_ Hdone].
  apply (Hdone 0 entry st (success_result (VObj []))
           (snd (ingestFileToAstra env h Sample.notes_txt
                   (set_timers (remove_nth 0) st))));
    reflexivity.
Defined.

(** ** ingestFileToAstra and testAstraConnection with their configuration *)

Lemma ingestFileToAstra_configured_trace
    (env : vite_env) (h : host) (f : file) (st : state) :
  astra_config_missing env = false ->
  let out := ingestFileToAstra env h f st in
  match FileReader_outcome h (tick st) f with
  | onload (Some result) =>
      let req := insert_request env
                   (astra_document_of f (Date_now h (S (tick st)))
                      (base64_of result)) in
      exists r,
        fst out = Normal r
        /\ trace (snd out)
           = trace st ++ EFetch req ::
               (if ing_success r then [] else [ingest_error_log])
  | _ =>
      exists e,
        fst out = Normal (failure_result e)
        /\ trace (snd out) = trace st ++ [ingest_error_log]
  end.
Proof.
  intros Hc out. subst out. unfold ingestFileToAstra, readFileAsBase64.
  rewrite Hc. exec.
  destruct (FileReader_outcome h (tick st) f) as [[result |] | [e |]]; exec;
    try (eexists; split; reflexivity).
  cbn [tick next_tick].
  match goal with
  | |- context [fetch_outcome h ?k ?req] =>
      destruct (fetch_outcome h k req) as [response | e]
  end; exec; [| eexists; traces; split; reflexivity].
  destruct (resp_ok response); exec.
  - destruct (resp_json response) as [data | e]; exec;
      eexists; traces; split; reflexivity.
  - destruct (resp_text response) as [errorText | e]; exec;
      eexists; traces; split; reflexivity.
Qed.

Lemma testAstraConnection_configured_trace
    (env : vite_env) (h : host) (st : state) :
  astra_config_missing env = false ->
  exists rest,
    trace (snd (testAstraConnection env h st))
    = trace st ++ EFetch (find_request env) :: rest
    /\ Forall no_request rest.
Proof.
  intros Hc. unfold testAstraConnection. rewrite Hc. exec.
  destruct (fetch_outcome h (tick st) (find_request env)) as [response | e];
    exec; [| eexists; traces; split; [reflexivity | repeat constructor]].
  destruct (resp_ok response); exec.
  - eexists. traces. split; [reflexivity | constructor].
  - destruct (resp_text response) as [txt | e]; exec;
      eexists; traces; (split; [reflexivity | repeat constructor]).
Qed.

Lemma split_comma_plain (s : jsstring) :
  ~ In comma s -> split_comma s = [s].
Proof.
  induction s as [| c r IH]; cbn [split_comma]; intros Hs; [reflexivity |].
  destruct (N.eqb_spec c comma) as [-> | Hne].
  - exfalso. apply Hs. left. reflexivity.
  - rewrite IH; [reflexivity |]. intros Hin. apply Hs. right. exact Hin.
Qed.

Lemma split_comma_first (prefix rest : jsstring) :
  ~ In comma prefix ->
  split_comma (prefix ++ comma :: rest) = prefix :: split_comma rest.
Proof.
  induction prefix as [| c r IH]; cbn [split_comma app]; intros Hp.
  - rewrite N.eqb_refl. reflexivity.
  - destruct (N.eqb_spec c comma) as [-> | Hne].
    + exfalso. apply Hp. left. reflexivity.
    + rewrite IH; [reflexivity |]. intros Hin. apply Hp. right. exact Hin.
Qed.

(** The part of a data URL after its comma. *)
Lemma base64_of_data_url (prefix payload : jsstring) :
  ~ In comma prefix -> ~ In comma payload ->
  base64_of (prefix ++ comma :: payload) = payload.
Proof.
  intros Hp Hq. unfold base64_of.
  rewrite split_comma_first, split_comma_plain by assumption. reflexivity.
Qed.

Lemma collect_no_request (l : list event) :
  Forall no_request l -> collect fetched l = [].
Proof.
  induction 1 as [| e rest He Hrest IH]; cbn [collect]; [reflexivity |].
  unfold no_request in He. rewrite He. exact IH.
Qed.

(** C8, as stated, fails: with the Astra configuration complete and a file
    the [FileReader] cannot read, [ingestFileToAstra] issues no HTTP request
    and returns a failure. *)
Lemma unreadable_file_is_not_posted :
  let h := Sample.browser (Sample.reply true 200 (VObj [])) Sample.not_readable in
  let out := ingestFileToAstra Sample.configured h Sample.notes_txt (mount h) in
  astra_config_missing Sample.configured = false
  /\ out = (Normal (failure_result (Rejected (lit "The file could not be read."))),
            record_event ingest_error_log (next_tick (mount h)))
  /\ collect fetched (trace (snd out)) = [].
Proof. repeat split. Qed.

(** C8, amended.  With the Astra configuration complete, a file whose
    content the [FileReader] delivers as a string leads to exactly one HTTP
    request: a POST to the collection URL whose body is an [insertMany] of
    one document with the file's name, MIME type, size, the time of the
    upload and the base64 part of the data URL; a file that cannot be read
    leads to no request and a failure result.  Whatever the configuration,
    [testAstraConnection] issues nothing but the read-only [findOne] query
    (once when the configuration is complete, not at all when a value is
    missing) and leaves the list of files alone. *)
Theorem ingestion_posts_one_document
    (env : vite_env) (h : host) (f : file) (st : state) :
  (astra_config_missing env = false ->
   (forall result,
      FileReader_outcome h (tick st) f = onload (Some result) ->
      let doc := astra_document_of f (Date_now h (S (tick st))) (base64_of result) in
      let req := insert_request env doc in
      exists delta,
        trace (snd (ingestFileToAstra env h f st)) = trace st ++ delta
        /\ collect fetched delta = [req]
        /\ req_method req = lit "POST"
        /\ req_url req = astra_url env
        /\ req_body req = AstraBody (insertMany [doc])
        /\ doc_filename doc = file_name f
        /\ doc_mimeType doc
           = or_else (Some (file_type f)) (lit "application/octet-stream")
        /\ doc_size doc = file_size f
        /\ doc_uploadedAt doc = Date_now h (S (tick st))
        /\ (forall prefix payload,
              result = prefix ++ comma :: payload ->
              ~ In comma prefix -> ~ In comma payload ->
              doc_contentBase64 doc = payload))
   /\ ((forall result, FileReader_outcome h (tick st) f <> onload (Some result)) ->
       exists delta e,
         trace (snd (ingestFileToAstra env h f st)) = trace st ++ delta
         /\ collect fetched delta = []
         /\ fst (ingestFileToAstra env h f st) = Normal (failure_result e)))
  /\ (exists delta,
        trace (snd (testAstraConnection env h st)) = trace st ++ delta
        /\ Forall read_only delta
        /\ (forall r, In r (collect fetched delta) -> r = find_request env)
        /\ List.length (collect fetched delta) <= 1
        /\ (astra_config_missing env = false ->
            collect fetched delta = [find_request env])
        /\ (astra_config_missing env = true -> collect fetched delta = [])
        /\ uploadedFiles (snd (testAstraConnection env h st)) = uploadedFiles st).
Proof.
  split.
  - intros Hc.
    pose proof (ingestFileToAstra_configured_trace env h f st Hc) as Hing.
    cbv zeta in Hing. split.
    + intros result Hr doc req. rewrite Hr in Hing. fold doc req in Hing.
      destruct Hing as [r [_ Htr]]. eexists. split; [exact Htr |].
      split; [destruct (ing_success r); reflexivity |].
      repeat split. intros prefix payload -> Hp Hq.
      apply base64_of_data_url; assumption.
    + intros Hbad.
      destruct (FileReader_outcome h (tick st) f) as [[result |] | err] eqn:Hr.
      * exfalso. exact (Hbad result eq_refl).
      * destruct Hing as [e [Hfst Htr]]. exists [ingest_error_log], e.
        repeat split; assumption.
      * destruct Hing as [e [Hfst Htr]]. exists [ingest_error_log], e.
        repeat split; assumption.
  - pose proof (handle_same_files env h TestAstraConnection st) as Hsame.
    destruct (astra_config_missing env) eqn:Hc.
    + exists []. split; [| split; [| split; [| split; [| split; [| split]]]]].
      * unfold testAstraConnection. rewrite Hc. cbn. symmetry. apply app_nil_r.
      * constructor.
      * intros r [].
      * cbn. lia.
      * discriminate.
      * reflexivity.
      * exact Hsame.
    + destruct (testAstraConnection_configured_trace env h st Hc) as [rest [Htr Hrest]].
      assert (Hone : collect fetched (EFetch (find_request env) :: rest)
                     = [find_request env]).
      { cbn [collect fetched]. f_equal. apply collect_no_request. exact Hrest. }
      eexists. split; [exact Htr |]. rewrite Hone.
      split; [| split; [| split; [| split; [| split]]]].
      * constructor; [split; reflexivity |].
        eapply Forall_impl; [| exact Hrest].
        intros e He. destruct e; try exact I. discriminate He.
      * intros r [<- | []]. reflexivity.
      * cbn. lia.
      * reflexivity.
      * discriminate.
      * exact Hsame.
Qed.

Lemma ingestion_posts_one_document_witness :
  let env := Sample.configured in
  let h := Sample.browser (Sample.reply true 200 (VObj [])) Sample.text_plain_ABC in
  let doc := astra_document_of Sample.notes_txt (Date_now h (S (tick (mount h))))
               (lit "QUJD") in
  (exists delta,
     trace (snd (ingestFileToAstra env h Sample.notes_txt (mount h)))
     = trace (mount h) ++ delta
     /\ collect fetched delta = [insert_request env doc])
  /\ (exists delta,
        trace (snd (testAstraConnection env h (mount h))) = trace (mount h) ++ delta
        /\ collect fetched delta = [find_request env]).
Proof.
  intros env h doc.
  destruct (ingestion_posts_one_document env h Sample.notes_txt (mount h))
    as [Hing [delta' [Htr' [_ [_ [_ [Hf' _]]]]]]].
  destruct (Hing eq_refl) as [Hgood _].
  split.
  - destruct (Hgood (lit "data:text/plain;base64,QUJD") eq_refl)
      as [delta [Htr [Hf _]]].
    exists delta. split; [exact Htr | exact Hf].
  - exists delta'. split; [exact Htr' | exact (Hf' eq_refl)].
Defined.

(** ** Skipped ingestion *)

Lemma timer_callback_skipped_run (env : vite_env) (h : host)
    (entry : file_entry) (st : state) :
  astra_config_missing env = true ->
  let st' := snd (timer_callback env h entry st) in
  trace st'
  = trace st ++ [EConsole log_warn astra_skip_message;
                 EConsole log_info (lit "file uploaded")]
  /\ Forall2 (settled entry skipped_result) (uploadedFiles st) (uploadedFiles st').
Proof.
  intros Hc st'. subst st'. unfold timer_callback, ingestFileToAstra.
  rewrite Hc. unfold handleFileUploaded, setUploadedFiles_map. exec.
  cbn [ing_success ing_skipped skipped_result orb]. exec.
  match goal with
  | |- context [mapM (settle_entry h entry ?r) ?prev ?s] =>
      destruct (mapM_settle_entry_run h entry r prev s)
        as [next [st3 [Hmap [Hall [_ [Htr _]]]]]]
  end.
  rewrite Hmap. cbn [snd set_uploadedFiles trace uploadedFiles].
  rewrite Htr. traces. split; [reflexivity | exact Hall].
Qed.

(** C9. With an Astra value missing, [ingestFileToAstra] returns the skipped
    result, which is no success, and its only effect is a console warning.
    When the timer of an entry then fires, no HTTP request is made, every
    entry with that identifier gets the status ['complete'], not ['error'],
    with [null] as stored response, and is rendered exactly like the entry a
    successful upload would have produced. *)
Theorem skipped_ingestion_shows_complete
    (env : vite_env) (h : host) (k : nat) (entry : file_entry) (st : state) :
  ASTRA_DB_API_ENDPOINT env = lit "" \/ ASTRA_DB_KEYSPACE env = lit ""
  \/ ASTRA_DB_TOKEN env = lit "" ->
  nth_error (timers st) k = Some entry ->
  let st' := step env h (TimerFired k) st in
  (forall (f : file) (s : state),
     ingestFileToAstra env h f s
     = (Normal skipped_result,
        record_event (EConsole log_warn astra_skip_message) s))
  /\ ing_success skipped_result = false
  /\ ing_skipped skipped_result = true
  /\ (exists delta, trace st' = trace st ++ delta /\ collect fetched delta = [])
  /\ Forall2
       (fun item item' =>
          (entry_id item = entry_id entry ->
           entry_status item' = status_complete
           /\ entry_status item' <> status_error
           /\ entry_astraResponse item' = Some VNull
           /\ (forall now data,
                 render_item item' = render_item (completed item now data)))
          /\ (entry_id item <> entry_id entry -> item' = item))
       (uploadedFiles st) (uploadedFiles st').
Proof.
  intros Hc Hk st'. apply astra_config_missing_iff in Hc.
  split; [| split; [reflexivity | split; [reflexivity |]]].
  - intros f s. unfold ingestFileToAstra. rewrite Hc. reflexivity.
  - subst st'. rewrite (fire_timer_step env h k entry st Hk).
    destruct (timer_callback_skipped_run env h entry
                (set_timers (remove_nth k) st) Hc) as [Htr Hall].
    cbn [set_timers trace uploadedFiles] in Htr, Hall. split.
    + eexists. split; [exact Htr | reflexivity].
    + eapply Forall2_impl; [| exact Hall]. cbn beta.
      intros item item' Hs. apply settled_cases in Hs.
      destruct Hs as [Hsame Hother]. split; [| exact Hother].
      intros Hid. destruct (Hsame Hid) as [now ->].
      repeat split. discriminate.
Qed.

Lemma skipped_ingestion_shows_complete_witness :
  let env := Sample.unconfigured in
  let h := Sample.browser (Sample.reply true 200 (VObj [])) Sample.text_plain_ABC in
  let st := step env h (FilesSelected (Some [Sample.notes_txt])) (mount h) in
  let entry := uploading_entry (of_N 1) Sample.notes_txt 2 in
  ASTRA_DB_TOKEN env = lit ""
  /\ exists delta,
       trace (step env h (TimerFired 0) st) = trace st ++ delta
       /\ collect fetched delta = [].
Proof.
  intros env h st entry. split; [reflexivity |].
  destruct (skipped_ingestion_shows_complete env h 0 entry st) as [_ [_ [_ [H _]]]].
  - left. reflexivity.
  - reflexivity.
  - exact H.
Defined.

(** ** The session identifier *)

Lemma same_bus_refl (st : state) : same_bus st st.
Proof. split; reflexivity. Qed.

Lemma same_bus_trans (a b c : state) : same_bus a b -> same_bus b c -> same_bus a c.
Proof. unfold same_bus. intros [H1 H2] [H3 H4]. split; congruence. Qed.

Lemma handle_same_bus (env : vite_env) (h : host) (a : action) :
  a <> BeforeRender -> respects same_bus (handle env h a).
Proof.
  intros Ha. destruct a; try congruence; open_handlers;
    frame_rules same_bus_refl same_bus_trans;
    intros; split; reflexivity.
Qed.

Lemma bus_advance (n : nat) (st : state) : same_bus st (advance n st).
Proof.
  induction n as [| n IH]; [apply same_bus_refl |].
  destruct IH as [H1 H2]. split; cbn; assumption.
Qed.

(** In a reachable state the RESET handler is registered at most once. *)
Lemma reachable_bus (env : vite_env) (h : host) (st : state) :
  reachable env h st ->
  reset_handlers st
  = if resetRegisteredRef st then [regenerateSessionId_handler] else [].
Proof.
  induction 1 as [| a st Hreach IH].
  - rewrite mount_run. cbn [set_sessionRef reset_handlers resetRegisteredRef].
    destruct (bus_advance (id_cost h) blank) as [-> ->]. reflexivity.
  - destruct a;
      try (match goal with
           | |- context [step env h ?a st] =>
               destruct (handle_same_bus env h a ltac:(discriminate) st)
                 as [H1 H2];
               fold (run (handle env h a) st) in H1, H2;
               fold (step env h a st) in H1, H2; rewrite H1, H2; exact IH
           end).
    unfold step, run, handle, handleBeforeRender. exec.
    destruct (resetRegisteredRef st) eqn:Hreg; exec; cbn.
    + rewrite Hreg. exact IH.
    + rewrite IH. reflexivity.
Qed.

Lemma bus_reset_run (h : host) (st : state) :
  sessionRef (snd (bus_reset h st))
  = match reset_handlers st with
    | [] => sessionRef st
    | [regenerateSessionId_handler] => createSessionId_at h (tick st)
    | _ => sessionRef (snd (bus_reset h st))
    end.
Proof.
  unfold bus_reset. exec.
  destruct (reset_handlers st) as [| [] [| hd rest]]; [reflexivity | | reflexivity].
  cbn [forEach run_handler]. unfold regenerateSessionId.
  rewrite bind_unfold, bind_unfold, createSessionId_run. reflexivity.
Qed.

Lemma handle_no_chat_turn (env : vite_env) (h : host) (a : action) :
  match a with
  | SendMessage _ _ => True
  | _ => respects (extends_trace no_chat_turn) (handle env h a)
  end.
Proof.
  destruct a; try exact I; open_handlers;
    frame_rules (extends_trace_refl no_chat_turn)
                (extends_trace_trans no_chat_turn);
    intros;
    first [ apply extends_trace_silent; reflexivity
          | apply extends_trace_event; exact I ].
Qed.

Lemma no_chat_turn_carries (s : jsstring) (l : list event) :
  Forall no_chat_turn l -> Forall (carries s) l.
Proof.
  apply Forall_impl. intros [r | m | level label |]; try (intros; exact I).
  cbn. destruct (req_body r); [contradiction | intros; exact I].
Qed.

Lemma customSendMessage_carries (env : vite_env) (h : host)
    (request : option message_request) (requestOptions : option request_options)
    (st : state) :
  extends_trace (carries (sessionRef st)) st
    (snd (customSendMessage env h request requestOptions st)).
Proof.
  destruct (no_input_text request) eqn:Hi.
  - apply extends_trace_silent. unfold customSendMessage.
    destruct (userText_blank request Hi) as [-> | ->]; reflexivity.
  - destruct (langflow_config_missing env) eqn:Hc.
    + destruct (customSendMessage_unconfigured_trace env h request
                  requestOptions st Hi Hc) as [Htr _].
      cbv zeta in Htr. eexists. split; [exact Htr |].
      destruct (addMessage_outcome h _ _); repeat constructor.
    + destruct (userText_present request Hi) as [c [r Hu]].
      pose proof (customSendMessage_configured_trace env h request
                    requestOptions st (c :: r) Hu ltac:(discriminate) Hc) as Htr.
      cbv zeta in Htr. eexists. split; [exact Htr |].
      constructor; [reflexivity |].
      destruct (langflow_reply h _ _); [destruct (addMessage_outcome h _ _) |];
        repeat constructor.
Qed.

Lemma step_carries (env : vite_env) (h : host) (a : action) (st : state) :
  extends_trace (carries (sessionRef st)) st (step env h a st).
Proof.
  pose proof (handle_no_chat_turn env h a) as Hquiet.
  destruct a;
    try (destruct (Hquiet st) as [delta [Htr Hall]];
         exists delta; split; [exact Htr | apply no_chat_turn_carries; exact Hall]).
  apply customSendMessage_carries.
Qed.

Lemma steps_keep_session (env : vite_env) (h : host) (acts : list action)
    (st : state) :
  ~ In BusReset acts ->
  sessionRef (steps env h acts st) = sessionRef st
  /\ extends_trace (carries (sessionRef st)) st (steps env h acts st).
Proof.
  revert st. induction acts as [| a rest IH]; intros st Hno.
  - split; [reflexivity | apply extends_trace_refl].
  - cbn [steps fold_left]. fold (steps env h rest (step env h a st)).
    assert (Ha : a <> BusReset) by (intros ->; apply Hno; left; reflexivity).
    assert (Hrest : ~ In BusReset rest) by (intros Hin; apply Hno; right; exact Hin).
    pose proof (handle_same_session env h a Ha st) as Hs.
    unfold same_session in Hs. fold (run (handle env h a) st) in Hs.
    fold (step env h a st) in Hs.
    destruct (IH (step env h a st) Hrest) as [Hs' Htr'].
    rewrite Hs in Hs', Htr'. split; [exact Hs' |].
    eapply extends_trace_trans; [apply step_carries | exact Htr'].
Qed.

(** C5. The session identifier is one string, [sessionRef].  No handler but
    the RESET handler changes it; when the chat instance fires RESET in a
    reachable state where the handler is registered, the identifier becomes
    the value [createSessionId] returns at that moment; and over any run of
    actions without a RESET, every chat turn that is sent carries the
    identifier the run started with. *)
Theorem session_id_changes_only_on_reset (env : vite_env) (h : host) :
  (forall (a : action) (st : state),
     a <> BusReset -> sessionRef (step env h a st) = sessionRef st)
  /\ (forall st : state,
        reachable env h st ->
        sessionRef (step env h BusReset st)
        = if resetRegisteredRef st then createSessionId_at h (tick st)
          else sessionRef st)
  /\ (forall (acts : list action) (st : state),
        ~ In BusReset acts ->
        sessionRef (steps env h acts st) = sessionRef st
        /\ exists delta,
             trace (steps env h acts st) = trace st ++ delta
             /\ Forall (carries (sessionRef st)) delta).
Proof.
  split; [| split].
  - intros a st Ha. exact (handle_same_session env h a Ha st).
  - intros st Hreach. unfold step, run, handle. rewrite bus_reset_run.
    rewrite (reachable_bus env h st Hreach).
    destruct (resetRegisteredRef st); reflexivity.
  - intros acts st Hno. exact (steps_keep_session env h acts st Hno).
Qed.

Lemma session_id_changes_only_on_reset_witness :
  let env := Sample.configured in
  let h := Sample.browser (Sample.reply true 200 (VObj [])) Sample.text_plain_ABC in
  let acts := [BeforeRender; SendMessage (Sample.request_with "one") None;
               FilesSelected (Some [Sample.notes_txt]);
               SendMessage (Sample.request_with "two") None] in
  sessionRef (steps env h acts (mount h)) = sessionRef (mount h)
  /\ (exists delta,
        trace (steps env h acts (mount h)) = trace (mount h) ++ delta
        /\ Forall (carries (sessionRef (mount h))) delta)
  /\ sessionRef (step env h BusReset (steps env h acts (mount h)))
     = createSessionId_at h (tick (steps env h acts (mount h))).
Proof.
  intros env h acts.
  destruct (session_id_changes_only_on_reset env h) as [_ [Hreset Hrun]].
  assert (Hno : ~ In BusReset acts).
  { cbn. intros [H | [H | [H | [H | []]]]]; discriminate H. }
  destruct (Hrun acts (mount h) Hno) as [Hs Htr].
  split; [exact Hs | split; [exact Htr |]].
  rewrite Hreset.
  - reflexivity.
  - subst acts. cbn [steps fold_left].
    repeat apply reachable_step. apply reachable_mount.
Defined.

(** * Further properties *)

(** ** What trimming keeps *)

Lemma trimStart_head (s : jsstring) (c : N) (r : jsstring) :
  trimStart s = c :: r -> isWhiteSpace c = false.
Proof.
  induction s as [| x rest IH]; cbn [trimStart]; [discriminate |].
  destruct (isWhiteSpace x) eqn:Hx; [exact IH |].
  intros H. inversion H; subst. exact Hx.
Qed.

Lemma trimEnd_prefix (u : jsstring) :
  exists q, u = trimEnd u ++ q /\ forallb isWhiteSpace q = true.
Proof.
  unfold trimEnd. destruct (trimStart_suffix (rev u)) as [p [Hp Hw]].
  exists (rev p). split.
  - rewrite <- rev_app_distr, <- Hp. symmetry. apply rev_involutive.
  - rewrite forallb_rev. exact Hw.
Qed.

Lemma trim_decompose (t : jsstring) : trimmed_from t (trim t).
Proof.
  unfold trimmed_from, trim.
  destruct (trimStart_suffix t) as [p [Hp Hwp]].
  destruct (trimEnd_prefix (trimStart t)) as [q [Hq Hwq]].
  exists p, q. split; [| split; assumption].
  rewrite <- Hq. exact Hp.
Qed.

Lemma last_rev_cons {A : Type} (d : A) (w : list A) (x : A) :
  last (rev (d :: w)) x = d.
Proof. cbn [rev]. apply last_last. Qed.

Lemma trim_tight (t : jsstring) : tight (trim t).
Proof.
  unfold tight. destruct (trim t) as [| c r] eqn:Ht; [exact I |].
  unfold trim, trimEnd in Ht.
  destruct (trimStart (rev (trimStart t))) as [| d w] eqn:Hw.
  { discriminate Ht. }
  pose proof (trimStart_head _ _ _ Hw) as Hd.
  split.
  - destruct (trimStart_suffix (rev (trimStart t))) as [p [Hp _]].
    rewrite Hw in Hp.
    assert (Hu : trimStart t = rev (d :: w) ++ rev p).
    { rewrite <- rev_app_distr, <- Hp. symmetry. apply rev_involutive. }
    rewrite Ht in Hu. cbn [app] in Hu.
    exact (trimStart_head _ _ _ Hu).
  - assert (Hl : last (c :: r) c = d).
    { rewrite <- Ht. apply last_rev_cons. }
    assert (Hsame : last (c :: r) c = last r c) by (destruct r; reflexivity).
    rewrite <- Hsame, Hl. exact Hd.
Qed.

Lemma collect_chat_turn_quiet (l : list event) :
  Forall no_chat_turn l -> collect chat_turn l = [].
Proof.
  induction 1 as [| e rest He Hrest IH]; cbn [collect]; [reflexivity |].
  destruct e as [r | m | level label |]; cbn [chat_turn]; try exact IH.
  cbn in He. destruct (req_body r); [contradiction | exact IH].
Qed.

(** X1. Whatever the request, the configuration and the host, every chat
    turn [customSendMessage] sends carries the request's text with the white
    space around it removed and nothing else changed: the value sent is not
    empty and has no white space at either end. *)
Theorem sent_text_is_the_trimmed_input
    (env : vite_env) (h : host) (request : option message_request)
    (requestOptions : option request_options) (st : state) :
  exists delta,
    trace (snd (customSendMessage env h request requestOptions st))
    = trace st ++ delta
    /\ Forall
         (fun p =>
            input_value p <> []
            /\ tight (input_value p)
            /\ exists t, input_text_of request = Some t
                         /\ trimmed_from t (input_value p))
         (collect chat_turn delta).
Proof.
  destruct (no_input_text request) eqn:Hi.
  - exists []. split; [| constructor].
    unfold customSendMessage.
    destruct (userText_blank request Hi) as [-> | ->];
      symmetry; apply app_nil_r.
  - apply no_input_text_false_iff in Hi as Hi'. destruct Hi' as [t [Ht Hne]].
    destruct (langflow_config_missing env) eqn:Hc.
    + destruct (customSendMessage_unconfigured_trace env h request
                  requestOptions st Hi Hc) as [Htr _].
      cbv zeta in Htr. eexists. split; [exact Htr |].
      destruct (addMessage_outcome h _ _); constructor.
    + assert (Hu : userText_of request = Some (trim t)).
      { unfold userText_of. rewrite Ht. reflexivity. }
      pose proof (customSendMessage_configured_trace env h request
                    requestOptions st (trim t) Hu Hne Hc) as Htr.
      cbv zeta in Htr. eexists. split; [exact Htr |].
      cbn [collect chat_turn langflow_request req_body].
      assert (Hrest : forall l, Forall no_request l -> collect chat_turn l = []).
      { intros l Hl. apply collect_chat_turn_quiet.
        eapply Forall_impl; [| exact Hl].
        intros e He. destruct e; try exact I. discriminate He. }
      rewrite Hrest.
      * constructor; [| constructor]. cbn [chat_payload input_value].
        split; [exact Hne | split; [apply trim_tight |]].
        exists t. split; [exact Ht | apply trim_decompose].
      * destruct (langflow_reply h _ _); [destruct (addMessage_outcome h _ _) |];
          repeat constructor.
Qed.

(** ** Replies extractLangflowMessage cannot read *)

Lemma at0_none_chain (f : field) : get f (at0 None) = None.
Proof. reflexivity. Qed.

Lemma paths_need_outputs (data : value) :
  nullish (get outputs (Some data)) = true ->
  first_choice data = None.
Proof.
  unfold first_choice, path1, path2, path3, path4.
  destruct (get outputs (Some data)) as [[] |]; cbn; try discriminate;
    reflexivity.
Qed.

Lemma paths_of_scalar_outputs (data v : value) :
  get outputs (Some data) = Some v -> scalar v = true ->
  first_choice data = None.
Proof.
  unfold first_choice, path1, path2, path3, path4. intros -> Hv.
  destruct v as [| b | x | [| c s] | items | fields]; try discriminate Hv;
    reflexivity.
Qed.

Lemma extract_by_scan (data : value) :
  value_truthy data = true ->
  no_first_choice data ->
  extractLangflowMessage data
  = match scan data with
    | Throw e => Throw e
    | Normal (Some (t :: _)) => Normal (Some t)
    | Normal _ => Normal None
    end.
Proof.
  intros Ht Hno. unfold extractLangflowMessage. rewrite Ht. cbn [negb].
  destruct (first_choice data) as [[| b | x | s | items | fields] |] eqn:Hf;
    try reflexivity.
  rewrite (Hno s Hf). reflexivity.
Qed.

(** X2. When the reply has no [outputs] at all (the reply is falsy or no
    object, or the property is missing or [null]), [extractLangflowMessage]
    returns [null]; when [outputs] is a boolean, a number or a string, the
    call [data.outputs.flatMap] throws a TypeError. *)
Theorem extract_without_output_list (data : value) :
  (nullish (get outputs (Some data)) = true ->
   extractLangflowMessage data = Normal None)
  /\ (forall v,
        get outputs (Some data) = Some v -> scalar v = true ->
        extractLangflowMessage data
        = Throw (TypeError (lit "data.outputs.flatMap"))).
Proof.
  split.
  - intros Hn. destruct (value_truthy data) eqn:Ht.
    + rewrite extract_by_scan; [| exact Ht |].
      * unfold scan. destruct (get outputs (Some data)) as [[] |];
          try discriminate Hn; reflexivity.
      * intros s Hs. rewrite (paths_need_outputs data Hn) in Hs. discriminate.
    + unfold extractLangflowMessage. rewrite Ht. reflexivity.
  - intros v Hv Hs.
    rewrite extract_by_scan.
    + unfold scan. rewrite Hv. destruct v; try discriminate Hs; reflexivity.
    + exact (get_some_truthy _ _ _ Hv).
    + intros s Hf. rewrite (paths_of_scalar_outputs data v Hv Hs) in Hf.
      discriminate.
Qed.

Lemma extract_without_output_list_witness :
  extractLangflowMessage (VObj [(lit "message", VStr (lit "hi"))]) = Normal None
  /\ extractLangflowMessage (VObj [(lit "outputs", VStr (lit "hi"))])
     = Throw (TypeError (lit "data.outputs.flatMap")).
Proof.
  split.
  - apply (extract_without_output_list (VObj [(lit "message", VStr (lit "hi"))])).
    reflexivity.
  - apply (extract_without_output_list (VObj [(lit "outputs", VStr (lit "hi"))]))
      with (v := VStr (lit "hi")); reflexivity.
Defined.

Lemma flatMap_throws {A B : Type} (f : A -> completion (list B)) (l : list A)
    (x : A) (e : js_error) :
  In x l -> f x = Throw e -> exists e', flatMap f l = Throw e'.
Proof.
  induction l as [| y rest IH]; cbn [In flatMap]; [contradiction |].
  intros [-> | Hin] Hx.
  - rewrite Hx. eexists. reflexivity.
  - destruct (f y) as [ys | e1]; [| eexists; reflexivity].
    destruct (IH Hin Hx) as [e' ->]. eexists. reflexivity.
Qed.

Lemma flatMap_throw_kind {A B : Type} (P : js_error -> Prop)
    (f : A -> completion (list B)) (l : list A) (e : js_error) :
  (forall y e', f y = Throw e' -> P e') -> flatMap f l = Throw e -> P e.
Proof.
  intros Hf. induction l as [| y rest IH]; cbn [flatMap]; [discriminate |].
  destruct (f y) as [ys | e1] eqn:Hy.
  - destruct (flatMap f rest) as [zs | e2]; [discriminate |].
    intros H. inversion H; subst. apply IH. reflexivity.
  - intros H. inversion H; subst. exact (Hf y e Hy).
Qed.

Lemma subEntry_strings_throw (subEntry : value) (e : js_error) :
  subEntry_strings subEntry = Throw e -> is_TypeError e.
Proof.
  unfold subEntry_strings.
  destruct (coalesce _ _) as [[| b | x | s | items | fields] |];
    try discriminate;
    destruct (get messages (Some subEntry)) as [[| b' | x' | s' | items' | fields'] |];
    try discriminate; intros H; inversion H; eexists; reflexivity.
Qed.

Lemma entry_strings_throw (entry : value) (e : js_error) :
  entry_strings entry = Throw e -> is_TypeError e.
Proof.
  unfold entry_strings.
  destruct (get outputs (Some entry)) as [[| b | x | s | items | fields] |];
    try discriminate; try (intros H; inversion H; eexists; reflexivity).
  apply flatMap_throw_kind. exact subEntry_strings_throw.
Qed.

(** X3. One malformed entry spoils the whole reply.  When the first choice
    gives no usable text and some entry of [data.outputs], wherever it
    stands, has an [outputs] that is there but is no array,
    [extractLangflowMessage] throws a TypeError, whatever text the other
    entries hold. *)
Theorem malformed_entry_spoils_reply
    (data : value) (entries : list value) (entry v : value) :
  get outputs (Some data) = Some (VArr entries) ->
  In entry entries ->
  get outputs (Some entry) = Some v ->
  not_an_array v = true ->
  no_first_choice data ->
  exists callee, extractLangflowMessage data = Throw (TypeError callee).
Proof.
  intros Hd Hin He Hv Hno.
  rewrite extract_by_scan; [| exact (get_some_truthy _ _ _ Hd) | exact Hno].
  unfold scan. rewrite Hd.
  assert (Hthrow : exists e, entry_strings entry = Throw e).
  { unfold entry_strings. rewrite He.
    destruct v; try discriminate Hv; eexists; reflexivity. }
  destruct Hthrow as [e Hentry].
  destruct (flatMap_throws entry_strings entries entry e Hin Hentry) as [e' Hall].
  rewrite Hall.
  destruct (flatMap_throw_kind is_TypeError entry_strings entries e'
              entry_strings_throw Hall) as [callee ->].
  exists callee. reflexivity.
Qed.

Lemma malformed_entry_spoils_reply_witness :
  let good := VObj [(lit "outputs",
                     VArr [VObj [];
                           VObj [(lit "artifacts",
                                  VObj [(lit "message", VStr (lit "hi"))])]])] in
  let bad := VObj [(lit "outputs", VObj [])] in
  extractLangflowMessage (VObj [(lit "outputs", VArr [good])])
  = Normal (Some (lit "hi"))
  /\ exists callee,
       extractLangflowMessage (VObj [(lit "outputs", VArr [good; bad])])
       = Throw (TypeError callee).
Proof.
  intros good bad. split; [reflexivity |].
  apply (malformed_entry_spoils_reply
           (VObj [(lit "outputs", VArr [good; bad])]) [good; bad] bad (VObj [])).
  - reflexivity.
  - right. left. reflexivity.
  - reflexivity.
  - reflexivity.
  - intros s Hs. vm_compute in Hs. discriminate Hs.
Defined.

(** ** How customSendMessage settles *)

(** X4. With text and configuration present, the promise of
    [customSendMessage] resolves exactly when the [try] block reaches its
    [addMessage] (the reply is a success whose JSON body
    [extractLangflowMessage] reads without throwing) and the chat instance
    accepts that message, which carries the extracted text or, when there is
    none, the no-reply fallback.  Every error of the [try] block, be it
    thrown before [addMessage] or the rejection of [addMessage] itself, is
    rethrown unchanged once the chat instance has accepted the fallback
    message of the [catch] block; when that message is rejected as well, the
    promise rejects with the error of that rejection. *)
Theorem customSendMessage_rethrows
    (env : vite_env) (h : host) (request : option message_request)
    (requestOptions : option request_options) (st : state) (t : jsstring) :
  input_text_of request = Some t ->
  trim t <> [] ->
  langflow_config_missing env = false ->
  let req := langflow_request env (chat_payload (trim t) (sessionRef st))
               requestOptions in
  let rid := request_id_of request in
  let k := S (tick st) in
  let fallback_at (k' : nat) :=
    addMessage_outcome h (response_cost h + k')
      (text_response_at h langflow_error_fallback rid k') in
  let out := customSendMessage env h request requestOptions st in
  (fst out = Normal tt <->
   exists response data found,
     fetch_outcome h (tick st) req = Normal response
     /\ resp_ok response = true
     /\ resp_json response = Normal data
     /\ extractLangflowMessage data = Normal found
     /\ addMessage_outcome h (response_cost h + k)
          (text_response_at h
             match found with
             | Some reply => reply
             | None => langflow_no_reply_fallback
             end rid k)
        = Normal tt)
  /\ (forall e,
        langflow_reply h req (tick st) = Throw e ->
        (fallback_at k = Normal tt -> fst out = Throw e)
        /\ (forall e', fallback_at k = Throw e' -> fst out = Throw e'))
  /\ (forall txt e,
        langflow_reply h req (tick st) = Normal txt ->
        addMessage_outcome h (response_cost h + k) (text_response_at h txt rid k)
        = Throw e ->
        (fallback_at (S (response_cost h + k)) = Normal tt -> fst out = Throw e)
        /\ (forall e',
              fallback_at (S (response_cost h + k)) = Throw e' ->
              fst out = Throw e')).
Proof.
  intros Ht Hne Hc req rid k fallback_at out.
  assert (Hu : userText_of request = Some (trim t)).
  { unfold userText_of. rewrite Ht. reflexivity. }
  pose proof (customSendMessage_configured_outcome env h request requestOptions
                st (trim t) Hu Hne Hc) as Hout.
  cbv zeta in Hout. fold req rid k out in Hout. rewrite Hout.
  assert (Hthrown : forall e k', 
            match fallback_at k' with
            | Normal _ => Throw e
            | Throw e' => Throw e'
            end <> Normal tt).
  { intros e k'. destruct (fallback_at k'); discriminate. }
  split; [| split].
  - unfold settlement, langflow_reply. fold (fallback_at k).
    fold (fallback_at (S (response_cost h + k))).
    destruct (fetch_outcome h (tick st) req) as [response | e] eqn:Hf.
    + destruct (resp_ok response) eqn:Hok; cbn [negb].
      * destruct (resp_json response) as [data | e] eqn:Hj.
        -- destruct (extractLangflowMessage data) as [found | e] eqn:Hx.
           ++ assert (Hsame :
                        match found with
                        | Some u => Normal u
                        | None => Normal langflow_no_reply_fallback
                        end
                        = Normal match found with
                                 | Some reply => reply
                                 | None => langflow_no_reply_fallback
                                 end :> completion jsstring)
                by (destruct found; reflexivity).
              rewrite Hsame.
              destruct (addMessage_outcome h (response_cost h + k)
                          (text_response_at h
                             match found with
                             | Some reply => reply
                             | None => langflow_no_reply_fallback
                             end rid k)) as [[] | e] eqn:Hacc.
              ** split; [| reflexivity]. intros _.
                 exists response, data, found. repeat split; assumption.
              ** split; [intros H; exfalso; exact (Hthrown _ _ H) |].
                 intros [response' [data' [found' [Hf' [_ [Hj' [Hx' Hacc']]]]]]].
                 inversion Hf'; subst response'.
                 rewrite Hj in Hj'. inversion Hj'; subst data'.
                 rewrite Hx in Hx'. inversion Hx'; subst found'.
                 rewrite Hacc in Hacc'. discriminate Hacc'.
           ++ split; [intros H; exfalso; exact (Hthrown _ _ H) |].
              intros [response' [data' [found' [Hf' [_ [Hj' [Hx' _]]]]]]].
              inversion Hf'; subst response'.
              rewrite Hj in Hj'. inversion Hj'; subst data'.
              rewrite Hx in Hx'. discriminate Hx'.
        -- split; [intros H; exfalso; exact (Hthrown _ _ H) |].
           intros [response' [data' [found' [Hf' [_ [Hj' _]]]]]].
           inversion Hf'; subst response'. rewrite Hj in Hj'. discriminate Hj'.
      * split.
        -- destruct (resp_text response); intros H; exfalso;
             exact (Hthrown _ _ H).
        -- intros [response' [data' [found' [Hf' [Hok' _]]]]].
           inversion Hf'; subst response'. congruence.
    + split; [intros H; exfalso; exact (Hthrown _ _ H) |].
      intros [response' [data' [found' [Hf' _]]]]. discriminate Hf'.
  - intros e He. rewrite He. unfold settlement. fold (fallback_at k). split.
    + intros Hacc. rewrite Hacc. reflexivity.
    + intros e' Hrej. rewrite Hrej. reflexivity.
  - intros txt e Htxt Hrej. rewrite Htxt. unfold settlement. rewrite Hrej.
    fold (fallback_at (S (response_cost h + k))). split.
    + intros Hacc. rewrite Hacc. reflexivity.
    + intros e' Hrej'. rewrite Hrej'. reflexivity.
Qed.

Lemma customSendMessage_rethrows_witness :
  let env := Sample.configured in
  let request := Sample.request_with "hello" in
  (let h := Sample.browser (Sample.reply false 500 VNull) Sample.text_plain_ABC in
   fst (customSendMessage env h request None (mount h))
   = Throw (Error (lit "LangFlow request failed: " ++ of_N 500 ++ lit " " ++ lit "")))
  /\ (let h := Sample.closing_chat (Sample.reply true 200 (VObj [])) in
      fst (customSendMessage env h request None (mount h))
      = Throw (Rejected (lit "The chat is closed."))).
Proof.
  intros env request.
  assert (Hne : trim (lit "hello") <> []) by (vm_compute; discriminate).
  split; intros h.
  - destruct (customSendMessage_rethrows env h request None (mount h)
                (lit "hello") eq_refl Hne eq_refl) as [_ [Hthrow _]].
    apply Hthrow; reflexivity.
  - destruct (customSendMessage_rethrows env h request None (mount h)
                (lit "hello") eq_refl Hne eq_refl) as [_ [_ Hreject]].
    assert (Hreply : langflow_reply h
                       (langflow_request env
                          (chat_payload (trim (lit "hello")) (sessionRef (mount h)))
                          None)
                       (tick (mount h))
                     = Normal langflow_no_reply_fallback) by reflexivity.
    assert (Hclosed : addMessage_outcome h (response_cost h + S (tick (mount h)))
                        (text_response_at h langflow_no_reply_fallback
                           (request_id_of request) (S (tick (mount h))))
                      = Throw (Rejected (lit "The chat is closed.")))
      by (vm_compute; reflexivity).
    destruct (Hreject _ _ Hreply Hclosed) as [Haccepted _].
    apply Haccepted. vm_compute. reflexivity.
Defined.

(** ** What the handlers leave alone *)

Lemma same_component_refl (st : state) : same_component st st.
Proof. repeat split. Qed.

Lemma same_component_trans (a b c : state) :
  same_component a b -> same_component b c -> same_component a c.
Proof.
  unfold same_component.
  intros [H1 [H2 [H3 [H4 [H5 H6]]]]] [K1 [K2 [K3 [K4 [K5 K6]]]]].
  repeat split; congruence.
Qed.

(** X5. [customSendMessage] changes nothing of the component's own state:
    the list of uploaded files, the pending upload timers, the connection
    status, the session identifier and the RESET registration are the same
    after the call, whatever the request and whatever the host answers. *)
Theorem customSendMessage_keeps_component
    (env : vite_env) (h : host) (request : option message_request)
    (requestOptions : option request_options) (st : state) :
  same_component st (step env h (SendMessage request requestOptions) st).
Proof.
  revert st. change (respects same_component
                       (handle env h (SendMessage request requestOptions))).
  open_handlers; frame_rules same_component_refl same_component_trans;
    intros; repeat split.
Qed.

Lemma collect_off_chat (l : list event) :
  Forall off_chat l -> collect added l = [] /\ collect chat_turn l = [].
Proof.
  induction 1 as [| e rest [Ha Hc] Hrest [IH1 IH2]]; cbn [collect];
    [split; reflexivity |].
  rewrite Ha, Hc. split; assumption.
Qed.

(** X6. Only [customSendMessage] talks to the chat: every other handler
    (file selection, upload timers, file removal, the connection test, the
    RESET registration and the RESET handler itself) offers the chat instance
    no message and sends no chat turn to LangFlow. *)
Theorem only_customSendMessage_uses_chat
    (env : vite_env) (h : host) (a : action) (st : state) :
  (forall request requestOptions, a <> SendMessage request requestOptions) ->
  exists delta,
    trace (step env h a st) = trace st ++ delta
    /\ collect added delta = []
    /\ collect chat_turn delta = [].
Proof.
  intros Ha.
  assert (Hquiet : respects (extends_trace off_chat) (handle env h a)).
  { destruct a as [files | k | fileId | | request opts | | |];
      try (exfalso; exact (Ha request opts eq_refl));
      open_handlers;
      frame_rules (extends_trace_refl off_chat) (extends_trace_trans off_chat);
      intros;
      first [ apply extends_trace_silent; reflexivity
            | apply extends_trace_event; split; reflexivity ]. }
  destruct (Hquiet st) as [delta [Htr Hall]].
  exists delta. split; [exact Htr | apply collect_off_chat; exact Hall].
Qed.

Lemma only_customSendMessage_uses_chat_witness :
  let env := Sample.configured in
  let h := Sample.browser (Sample.reply true 200 (VObj [])) Sample.text_plain_ABC in
  let st := step env h (FilesSelected (Some [Sample.notes_txt])) (mount h) in
  exists delta,
    trace (step env h (TimerFired 0) st) = trace st ++ delta
    /\ collect added delta = []
    /\ collect chat_turn delta = [].
Proof.
  intros env h st.
  apply (only_customSendMessage_uses_chat env h (TimerFired 0) st).
  intros request requestOptions. discriminate.
Defined.

(** ** The result of an ingestion *)

Lemma ingestFileToAstra_configured_result
    (env : vite_env) (h : host) (f : file) (st : state) :
  astra_config_missing env = false ->
  let out := ingestFileToAstra env h f st in
  match FileReader_outcome h (tick st) f with
  | onload (Some result) =>
      let req := insert_request env
                   (astra_document_of f (Date_now h (S (tick st)))
                      (base64_of result)) in
      match fetch_outcome h (S (S (tick st))) req with
      | Normal response =>
          if resp_ok response then
            match resp_json response with
            | Normal data => fst out = Normal (success_result data)
            | Throw e => fst out = Normal (failure_result e)
            end
          else
            match resp_text response with
            | Normal errorText =>
                fst out = Normal (failure_result (insert_failure response errorText))
            | Throw e => fst out = Normal (failure_result e)
            end
      | Throw e => fst out = Normal (failure_result e)
      end
  | onload None =>
      fst out = Normal (failure_result (Error (lit "Failed to read file as base64.")))
  | onerror (Some e) => fst out = Normal (failure_result e)
  | onerror None =>
      fst out = Normal (failure_result (Error (lit "Unknown file read error")))
  end.
Proof.
  intros Hc out. subst out. unfold ingestFileToAstra, readFileAsBase64.
  rewrite Hc. exec.
  destruct (FileReader_outcome h (tick st) f) as [[result |] | [e |]]; exec;
    try reflexivity.
  cbn [tick next_tick].
  match goal with
  | |- context [fetch_outcome h ?k ?req] =>
      destruct (fetch_outcome h k req) as [response | e]
  end; exec; [| reflexivity].
  destruct (resp_ok response); exec.
  - destruct (resp_json response) as [data | e]; exec; reflexivity.
  - destruct (resp_text response) as [errorText | e]; exec; reflexivity.
Qed.

(** X7. [ingestFileToAstra] never rejects: whatever the reader and the
    network do, it returns a result and leaves the component's state alone.
    The result is skipped exactly when an Astra value is missing; a success
    is never skipped and carries the reply's data; a result that is neither
    carries the error that was caught. *)
Theorem ingestFileToAstra_never_rejects
    (env : vite_env) (h : host) (f : file) (st : state) :
  exists r st',
    ingestFileToAstra env h f st = (Normal r, st')
    /\ same_component st st'
    /\ (ing_skipped r = true <-> astra_config_missing env = true)
    /\ (ing_success r = true ->
        ing_skipped r = false /\ ing_error r = None
        /\ exists data, ing_data r = Some data)
    /\ (ing_success r = false -> ing_skipped r = false ->
        ing_data r = None /\ exists e, ing_error r = Some e).
Proof.
  assert (Hsame : respects same_component (ingestFileToAstra env h f)).
  { open_handlers; frame_rules same_component_refl same_component_trans;
      intros; repeat split. }
  specialize (Hsame st).
  destruct (ingestFileToAstra env h f st) as [c st'] eqn:Hrun.
  cbn [snd] in Hsame.
  destruct (astra_config_missing env) eqn:Hc.
  - unfold ingestFileToAstra in Hrun. rewrite Hc in Hrun.
    inversion Hrun; subst. eexists _, _. split; [reflexivity |].
    split; [exact Hsame |]. repeat split; try discriminate.
  - pose proof (ingestFileToAstra_configured_result env h f st Hc) as Hres.
    cbv zeta in Hres. rewrite Hrun in Hres. cbn [fst] in Hres.
    assert (Hshape : (exists data, c = Normal (success_result data))
                     \/ (exists e, c = Normal (failure_result e))).
    { destruct (FileReader_outcome h (tick st) f) as [[result |] | [e |]];
        try (right; eexists; exact Hres).
      destruct (fetch_outcome h _ _) as [response | e];
        [| right; eexists; exact Hres].
      destruct (resp_ok response).
      - destruct (resp_json response);
          [left | right]; eexists; exact Hres.
      - destruct (resp_text response); right; eexists; exact Hres. }
    destruct Hshape as [[data ->] | [e ->]]; eexists _, _;
      (split; [reflexivity |]); (split; [exact Hsame |]);
      cbn [ing_skipped ing_success ing_data ing_error success_result failure_result].
    + split; [split; discriminate |]. split; [| discriminate].
      intros _. repeat split. exists data. reflexivity.
    + split; [split; discriminate |]. split; [discriminate |].
      intros _ _. split; [reflexivity |]. exists e. reflexivity.
Qed.

(** X8. With the Astra configuration complete, an ingestion succeeds exactly
    when the file was read as a string, the request was answered, the answer
    has a success status and its body parses as JSON; the result then
    carries that JSON.  An answer without success status whose text can be
    read gives the failure "Astra insertMany request failed: status
    statusText text". *)
Theorem ingestion_succeeds_iff
    (env : vite_env) (h : host) (f : file) (st : state) (r : ingestion_result) :
  astra_config_missing env = false ->
  fst (ingestFileToAstra env h f st) = Normal r ->
  let req_of result :=
    insert_request env
      (astra_document_of f (Date_now h (S (tick st))) (base64_of result)) in
  (ing_success r = true <->
   exists result response data,
     FileReader_outcome h (tick st) f = onload (Some result)
     /\ fetch_outcome h (S (S (tick st))) (req_of result) = Normal response
     /\ resp_ok response = true
     /\ resp_json response = Normal data
     /\ ing_data r = Some data)
  /\ (forall result response errorText,
        FileReader_outcome h (tick st) f = onload (Some result) ->
        fetch_outcome h (S (S (tick st))) (req_of result) = Normal response ->
        resp_ok response = false ->
        resp_text response = Normal errorText ->
        r = failure_result (insert_failure response errorText)).
Proof.
  intros Hc Hr req_of.
  pose proof (ingestFileToAstra_configured_result env h f st Hc) as Hres.
  cbv zeta in Hres. rewrite Hr in Hres. split.
  - split.
    + intros Hok.
      destruct (FileReader_outcome h (tick st) f) as [[result |] | [e |]];
        try (inversion Hres; subst r; discriminate Hok).
      fold (req_of result) in Hres.
      destruct (fetch_outcome h (S (S (tick st))) (req_of result))
        as [response | e] eqn:Hf;
        [| inversion Hres; subst r; discriminate Hok].
      destruct (resp_ok response) eqn:Hrok.
      * destruct (resp_json response) as [data | e] eqn:Hj;
          [| inversion Hres; subst r; discriminate Hok].
        inversion Hres; subst r.
        exists result, response, data. repeat split; assumption.
      * destruct (resp_text response);
          inversion Hres; subst r; discriminate Hok.
    + intros [result [response [data [Hrd [Hf [Hrok [Hj Hd]]]]]]].
      rewrite Hrd in Hres. fold (req_of result) in Hres.
      rewrite Hf, Hrok, Hj in Hres. inversion Hres. reflexivity.
  - intros result response errorText Hrd Hf Hrok Htxt.
    rewrite Hrd in Hres. fold (req_of result) in Hres.
    rewrite Hf, Hrok, Htxt in Hres. inversion Hres. reflexivity.
Qed.

Lemma ingestion_succeeds_iff_witness :
  let env := Sample.configured in
  let h := Sample.browser (Sample.reply false 401 VNull) Sample.text_plain_ABC in
  fst (ingestFileToAstra env h Sample.notes_txt (mount h))
  = Normal (failure_result
              (Error (lit "Astra insertMany request failed: " ++ of_N 401
                        ++ lit " " ++ lit "" ++ lit " " ++ lit ""))).
Proof.
  intros env h.
  destruct (ingestFileToAstra env h Sample.notes_txt (mount h)) as [c st'] eqn:Hrun.
  assert (Hc : exists r, c = Normal r).
  { vm_compute in Hrun. inversion Hrun. eexists. reflexivity. }
  destruct Hc as [r ->]. cbn [fst]. f_equal.
  assert (Hfst : fst (ingestFileToAstra env h Sample.notes_txt (mount h)) = Normal r).
  { rewrite Hrun. reflexivity. }
  destruct (ingestion_succeeds_iff env h Sample.notes_txt (mount h) r eq_refl Hfst)
    as [_ Hbad].
  apply (Hbad (lit "data:text/plain;base64,QUJD") (Sample.reply false 401 VNull)
           (lit "")); reflexivity.
Defined.

(** ** Failed uploads, removed files and late timers *)

Lemma neqb_neq (a b : jsstring) : JsString.eqb a b = false <-> a <> b.
Proof.
  split.
  - intros H Hab. apply eqb_eq in Hab. congruence.
  - intros H. destruct (JsString.eqb a b) eqn:Hab; [| reflexivity].
    apply eqb_eq in Hab. contradiction.
Qed.

(** X9. When the timer of an entry fires and its ingestion fails (it is
    neither a success nor skipped), every entry of the list with that
    identifier gets the status ['error'] and the message of the error that
    was caught; the sidebar shows the "Failed" tag with that message; the
    entry's name, size and creation time stay, and the other entries are
    untouched. *)
Theorem failed_upload_shows_error
    (env : vite_env) (h : host) (k : nat) (entry : file_entry) (st : state)
    (r : ingestion_result) (st1 : state) :
  nth_error (timers st) k = Some entry ->
  ingestFileToAstra env h (entry_file entry) (set_timers (remove_nth k) st)
  = (Normal r, st1) ->
  ing_success r = false ->
  ing_skipped r = false ->
  Forall2 (fails_with entry (error_text r)) (uploadedFiles st)
    (uploadedFiles (step env h (TimerFired k) st)).
Proof.
  intros Hk Hing Hok Hskip.
  rewrite (fire_timer_step env h k entry st Hk).
  destruct (timer_callback_run env h entry (set_timers (remove_nth k) st))
    as [r' [st1' [Hing' Hall]]].
  rewrite Hing in Hing'. inversion Hing'; subst r' st1'.
  cbn [set_timers uploadedFiles] in Hall.
  eapply Forall2_impl; [| exact Hall]. cbn beta.
  intros item item' Hs. apply settled_cases in Hs. destruct Hs as [Hsame Hother].
  rewrite Hok, Hskip in Hsame. cbn [orb] in Hsame.
  split; [| exact Hother].
  intros Hid. rewrite (Hsame Hid). repeat split.
Qed.

Lemma failed_upload_shows_error_witness :
  let env := Sample.configured in
  let h := Sample.browser (Sample.reply false 401 VNull) Sample.text_plain_ABC in
  let st := step env h (FilesSelected (Some [Sample.notes_txt])) (mount h) in
  let entry := uploading_entry (of_N 1) Sample.notes_txt 2 in
  let msg := lit "Astra insertMany request failed: " ++ of_N 401
               ++ lit " " ++ lit "" ++ lit " " ++ lit "" in
  Forall2 (fails_with entry msg) (uploadedFiles st)
    (uploadedFiles (step env h (TimerFired 0) st)).
Proof.
  intros env h st entry msg.
  apply (failed_upload_shows_error env h 0 entry st
           (failure_result (Error msg))
           (snd (ingestFileToAstra env h Sample.notes_txt
                   (set_timers (remove_nth 0) st))));
    reflexivity.
Defined.

Lemma filter_keeps_all {A : Type} (keep : A -> bool) (l : list A) :
  (forall x, In x l -> keep x = true) -> filter keep l = l.
Proof.
  induction l as [| x rest IH]; cbn [filter]; intros Hall; [reflexivity |].
  rewrite (Hall x (or_introl eq_refl)). f_equal.
  apply IH. intros y Hy. apply Hall. right. exact Hy.
Qed.

(** X10. [handleRemoveFile] drops exactly the entries with the given
    identifier: none is left, every other entry stays, a file that is not in
    the list changes nothing, and removing twice is removing once.  It writes
    no trace and leaves the pending upload timers alone: the upload of a
    removed file is not cancelled. *)
Theorem removal_drops_the_entry
    (env : vite_env) (h : host) (fileId : jsstring) (st : state) :
  let st' := step env h (RemoveFile fileId) st in
  ~ In fileId (map entry_id (uploadedFiles st'))
  /\ (forall e, In e (uploadedFiles st')
                <-> In e (uploadedFiles st) /\ entry_id e <> fileId)
  /\ (~ In fileId (map entry_id (uploadedFiles st)) ->
      uploadedFiles st' = uploadedFiles st)
  /\ step env h (RemoveFile fileId) st' = st'
  /\ timers st' = timers st
  /\ trace st' = trace st.
Proof.
  intros st'. subst st'. unfold step, run, handle, handleRemoveFile, update.
  cbn [snd set_uploadedFiles uploadedFiles timers trace].
  assert (Hin : forall e,
             In e (filter (fun f => negb (JsString.eqb (entry_id f) fileId))
                     (uploadedFiles st))
             <-> In e (uploadedFiles st) /\ entry_id e <> fileId).
  { intros e. rewrite filter_In, negb_true_iff, neqb_neq. reflexivity. }
  split; [| split; [exact Hin | split; [| split; [| split; reflexivity]]]].
  - intros Hid. apply in_map_iff in Hid. destruct Hid as [e [He Hine]].
    apply Hin in Hine. destruct Hine as [_ Hne]. contradiction.
  - intros Habsent. apply filter_keeps_all.
    intros e He. apply negb_true_iff, neqb_neq. intros Heq.
    apply Habsent. apply in_map_iff. exists e. split; assumption.
  - unfold set_uploadedFiles. cbn. f_equal. apply filter_keeps_all.
    intros e He. apply filter_In in He. tauto.
Qed.

Lemma same_timers_refl (st : state) : same_timers st st.
Proof. reflexivity. Qed.

Lemma same_timers_trans (a b c : state) :
  same_timers a b -> same_timers b c -> same_timers a c.
Proof. unfold same_timers. congruence. Qed.

Lemma timer_callback_same_timers (env : vite_env) (h : host) (entry : file_entry) :
  respects same_timers (timer_callback env h entry).
Proof.
  open_handlers; frame_rules same_timers_refl same_timers_trans;
    intros; reflexivity.
Qed.

Lemma handle_same_timers (env : vite_env) (h : host) (a : action) :
  match a with
  | FilesSelected _ | TimerFired _ => True
  | _ => respects same_timers (handle env h a)
  end.
Proof.
  destruct a; try exact I; open_handlers;
    frame_rules same_timers_refl same_timers_trans;
    intros; reflexivity.
Qed.

Lemma remove_nth_beyond {A : Type} (k : nat) (l : list A) :
  nth_error l k = None -> remove_nth k l = l.
Proof.
  revert k. induction l as [| x rest IH]; intros [| k]; cbn; intros H;
    try reflexivity; try discriminate.
  f_equal. apply IH. exact H.
Qed.

Lemma fire_timer_timers (env : vite_env) (h : host) (k : nat) (st : state) :
  timers (step env h (TimerFired k) st) = remove_nth k (timers st).
Proof.
  destruct (nth_error (timers st) k) as [entry |] eqn:Hk.
  - rewrite (fire_timer_step env h k entry st Hk).
    exact (timer_callback_same_timers env h entry (set_timers (remove_nth k) st)).
  - rewrite remove_nth_beyond by exact Hk.
    unfold step, run, handle, fire_timer. exec. rewrite Hk. reflexivity.
Qed.

Lemma settled_identity (entry : file_entry) (r : ingestion_result)
    (prev next : list file_entry) :
  Forall2 (settled entry r) prev next ->
  map identity_of next = map identity_of prev.
Proof.
  induction 1 as [| item item' prev next Hitem Hrest IH]; cbn [map];
    [reflexivity |].
  rewrite IH. f_equal. unfold settled in Hitem.
  destruct (negb (JsString.eqb (entry_id item) (entry_id entry))).
  - rewrite Hitem. reflexivity.
  - destruct (ing_success r || ing_skipped r).
    + destruct Hitem as [now ->]. reflexivity.
    + rewrite Hitem. reflexivity.
Qed.

(** X11. A timer that fires never adds, drops or reorders entries and never
    changes an entry's identifier, file, name, size or creation time; and it
    is spent: the pending timers afterwards are the ones before without the
    one that fired. *)
Theorem timer_keeps_the_entries
    (env : vite_env) (h : host) (k : nat) (st : state) :
  map identity_of (uploadedFiles (step env h (TimerFired k) st))
  = map identity_of (uploadedFiles st)
  /\ timers (step env h (TimerFired k) st) = remove_nth k (timers st).
Proof.
  split; [| apply fire_timer_timers].
  destruct (nth_error (timers st) k) as [entry |] eqn:Hk.
  - rewrite (fire_timer_step env h k entry st Hk).
    destruct (timer_callback_run env h entry (set_timers (remove_nth k) st))
      as [r [st1 [_ Hall]]].
    exact (settled_identity entry r _ _ Hall).
  - unfold step, run, handle, fire_timer. exec. rewrite Hk. reflexivity.
Qed.

Lemma settled_absent (entry : file_entry) (r : ingestion_result)
    (prev next : list file_entry) :
  ~ In (entry_id entry) (map entry_id prev) ->
  Forall2 (settled entry r) prev next -> next = prev.
Proof.
  intros Habsent Hall.
  induction Hall as [| item item' prev next Hitem Hrest IH]; [reflexivity |].
  cbn [map In] in Habsent.
  apply settled_cases in Hitem. destruct Hitem as [_ Hother].
  rewrite Hother, IH; [reflexivity | tauto | intros Heq; apply Habsent; left; exact Heq].
Qed.

Lemma timer_callback_requests (env : vite_env) (h : host) (entry : file_entry)
    (st : state) :
  exists d1 d2,
    trace (snd (ingestFileToAstra env h (entry_file entry) st)) = trace st ++ d1
    /\ trace (snd (timer_callback env h entry st)) = trace st ++ d1 ++ d2
    /\ Forall no_request d2.
Proof.
  assert (Hany : respects (extends_trace (fun _ => True))
                   (ingestFileToAstra env h (entry_file entry))).
  { open_handlers;
      frame_rules (extends_trace_refl (fun _ : event => True))
                  (extends_trace_trans (fun _ : event => True));
      intros;
      first [ apply extends_trace_silent; reflexivity
            | apply extends_trace_event; exact I ]. }
  destruct (Hany st) as [d1 [Hd1 _]].
  destruct (ingestFileToAstra_returns env h (entry_file entry) st)
    as [r [st1 [Hing _]]].
  rewrite Hing in Hd1. cbn [snd] in Hd1.
  unfold timer_callback. rewrite bind_unfold, Hing. cbn [snd]. cbn beta iota.
  rewrite bind_unfold.
  assert (Hlog : exists st2 d2,
             (if ing_success r || ing_skipped r
              then handleFileUploaded (Some (entry_file entry)) r;; ret tt
              else ret tt) st1 = (Normal tt, st2)
             /\ trace st2 = trace st1 ++ d2 /\ Forall no_request d2).
  { destruct (ing_success r || ing_skipped r).
    - eexists _, [_]. split; [reflexivity |].
      split; [reflexivity | repeat constructor].
    - eexists _, []. split; [reflexivity |].
      split; [symmetry; apply app_nil_r | constructor]. }
  destruct Hlog as [st2 [d2 [Hlog [Htr2 Hd2]]]]. rewrite Hlog. cbn beta iota.
  unfold setUploadedFiles_map. exec.
  destruct (mapM_settle_entry_run h entry r (uploadedFiles st2) st2)
    as [next [st3 [Hmap [_ [_ [Htr3 _]]]]]].
  rewrite Hmap. cbn [snd set_uploadedFiles trace].
  exists d1, d2. split; [exact Hd1 | split; [| exact Hd2]].
  rewrite Htr3, Htr2, Hd1. symmetry. apply app_assoc.
Qed.

(** X12. Removing a file does not stop its upload.  When the timer of an
    entry fires after the entry has left the list, the list stays exactly as
    it is (the entry does not come back), and with the Astra configuration
    complete and a readable file the document is still posted. *)
Theorem removed_file_is_still_ingested
    (env : vite_env) (h : host) (k : nat) (entry : file_entry) (st : state) :
  nth_error (timers st) k = Some entry ->
  ~ In (entry_id entry) (map entry_id (uploadedFiles st)) ->
  let st' := step env h (TimerFired k) st in
  uploadedFiles st' = uploadedFiles st
  /\ (astra_config_missing env = false ->
      forall result,
        FileReader_outcome h (tick st) (entry_file entry) = onload (Some result) ->
        exists delta,
          trace st' = trace st ++ delta
          /\ collect fetched delta
             = [insert_request env
                  (astra_document_of (entry_file entry)
                     (Date_now h (S (tick st))) (base64_of result))]).
Proof.
  intros Hk Habsent st'. subst st'.
  rewrite (fire_timer_step env h k entry st Hk). split.
  - destruct (timer_callback_run env h entry (set_timers (remove_nth k) st))
      as [r [st1 [_ Hall]]].
    cbn [set_timers uploadedFiles] in Hall.
    exact (settled_absent entry r _ _ Habsent Hall).
  - intros Hc result Hread.
    destruct (timer_callback_requests env h entry (set_timers (remove_nth k) st))
      as [d1 [d2 [Hd1 [Hd Hquiet]]]].
    pose proof (ingestFileToAstra_configured_trace env h (entry_file entry)
                  (set_timers (remove_nth k) st) Hc) as Hing.
    cbv zeta in Hing. cbn [set_timers tick trace] in Hing, Hd1, Hd.
    rewrite Hread in Hing. destruct Hing as [r [_ Htr]].
    rewrite Htr in Hd1. apply app_inv_head in Hd1. subst d1.
    eexists. split; [exact Hd |].
    rewrite collect_app, (collect_no_request d2 Hquiet), app_nil_r.
    destruct (ing_success r); reflexivity.
Qed.

Lemma removed_file_is_still_ingested_witness :
  let env := Sample.configured in
  let h := Sample.browser (Sample.reply true 200 (VObj [])) Sample.text_plain_ABC in
  let st := steps env h [FilesSelected (Some [Sample.notes_txt]);
                         RemoveFile (of_N 1)] (mount h) in
  let entry := uploading_entry (of_N 1) Sample.notes_txt 2 in
  uploadedFiles st = []
  /\ uploadedFiles (step env h (TimerFired 0) st) = []
  /\ exists delta,
       trace (step env h (TimerFired 0) st) = trace st ++ delta
       /\ collect fetched delta
          = [insert_request env
               (astra_document_of Sample.notes_txt (Date_now h (S (tick st)))
                  (lit "QUJD"))].
Proof.
  intros env h st entry.
  destruct (removed_file_is_still_ingested env h 0 entry st eq_refl)
    as [Hkeep Hpost].
  - cbn. tauto.
  - split; [reflexivity |]. split; [exact Hkeep |].
    exact (Hpost eq_refl (lit "data:text/plain;base64,QUJD") eq_refl).
Defined.

(** ** Uploads in progress *)

Lemma Forall2_In_right {A B : Type} (R : A -> B -> Prop) (l : list A)
    (l' : list B) (y : B) :
  Forall2 R l l' -> In y l' -> exists x, In x l /\ R x y.
Proof.
  induction 1 as [| a b l l' Hab Hrest IH]; cbn [In]; [contradiction |].
  intros [<- | Hin].
  - exists a. split; [left; reflexivity | exact Hab].
  - destruct (IH Hin) as [x [Hx Hr]]. exists x. split; [right; exact Hx | exact Hr].
Qed.

Lemma Forall2_In_left {A B : Type} (R : A -> B -> Prop) (l : list A)
    (l' : list B) (x : A) :
  Forall2 R l l' -> In x l -> exists y, In y l' /\ R x y.
Proof.
  induction 1 as [| a b l l' Hab Hrest IH]; cbn [In]; [contradiction |].
  intros [<- | Hin].
  - exists b. split; [left; reflexivity | exact Hab].
  - destruct (IH Hin) as [y [Hy Hr]]. exists y. split; [right; exact Hy | exact Hr].
Qed.

Lemma In_remove_nth {A : Type} (k : nat) (l : list A) (x : A) :
  In x (remove_nth k l) -> In x l.
Proof.
  revert k. induction l as [| y rest IH]; intros [| k]; cbn; try tauto.
  intros [-> | Hin]; [left; reflexivity | right; exact (IH k Hin)].
Qed.

Lemma In_map_remove_nth {A B : Type} (f : A -> B) (k : nat) (l : list A)
    (y : A) (x : B) :
  nth_error l k = Some y -> f y <> x ->
  In x (map f l) -> In x (map f (remove_nth k l)).
Proof.
  revert k. induction l as [| z rest IH]; intros [| k]; cbn; try discriminate.
  - intros Hz Hne [Hx | Hin]; [| exact Hin]. inversion Hz; subst. contradiction.
  - intros Hk Hne [Hx | Hin]; [left; exact Hx | right; exact (IH k Hk Hne Hin)].
Qed.

Lemma NoDup_map_remove_nth {A B : Type} (f : A -> B) (k : nat) (l : list A)
    (y : A) :
  NoDup (map f l) -> nth_error l k = Some y ->
  NoDup (map f (remove_nth k l)) /\ ~ In (f y) (map f (remove_nth k l)).
Proof.
  revert k. induction l as [| z rest IH]; intros [| k]; cbn; try discriminate;
    intros Hnd Hk; apply NoDup_cons_iff in Hnd; destruct Hnd as [Hnotin Hrest].
  - inversion Hk; subst. split; assumption.
  - destruct (IH k Hrest Hk) as [Hnd' Hnot']. split.
    + apply NoDup_cons_iff. split; [| exact Hnd'].
      intros Hin. apply Hnotin. apply in_map_iff in Hin.
      destruct Hin as [w [Hw Hin]]. apply In_remove_nth in Hin.
      apply in_map_iff. exists w. split; assumption.
    + intros [Heq | Hin]; [| exact (Hnot' Hin)].
      apply Hnotin. rewrite Heq. apply in_map_iff. exists y.
      split; [reflexivity | exact (nth_error_In _ _ Hk)].
Qed.

Lemma settled_not_uploading (entry : file_entry) (r : ingestion_result)
    (item item' : file_entry) :
  settled entry r item item' ->
  entry_id item = entry_id entry ->
  entry_status item' <> status_uploading.
Proof.
  intros Hs Hid. apply settled_cases in Hs. destruct Hs as [Hsame _].
  specialize (Hsame Hid).
  destruct (ing_success r || ing_skipped r).
  - destruct Hsame as [now ->]. cbn. vm_compute. discriminate.
  - rewrite Hsame. cbn. vm_compute. discriminate.
Qed.

Lemma step_timers (env : vite_env) (h : host) (a : action) (st : state) :
  match a with
  | FilesSelected (Some (f :: rest)) =>
      timers (step env h a st) = timers st ++ entries_at h (f :: rest) (tick st)
      /\ uploadedFiles (step env h a st)
         = uploadedFiles st ++ entries_at h (f :: rest) (tick st)
  | TimerFired k => timers (step env h a st) = remove_nth k (timers st)
  | _ => timers (step env h a st) = timers st
  end.
Proof.
  pose proof (handle_same_timers env h a) as Hsame.
  destruct a as [[[| f rest] |] | k | fileId | | request opts | | |];
    try exact (Hsame st); try reflexivity.
  - destruct (handleFilesSelected_run h f rest st) as [Hf [Ht _]].
    split; assumption.
  - apply fire_timer_timers.
Qed.

Lemma step_uploading_is_awaited (env : vite_env) (h : host) (a : action)
    (waiting : list jsstring) (st : state) :
  uploading_is_awaited waiting st ->
  uploading_is_awaited waiting (step env h a st).
Proof.
  intros Hinv. unfold uploading_is_awaited.
  pose proof (step_timers env h a st) as Ht.
  pose proof (handle_same_files env h a) as Hf.
  destruct a as [[[| f rest] |] | k | fileId | | request opts | | |];
    try exact Hinv;
    try (specialize (Hf st); unfold same_files in Hf;
         unfold step, run in Ht |- *; rewrite Ht, Hf; exact Hinv).
  - destruct Ht as [Ht Hfiles]. rewrite Ht, Hfiles, map_app.
    intros e He Hs. apply in_app_or in He.
    destruct He as [He | He].
    + destruct (Hinv e He Hs) as [Hin | Hin]; [left | right; exact Hin].
      apply in_or_app. left. exact Hin.
    + left. apply in_or_app. right. apply in_map. exact He.
  - rewrite Ht. destruct (nth_error (timers st) k) as [entry |] eqn:Hk.
    + rewrite (fire_timer_step env h k entry st Hk).
      destruct (timer_callback_run env h entry (set_timers (remove_nth k) st))
        as [r [st1 [_ Hall]]].
      cbn [set_timers uploadedFiles] in Hall.
      intros e' He' Hs.
      destruct (Forall2_In_right _ _ _ e' Hall He') as [e [He Hsettled]].
      destruct (JsString.eqb (entry_id e) (entry_id entry)) eqn:Heq.
      * apply eqb_eq in Heq.
        exfalso. exact (settled_not_uploading _ _ _ _ Hsettled Heq Hs).
      * apply neqb_neq in Heq. apply settled_cases in Hsettled.
        destruct Hsettled as [_ Hother]. rewrite (Hother Heq) in Hs |- *.
        destruct (Hinv e He Hs) as [Hin | Hin]; [left | right; exact Hin].
        apply (In_map_remove_nth entry_id k (timers st) entry);
          [exact Hk | congruence | exact Hin].
    + rewrite remove_nth_beyond by exact Hk.
      unfold step, run, handle, fire_timer. exec. rewrite Hk. exact Hinv.
  - rewrite Ht. intros e He Hs. apply Hinv; [| exact Hs].
    unfold step, run, handle, handleRemoveFile, update in He.
    cbn in He. apply filter_In in He. tauto.
Qed.

Lemma ingestFileToAstra_same_timers (env : vite_env) (h : host) (f : file) :
  respects same_timers (ingestFileToAstra env h f).
Proof.
  open_handlers; frame_rules same_timers_refl same_timers_trans;
    intros; reflexivity.
Qed.

Lemma resume_callback_same_timers (h : host) (entry : file_entry)
    (r : ingestion_result) :
  respects same_timers (resume_callback h entry r).
Proof.
  unfold resume_callback.
  open_handlers; frame_rules same_timers_refl same_timers_trans;
    intros; reflexivity.
Qed.

(** The timer callback is its ingestion followed by the rest. *)
Lemma timer_callback_resumed (env : vite_env) (h : host) (entry : file_entry)
    (r : ingestion_result) (st st1 : state) :
  ingestFileToAstra env h (entry_file entry) st = (Normal r, st1) ->
  timer_callback env h entry st = resume_callback h entry r st1.
Proof.
  intros Hing. unfold timer_callback, resume_callback.
  rewrite bind_unfold, Hing. reflexivity.
Qed.

Lemma resume_callback_run (env : vite_env) (h : host) (entry : file_entry)
    (r : ingestion_result) (st : state) :
  Forall2 (settled entry r) (uploadedFiles st)
    (uploadedFiles (run (resume_callback h entry r) st)).
Proof.
  unfold run, resume_callback. rewrite bind_unfold.
  assert (Hlog : exists st2,
             (if ing_success r || ing_skipped r
              then handleFileUploaded (Some (entry_file entry)) r;; ret tt
              else ret tt) st = (Normal tt, st2)
             /\ uploadedFiles st2 = uploadedFiles st).
  { destruct (ing_success r || ing_skipped r); eexists; split; reflexivity. }
  destruct Hlog as [st2 [Hlog Hf2]]. rewrite Hlog. cbn beta iota.
  unfold setUploadedFiles_map. exec.
  destruct (mapM_settle_entry_run h entry r (uploadedFiles st2) st2)
    as [next [st3 [Hmap [Hall _]]]].
  rewrite Hmap. cbn. rewrite <- Hf2. exact Hall.
Qed.

Lemma nth_error_last {A : Type} (l : list A) (x : A) :
  nth_error (l ++ [x]) (List.length l) = Some x.
Proof. induction l as [| y rest IH]; [reflexivity | exact IH]. Qed.

Lemma remove_nth_last {A : Type} (l : list A) (x : A) :
  remove_nth (List.length l) (l ++ [x]) = l.
Proof.
  induction l as [| y rest IH]; [reflexivity |].
  cbn [List.length app remove_nth]. rewrite IH. reflexivity.
Qed.

Lemma page_step_awaited (env : vite_env) (h : host) (a : page_action) (p : page) :
  uploading_is_awaited (awaited_ids p) (component p) ->
  uploading_is_awaited (awaited_ids (page_step env h a p))
    (component (page_step env h a p)).
Proof.
  intros Hinv. destruct a as [a | k | j]; cbn [page_step].
  - apply step_uploading_is_awaited. exact Hinv.
  - unfold start_callback.
    destruct (nth_error (timers (component p)) k) as [entry |] eqn:Hk;
      [| exact Hinv].
    pose proof (ingestFileToAstra_same_timers env h (entry_file entry)
                  (set_timers (remove_nth k) (component p))) as Ht.
    destruct (ingestFileToAstra_returns env h (entry_file entry)
                (set_timers (remove_nth k) (component p)))
      as [r [st1 [Hing Hf1]]].
    unfold same_timers in Ht. rewrite Hing in Ht |- *.
    cbn [snd set_timers timers uploadedFiles] in Ht, Hf1.
    unfold uploading_is_awaited, awaited_ids. cbn [component in_flight].
    rewrite Ht, Hf1, map_app. cbn [map fst].
    intros e He Hs.
    destruct (JsString.eqb (entry_id e) (entry_id entry)) eqn:Heq.
    + apply eqb_eq in Heq. right. apply in_or_app. right. left.
      symmetry. exact Heq.
    + apply neqb_neq in Heq.
      destruct (Hinv e He Hs) as [Hin | Hin].
      * left. apply (In_map_remove_nth entry_id k (timers (component p)) entry);
          [exact Hk | congruence | exact Hin].
      * right. apply in_or_app. left. exact Hin.
  - unfold finish_callback.
    destruct (nth_error (in_flight p) j) as [[entry r] |] eqn:Hj; [| exact Hinv].
    pose proof (resume_callback_same_timers h entry r (component p)) as Ht.
    pose proof (resume_callback_run env h entry r (component p)) as Hall.
    unfold same_timers in Ht. fold (run (resume_callback h entry r) (component p)) in Ht.
    unfold uploading_is_awaited, awaited_ids. cbn [component in_flight].
    rewrite Ht. intros e' He' Hs.
    destruct (Forall2_In_right _ _ _ e' Hall He') as [e [He Hsettled]].
    destruct (JsString.eqb (entry_id e) (entry_id entry)) eqn:Heq.
    + apply eqb_eq in Heq.
      exfalso. exact (settled_not_uploading _ _ _ _ Hsettled Heq Hs).
    + apply neqb_neq in Heq. apply settled_cases in Hsettled.
      destruct Hsettled as [_ Hother]. rewrite (Hother Heq) in Hs |- *.
      destruct (Hinv e He Hs) as [Hin | Hin]; [left; exact Hin | right].
      apply (In_map_remove_nth (fun w => entry_id (fst w)) j (in_flight p)
               (entry, r)); [exact Hj | cbn [fst]; congruence | exact Hin].
Qed.

(** X13. Every entry the sidebar shows as uploading is waited for.  In
    every state the page can reach, also between the start of a timer
    callback and the state update that follows its awaited ingestion, the
    identifier of an entry with the status ['uploading'] is that of a pending
    timer or of a callback in flight.  A callback that starts and goes on
    with nothing in between does what [fire_timer] does in one step. *)
Theorem uploading_entries_are_awaited (env : vite_env) (h : host) :
  (forall p,
     page_reachable env h p ->
     forall e, In e (uploadedFiles (component p)) ->
               entry_status e = status_uploading ->
               In (entry_id e) (map entry_id (timers (component p)))
               \/ In (entry_id e) (awaited_ids p))
  /\ (forall p k entry,
        nth_error (timers (component p)) k = Some entry ->
        page_step env h (CallbackResumes (List.length (in_flight p)))
          (page_step env h (TimerStarts k) p)
        = page_step env h (Handler (TimerFired k)) p).
Proof.
  split.
  - intros p Hreach. change (uploading_is_awaited (awaited_ids p) (component p)).
    induction Hreach as [| a p Hreach IH].
    + unfold uploading_is_awaited, loaded. cbn [component].
      rewrite mount_uploadedFiles. contradiction.
    + apply page_step_awaited. exact IH.
  - intros p k entry Hk. cbn [page_step]. unfold start_callback. rewrite Hk.
    destruct (ingestFileToAstra_returns env h (entry_file entry)
                (set_timers (remove_nth k) (component p)))
      as [r [st1 [Hing _]]].
    rewrite Hing. unfold finish_callback. cbn [in_flight component].
    rewrite nth_error_last, remove_nth_last.
    rewrite (fire_timer_step env h k entry (component p) Hk).
    rewrite (timer_callback_resumed env h entry r _ st1 Hing).
    reflexivity.
Qed.

Lemma uploading_entries_are_awaited_witness :
  let env := Sample.configured in
  let h := Sample.browser (Sample.reply true 200 (VObj [])) Sample.text_plain_ABC in
  let p := page_steps env h
             [Handler (FilesSelected (Some [Sample.notes_txt; Sample.notes_txt]));
              TimerStarts 0] (loaded h) in
  let e := uploading_entry (of_N 1) Sample.notes_txt 2 in
  (In (entry_id e) (map entry_id (timers (component p)))
   \/ In (entry_id e) (awaited_ids p))
  /\ map entry_id (timers (component p)) = [of_N 3]
  /\ awaited_ids p = [of_N 1]
  /\ page_step env h (CallbackResumes 1) (page_step env h (TimerStarts 0) p)
     = page_step env h (Handler (TimerFired 0)) p.
Proof.
  intros env h p e.
  destruct (uploading_entries_are_awaited env h) as [Hawaited Hatomic].
  split; [| split; [| split]].
  - apply (Hawaited p).
    + subst p. cbn [page_steps fold_left].
      apply page_moved, page_moved, page_loaded.
    + vm_compute. left. reflexivity.
    + reflexivity.
  - vm_compute. reflexivity.
  - vm_compute. reflexivity.
  - apply (Hatomic p 0 (uploading_entry (of_N 3) Sample.notes_txt 4)).
    vm_compute. reflexivity.
Defined.

(** ** Settled entries are final *)

Lemma drawn_later (h : host) (k k' : nat) (l : list file_entry) :
  k <= k' ->
  Forall (fun t => exists i, i < k /\ entry_id t = makeId_at h i) l ->
  Forall (fun t => exists i, i < k' /\ entry_id t = makeId_at h i) l.
Proof.
  intros Hk. apply Forall_impl. intros t [i [Hi Ht]].
  exists i. split; [lia | exact Ht].
Qed.

Lemma In_map_remove_nth_inv {A B : Type} (f : A -> B) (k : nat) (l : list A)
    (x : B) :
  In x (map f (remove_nth k l)) -> In x (map f l).
Proof.
  intros Hin. apply in_map_iff in Hin. destruct Hin as [y [Hy Hin]].
  apply in_map_iff. exists y. split; [exact Hy | exact (In_remove_nth k l y Hin)].
Qed.

Lemma Forall_remove_nth {A : Type} (P : A -> Prop) (k : nat) (l : list A) :
  Forall P l -> Forall P (remove_nth k l).
Proof.
  rewrite !Forall_forall. intros Hall x Hx. apply Hall.
  exact (In_remove_nth k l x Hx).
Qed.

Lemma fresh_entries_apart (h : host) (files : list file) (k : nat)
    (l : list file_entry) (x : jsstring) :
  (forall i j, makeId_at h i = makeId_at h j -> i = j) ->
  Forall (fun t => exists i, i < k /\ entry_id t = makeId_at h i) l ->
  In x (map entry_id l) ->
  ~ In x (map entry_id (entries_at h files k)).
Proof.
  intros Hinj Hold Hx1 Hx2.
  apply in_map_iff in Hx1. destruct Hx1 as [e1 [He1 Hin1]].
  apply in_map_iff in Hx2. destruct Hx2 as [e2 [He2 Hin2]].
  pose proof (entries_at_ids h files k) as Hnew.
  rewrite Forall_forall in Hold, Hnew.
  destruct (Hold e1 Hin1) as [i [Hi Hid1]].
  destruct (Hnew e2 Hin2) as [j [Hj Hid2]].
  assert (i = j) by (apply Hinj; congruence). lia.
Qed.

Lemma step_timers_drawn (env : vite_env) (h : host) (a : action) (st : state) :
  (forall i j, makeId_at h i = makeId_at h j -> i = j) ->
  ids_drawn h st -> timers_drawn h st -> timers_drawn h (step env h a st).
Proof.
  intros Hinj [_ Hfiles] [Hnd [Hdrawn Hfinal]].
  pose proof (handle_later env h a st) as Hlater. unfold later in Hlater.
  change (tick st <= tick (step env h a st)) in Hlater.
  pose proof (step_timers env h a st) as Ht.
  pose proof (handle_same_files env h a) as Hf.
  assert (Hkeep : timers (step env h a st) = timers st ->
                  (forall e, In e (uploadedFiles (step env h a st)) ->
                             In e (uploadedFiles st)) ->
                  timers_drawn h (step env h a st)).
  { intros Heq Hsub. unfold timers_drawn. rewrite Heq.
    split; [exact Hnd | split; [exact (drawn_later h _ _ _ Hlater Hdrawn) |]].
    intros e He. apply Hfinal. exact (Hsub e He). }
  destruct a as [[[| f rest] |] | k | fileId | | request opts | | |];
    try (apply Hkeep; [exact Ht |];
         specialize (Hf st); unfold same_files in Hf;
         unfold step, run; rewrite Hf; tauto).
  - apply Hkeep; [reflexivity | tauto].
  - destruct Ht as [Ht Hnew].
    destruct (handleFilesSelected_run h f rest st) as [_ [_ [_ Hk]]].
    change (tick (step env h (FilesSelected (Some (f :: rest))) st)
            = List.length (entries_at h (f :: rest) (tick st))
              + (List.length (f :: rest) * S (id_cost h) + tick st)) in Hk.
    unfold timers_drawn. rewrite Ht, Hnew, map_app. split; [| split].
    + apply NoDup_app; [exact Hnd | apply entries_at_NoDup; exact Hinj |].
      intros x Hx. exact (fresh_entries_apart h _ _ _ x Hinj Hdrawn Hx).
    + apply Forall_app. split; [exact (drawn_later h _ _ _ Hlater Hdrawn) |].
      eapply Forall_impl; [| apply entries_at_ids]. cbn beta.
      intros e [i [Hi He]]. exists i. split; [lia | exact He].
    + intros e He Hs Hin. apply in_app_or in He. apply in_app_or in Hin.
      destruct He as [He | He].
      * destruct Hin as [Hin | Hin]; [exact (Hfinal e He Hs Hin) |].
        apply (fresh_entries_apart h (f :: rest) (tick st) (uploadedFiles st)
                 (entry_id e) Hinj Hfiles); [apply in_map; exact He | exact Hin].
      * pose proof (entries_at_uploading h (f :: rest) (tick st)) as Hup.
        rewrite Forall_forall in Hup. exact (Hs (Hup e He)).
  - apply Hkeep; [reflexivity | tauto].
  - destruct (nth_error (timers st) k) as [entry |] eqn:Hk.
    + unfold timers_drawn. rewrite Ht.
      destruct (NoDup_map_remove_nth entry_id k (timers st) entry Hnd Hk)
        as [Hnd' Hgone].
      split; [exact Hnd' | split].
      * apply Forall_remove_nth. exact (drawn_later h _ _ _ Hlater Hdrawn).
      * rewrite (fire_timer_step env h k entry st Hk).
        destruct (timer_callback_run env h entry (set_timers (remove_nth k) st))
          as [r [st1 [_ Hall]]].
        cbn [set_timers uploadedFiles] in Hall.
        intros e' He' Hs Hin.
        destruct (Forall2_In_right _ _ _ e' Hall He') as [e [He Hsettled]].
        destruct (JsString.eqb (entry_id e) (entry_id entry)) eqn:Heq.
        -- apply eqb_eq in Heq. apply Hgone.
           rewrite <- Heq, <- (settled_id _ _ _ _ Hsettled). exact Hin.
        -- apply neqb_neq in Heq. apply settled_cases in Hsettled.
           destruct Hsettled as [_ Hother]. rewrite (Hother Heq) in Hs, Hin.
           apply (Hfinal e He Hs). exact (In_map_remove_nth_inv _ _ _ _ Hin).
    + apply Hkeep.
      * rewrite Ht. apply remove_nth_beyond. exact Hk.
      * unfold step, run, handle, fire_timer. exec. rewrite Hk. tauto.
  - apply Hkeep; [exact Ht |].
    intros e He. unfold step, run, handle, handleRemoveFile, update in He.
    cbn in He. apply filter_In in He. tauto.
Qed.

Lemma reachable_drawn (env : vite_env) (h : host) (st : state) :
  (forall i j, makeId_at h i = makeId_at h j -> i = j) ->
  reachable env h st -> ids_drawn h st /\ timers_drawn h st.
Proof.
  intros Hinj. induction 1 as [| a st Hreach [IHf IHt]].
  - split; [apply mount_ids_drawn |].
    unfold timers_drawn. rewrite mount_run. cbn [set_sessionRef timers uploadedFiles].
    rewrite timers_advance, uploadedFiles_advance. cbn.
    split; [constructor | split; [constructor | tauto]].
  - split; [apply step_ids_drawn | apply step_timers_drawn]; assumption.
Qed.

(** X14. As long as [makeId] never returns the same value twice, a settled
    entry is final: in a reachable state, an entry whose status is no longer
    ['uploading'] is still in the list, unchanged, after any action, unless
    the action is the removal of that very entry. *)
Theorem settled_entries_are_final
    (env : vite_env) (h : host) (st : state) (a : action) (e : file_entry) :
  (forall i j, makeId_at h i = makeId_at h j -> i = j) ->
  reachable env h st ->
  In e (uploadedFiles st) ->
  entry_status e <> status_uploading ->
  In e (uploadedFiles (step env h a st)) \/ a = RemoveFile (entry_id e).
Proof.
  intros Hinj Hreach He Hs.
  destruct (reachable_drawn env h st Hinj Hreach) as [_ [_ [_ Hfinal]]].
  pose proof (handle_same_files env h a) as Hf.
  destruct a as [files | k | fileId | | request opts | | |];
    try (left; specialize (Hf st); unfold same_files in Hf;
         unfold step, run; rewrite Hf; exact He).
  - left. destruct files as [[| f rest] |]; try exact He.
    destruct (handleFilesSelected_run h f rest st) as [Hnew _].
    change (uploadedFiles (step env h (FilesSelected (Some (f :: rest))) st)
            = uploadedFiles st ++ entries_at h (f :: rest) (tick st)) in Hnew.
    rewrite Hnew. apply in_or_app. left. exact He.
  - left. destruct (nth_error (timers st) k) as [entry |] eqn:Hk.
    + rewrite (fire_timer_step env h k entry st Hk).
      destruct (timer_callback_run env h entry (set_timers (remove_nth k) st))
        as [r [st1 [_ Hall]]].
      cbn [set_timers uploadedFiles] in Hall.
      destruct (Forall2_In_left _ _ _ e Hall He) as [e' [He' Hsettled]].
      apply settled_cases in Hsettled. destruct Hsettled as [_ Hother].
      rewrite <- Hother; [exact He' |].
      intros Heq. apply (Hfinal e He Hs). rewrite Heq.
      apply in_map. exact (nth_error_In _ _ Hk).
    + unfold step, run, handle, fire_timer. exec. rewrite Hk. exact He.
  - destruct (JsString.eqb (entry_id e) fileId) eqn:Heq.
    + right. apply eqb_eq in Heq. rewrite Heq. reflexivity.
    + left. unfold step, run, handle, handleRemoveFile, update. cbn.
      apply filter_In. split; [exact He |]. rewrite Heq. reflexivity.
Qed.

Lemma settled_entries_are_final_witness :
  let env := Sample.configured in
  let h := Sample.browser (Sample.reply true 200 (VObj [])) Sample.text_plain_ABC in
  let st := steps env h
              [FilesSelected (Some [Sample.notes_txt; Sample.notes_txt]);
               TimerFired 0] (mount h) in
  let e := completed (uploading_entry (of_N 1) Sample.notes_txt 2) 10 (VObj []) in
  In e (uploadedFiles st)
  /\ (In e (uploadedFiles (step env h (TimerFired 0) st))
      \/ TimerFired 0 = RemoveFile (entry_id e)).
Proof.
  intros env h st e.
  assert (Hin : In e (uploadedFiles st)) by (vm_compute; left; reflexivity).
  split; [exact Hin |].
  apply (settled_entries_are_final env h st (TimerFired 0) e).
  - intros i j Hij. cbn in Hij. apply of_N_injective in Hij. lia.
  - subst st. cbn [steps fold_left].
    apply reachable_step, reachable_step, reachable_mount.
  - exact Hin.
  - vm_compute. discriminate.
Defined.

(** ** The connection test and its banner *)

Lemma testAstraConnection_configured_status
    (env : vite_env) (h : host) (st : state) :
  astra_config_missing env = false ->
  let out := testAstraConnection env h st in
  fst out = Normal tt
  /\ astraConnectionStatus (snd out)
     = match fetch_outcome h (tick st) (find_request env) with
       | Normal response =>
           if resp_ok response then
             {| checked := true; success := true;
                status_message :=
                  lit "Successfully connected to Astra DB collection." |}
           else
             {| checked := true; success := false;
                status_message :=
                  match resp_text response with
                  | Normal txt => find_failure response txt
                  | Throw e => error_message e
                  end |}
       | Throw e =>
           {| checked := true; success := false;
              status_message := error_message e |}
       end.
Proof.
  intros Hc out. subst out. unfold testAstraConnection. rewrite Hc. exec.
  destruct (fetch_outcome h (tick st) (find_request env)) as [response | e];
    exec; [| split; reflexivity].
  destruct (resp_ok response); exec; [split; reflexivity |].
  destruct (resp_text response) as [txt | e]; exec; split; reflexivity.
Qed.

(** X15. [testAstraConnection] never rejects and always ends with the status
    checked.  The status is a success exactly when the configuration is
    complete and the [findOne] request was answered with a success status;
    then the banner has the success class.  With a value missing the message
    is the configuration message; a request that fails gives the message of
    its error, and an answer without success status gives "status statusText
    text". *)
Theorem connection_test_verdict (env : vite_env) (h : host) (st : state) :
  let out := testAstraConnection env h st in
  let verdict := astraConnectionStatus (snd out) in
  fst out = Normal tt
  /\ checked verdict = true
  /\ (success verdict = true <->
      astra_config_missing env = false
      /\ exists response,
           fetch_outcome h (tick st) (find_request env) = Normal response
           /\ resp_ok response = true)
  /\ (success verdict = true ->
      render_connection verdict
      = Some (lit "sidebar__connection sidebar__connection--success",
              lit "Successfully connected to Astra DB collection."))
  /\ (astra_config_missing env = true ->
      status_message verdict = astra_missing_message)
  /\ (astra_config_missing env = false ->
      (forall e, fetch_outcome h (tick st) (find_request env) = Throw e ->
                 status_message verdict = error_message e)
      /\ (forall response txt,
            fetch_outcome h (tick st) (find_request env) = Normal response ->
            resp_ok response = false ->
            resp_text response = Normal txt ->
            status_message verdict = find_failure response txt)).
Proof.
  intros out verdict. subst verdict out.
  destruct (astra_config_missing env) eqn:Hc.
  - unfold testAstraConnection. rewrite Hc. cbn.
    repeat split; try discriminate. intros [H _]. discriminate H.
  - destruct (testAstraConnection_configured_status env h st Hc) as [Hfst Hst].
    cbv zeta in Hfst, Hst. rewrite Hst. split; [exact Hfst |].
    destruct (fetch_outcome h (tick st) (find_request env))
      as [response | e] eqn:Hf.
    + destruct (resp_ok response) eqn:Hok; cbn [checked success status_message].
      * split; [reflexivity |]. split; [| split; [| split; [discriminate |]]].
        -- split; [| reflexivity]. intros _. split; [reflexivity |].
           exists response. split; [reflexivity | exact Hok].
        -- intros _. reflexivity.
        -- intros _. split; [discriminate |].
           intros response' txt H. inversion H; subst response'. congruence.
      * split; [reflexivity |]. split; [| split; [| split; [discriminate |]]].
        -- split; [discriminate |].
           intros [_ [response' [H Hok']]]. inversion H; subst response'.
           congruence.
        -- discriminate.
        -- intros _. split; [discriminate |].
           intros response' txt H _ Htxt. inversion H; subst response'.
           rewrite Htxt. reflexivity.
    + cbn [checked success status_message].
      split; [reflexivity |]. split; [| split; [| split; [discriminate |]]].
      * split; [discriminate |]. intros [_ [response [H _]]]. discriminate H.
      * discriminate.
      * intros _. split; [| discriminate].
        intros e' H. inversion H. reflexivity.
Qed.

Lemma connection_test_verdict_witness :
  let env := Sample.configured in
  let h := Sample.browser (Sample.reply false 401 VNull) Sample.text_plain_ABC in
  status_message (astraConnectionStatus (snd (testAstraConnection env h (mount h))))
  = of_N 401 ++ lit " " ++ lit "" ++ lit " " ++ lit "".
Proof.
  intros env h.
  destruct (connection_test_verdict env h (mount h))
    as [_ [_ [_ [_ [_ Hconf]]]]].
  destruct (Hconf eq_refl) as [_ Hbad].
  apply (Hbad (Sample.reply false 401 VNull) (lit "")); reflexivity.
Defined.

Lemma same_connection_refl (st : state) : same_connection st st.
Proof. reflexivity. Qed.

Lemma same_connection_trans (a b c : state) :
  same_connection a b -> same_connection b c -> same_connection a c.
Proof. unfold same_connection. congruence. Qed.

Lemma handle_same_connection (env : vite_env) (h : host) (a : action) :
  a <> TestAstraConnection -> respects same_connection (handle env h a).
Proof.
  intros Ha. destruct a; try congruence; open_handlers;
    frame_rules same_connection_refl same_connection_trans;
    intros; reflexivity.
Qed.

(** X16. The connection banner is hidden when the component mounts, appears
    with the first connection test and never goes away: after any action the
    banner is hidden exactly when it was hidden before and the action was no
    connection test; any other action leaves its content as it was. *)
Theorem connection_banner_stays (env : vite_env) (h : host) (a : action)
    (st : state) :
  render_connection (astraConnectionStatus (mount h)) = None
  /\ (render_connection (astraConnectionStatus (step env h a st)) = None <->
      render_connection (astraConnectionStatus st) = None
      /\ a <> TestAstraConnection)
  /\ (a <> TestAstraConnection ->
      render_connection (astraConnectionStatus (step env h a st))
      = render_connection (astraConnectionStatus st)).
Proof.
  split; [| split].
  - rewrite mount_run. cbn [set_sessionRef astraConnectionStatus].
    assert (Hadv : forall n st0, astraConnectionStatus (advance n st0)
                                 = astraConnectionStatus st0).
    { intros n st0. induction n as [| n IH]; [reflexivity | exact IH]. }
    rewrite Hadv. reflexivity.
  - destruct a;
      try (match goal with
           | |- context [step env h ?a st] =>
               pose proof (handle_same_connection env h a ltac:(discriminate) st)
                 as Hs
           end;
           unfold same_connection in Hs; unfold step, run; rewrite Hs;
           split; [intros H; split; [exact H | discriminate] | tauto]).
    assert (Hc : checked (astraConnectionStatus
                            (snd (testAstraConnection env h st))) = true).
    { destruct (astra_config_missing env) eqn:Hm.
      - unfold testAstraConnection. rewrite Hm. reflexivity.
      - destruct (testAstraConnection_configured_status env h st Hm) as [_ Hst].
        cbv zeta in Hst. rewrite Hst.
        destruct (fetch_outcome h (tick st) (find_request env)) as [response | e];
          [destruct (resp_ok response) |]; reflexivity. }
    change (step env h TestAstraConnection st)
      with (snd (testAstraConnection env h st)).
    unfold render_connection at 1. rewrite Hc.
    split; [discriminate | intros [_ H]; contradiction].
  - intros Ha.
    pose proof (handle_same_connection env h a Ha st) as Hs.
    unfold same_connection in Hs. unfold step, run. rewrite Hs. reflexivity.
Qed.

(** ** The RESET registration *)

Lemma handleBeforeRender_registers (h : host) (st : state) :
  snd (handleBeforeRender st)
  = if resetRegisteredRef st then st
    else register_reset regenerateSessionId_handler st.
Proof.
  unfold handleBeforeRender. exec.
  destruct (resetRegisteredRef st); reflexivity.
Qed.

(** X17. [handleBeforeRender] registers the RESET handler once: calling it
    again changes nothing, in every reachable state at most one handler is
    registered, and one RESET event therefore draws at most one new session
    identifier. *)
Theorem reset_handler_is_registered_once (env : vite_env) (h : host) :
  (forall st : state,
     step env h BeforeRender (step env h BeforeRender st)
     = step env h BeforeRender st)
  /\ (forall st : state,
        reachable env h st ->
        List.length (reset_handlers st) <= 1
        /\ reset_handlers (step env h BeforeRender st)
           = [regenerateSessionId_handler]
        /\ tick (step env h BusReset st) <= id_cost h + tick st).
Proof.
  split.
  - intros st. unfold step, run, handle.
    rewrite !(handleBeforeRender_registers h).
    destruct (resetRegisteredRef st) eqn:Hreg.
    + rewrite Hreg. reflexivity.
    + reflexivity.
  - intros st Hreach. pose proof (reachable_bus env h st Hreach) as Hbus.
    split; [| split].
    + rewrite Hbus. destruct (resetRegisteredRef st); cbn; lia.
    + unfold step, run, handle. rewrite (handleBeforeRender_registers h).
      destruct (resetRegisteredRef st) eqn:Hreg; [exact Hbus |].
      cbn [register_reset reset_handlers]. rewrite Hbus. reflexivity.
    + unfold step, run, handle, bus_reset. exec. rewrite Hbus.
      destruct (resetRegisteredRef st); cbn [forEach run_handler].
      * unfold regenerateSessionId.
        rewrite bind_unfold, bind_unfold, createSessionId_run. exec.
        cbn [snd set_sessionRef tick]. rewrite tick_advance. lia.
      * cbn. lia.
Qed.

Lemma reset_handler_is_registered_once_witness :
  let env := Sample.configured in
  let h := Sample.browser (Sample.reply true 200 (VObj [])) Sample.text_plain_ABC in
  let st := steps env h [BeforeRender; BeforeRender; BeforeRender] (mount h) in
  reset_handlers st = [regenerateSessionId_handler]
  /\ List.length (reset_handlers st) <= 1.
Proof.
  intros env h st.
  destruct (reset_handler_is_registered_once env h) as [_ Honce].
  destruct (Honce st) as [Hlen _].
  - subst st. cbn [steps fold_left].
    repeat apply reachable_step. apply reachable_mount.
  - split; [reflexivity | exact Hlen].
Defined.

Lemma reachable_steps (env : vite_env) (h : host) (acts : list action)
    (st : state) :
  reachable env h st -> reachable env h (steps env h acts st).
Proof.
  revert st. induction acts as [| a rest IH]; intros st Hreach; [exact Hreach |].
  cbn [steps fold_left]. apply IH. apply reachable_step. exact Hreach.
Qed.

Lemma steps_app (env : vite_env) (h : host) (acts acts' : list action)
    (st : state) :
  steps env h (acts ++ acts') st = steps env h acts' (steps env h acts st).
Proof. unfold steps. apply fold_left_app. Qed.

Lemma registration_stays (env : vite_env) (h : host) (a : action) (st : state) :
  resetRegisteredRef st = true -> resetRegisteredRef (step env h a st) = true.
Proof.
  intros Hreg. destruct a;
    try (match goal with
         | |- context [step env h ?a st] =>
             destruct (handle_same_bus env h a ltac:(discriminate) st)
               as [_ H2];
             fold (run (handle env h a) st) in H2;
             fold (step env h a st) in H2; rewrite H2; exact Hreg
         end).
  unfold step, run, handle. rewrite (handleBeforeRender_registers h), Hreg.
  exact Hreg.
Qed.

(** A RESET in a reachable state: the identifier drawn at that moment when
    the handler is registered, the old one otherwise. *)
Lemma reset_step_session (env : vite_env) (h : host) (st : state) :
  reachable env h st ->
  sessionRef (step env h BusReset st)
  = if resetRegisteredRef st then createSessionId_at h (tick st)
    else sessionRef st.
Proof.
  intros Hreach. unfold step, run, handle.
  rewrite bus_reset_run, (reachable_bus env h st Hreach).
  destruct (resetRegisteredRef st); reflexivity.
Qed.

(** As long as the RESET handler is not registered, the identifier is the
    one drawn when the component mounted. *)
Lemma unregistered_session (env : vite_env) (h : host) (acts : list action) :
  resetRegisteredRef (steps env h acts (mount h)) = false ->
  sessionRef (steps env h acts (mount h)) = createSessionId_at h 0.
Proof.
  induction acts as [| a acts IH] using rev_ind.
  - intros _. cbn [steps fold_left]. rewrite mount_run. reflexivity.
  - rewrite steps_app. cbn [steps fold_left].
    fold (steps env h acts (mount h)).
    set (st := steps env h acts (mount h)) in *.
    intros Hoff.
    assert (Hbefore : resetRegisteredRef st = false).
    { destruct (resetRegisteredRef st) eqn:Hreg; [| reflexivity].
      rewrite (registration_stays env h a st Hreg) in Hoff. discriminate Hoff. }
    rewrite <- (IH Hbefore).
    destruct a;
      try (match goal with
           | |- sessionRef (step env h ?a st) = _ =>
               exact (handle_same_session env h a ltac:(discriminate) st)
           end).
    rewrite reset_step_session, Hbefore; [reflexivity |].
    apply reachable_steps, reachable_mount.
Qed.

(** X18. The session identifier is always the latest one drawn: over a run
    from the mount that holds no RESET it is the value [createSessionId]
    returned when the component mounted; after a RESET that found the
    handler registered, and any actions but a RESET after it, it is the
    value [createSessionId] returned at that RESET; and a RESET that found
    no handler registered leaves the value drawn at the mount. *)
Theorem session_id_is_generated (env : vite_env) (h : host) :
  (forall acts,
     ~ In BusReset acts ->
     sessionRef (steps env h acts (mount h)) = createSessionId_at h 0)
  /\ (forall before after,
        ~ In BusReset after ->
        let st := steps env h before (mount h) in
        sessionRef (steps env h (before ++ BusReset :: after) (mount h))
        = if resetRegisteredRef st then createSessionId_at h (tick st)
          else createSessionId_at h 0).
Proof.
  split.
  - intros acts Hno.
    destruct (steps_keep_session env h acts (mount h) Hno) as [-> _].
    rewrite mount_run. reflexivity.
  - intros before after Hno st.
    rewrite steps_app. cbn [steps fold_left].
    fold (steps env h after (step env h BusReset (steps env h before (mount h)))).
    fold st.
    destruct (steps_keep_session env h after (step env h BusReset st) Hno)
      as [-> _].
    rewrite reset_step_session by (apply reachable_steps, reachable_mount).
    destruct (resetRegisteredRef st) eqn:Hreg; [reflexivity |].
    apply unregistered_session. exact Hreg.
Qed.

Lemma session_id_is_generated_witness :
  let env := Sample.configured in
  let h := Sample.browser (Sample.reply true 200 (VObj [])) Sample.text_plain_ABC in
  let turn := SendMessage (Sample.request_with "hi") None in
  sessionRef (steps env h [BeforeRender; turn; TestAstraConnection] (mount h))
  = of_N 0
  /\ sessionRef (steps env h ([BeforeRender; turn; BusReset; turn] ++
                              BusReset :: [turn; Rerender]) (mount h))
     = of_N 12
  /\ sessionRef (steps env h ([turn] ++ BusReset :: [BeforeRender; turn]) (mount h))
     = of_N 0.
Proof.
  intros env h turn.
  destruct (session_id_is_generated env h) as [Hmount Hreset].
  split; [| split].
  - apply Hmount. cbn [In]. intuition discriminate.
  - rewrite Hreset by (cbn [In]; intuition discriminate).
    vm_compute. reflexivity.
  - rewrite Hreset by (cbn [In]; intuition discriminate).
    vm_compute. reflexivity.
Defined.

(** ** The base64 part of a data URL *)

Lemma split_comma_fields (s : jsstring) :
  Forall (fun field => ~ In comma field) (split_comma s).
Proof.
  induction s as [| c r IH]; cbn [split_comma].
  - constructor; [tauto | constructor].
  - destruct (N.eqb_spec c comma) as [-> | Hne].
    + constructor; [tauto | exact IH].
    + destruct (split_comma r) as [| f fs]; constructor.
      * intros [H | []]. congruence.
      * constructor.
      * inversion IH; subst. intros [H | H]; [congruence | contradiction].
      * inversion IH; subst. assumption.
Qed.

Lemma split_comma_nonempty (s : jsstring) : split_comma s <> [].
Proof.
  destruct s as [| c r]; cbn [split_comma]; [discriminate |].
  destruct (N.eqb c comma); [discriminate |].
  destruct (split_comma r); discriminate.
Qed.

Lemma split_comma_single (s x : jsstring) :
  split_comma s = [x] -> x = s.
Proof.
  revert x. induction s as [| c r IH]; cbn [split_comma]; intros x H.
  - inversion H. reflexivity.
  - destruct (N.eqb c comma).
    { exfalso. inversion H as [[Hx Hr]]. exact (split_comma_nonempty r Hr). }
    destruct (split_comma r) as [| f fs] eqn:Hr.
    + exfalso. exact (split_comma_nonempty r Hr).
    + inversion H; subst. f_equal. apply IH. reflexivity.
Qed.

(** X19. The content [readFileAsBase64] resolves with never contains a
    comma: a reader result without comma is passed on whole, otherwise the
    content is what stands between the first comma and the next.  For the
    data URL of an empty file, which ends in its comma, the content is the
    empty string, not the URL. *)
Theorem base64_content_has_no_comma (result : jsstring) :
  Forall (fun c => c <> comma) (base64_of result)
  /\ (Forall (fun c => c <> comma) result -> base64_of result = result)
  /\ (forall header rest,
        Forall (fun c => c <> comma) header ->
        result = header ++ comma :: rest ->
        exists tail, rest = base64_of result ++ tail
                     /\ (tail = [] \/ exists more, tail = comma :: more)).
Proof.
  assert (Hno : forall l : jsstring, Forall (fun c => c <> comma) l <-> ~ In comma l).
  { intros l. rewrite Forall_forall. split.
    - intros H Hin. exact (H comma Hin eq_refl).
    - intros H c Hc ->. exact (H Hc). }
  split; [| split].
  - apply Hno. unfold base64_of.
    pose proof (split_comma_fields result) as Hf.
    destruct (split_comma result) as [| a [| b more]] eqn:Hs.
    + exfalso. exact (split_comma_nonempty result Hs).
    + rewrite <- (split_comma_single result a Hs). inversion Hf; assumption.
    + inversion Hf as [| ? ? _ Hf']; subst. inversion Hf'; assumption.
  - intros Hplain. apply Hno in Hplain. unfold base64_of.
    rewrite split_comma_plain by exact Hplain. reflexivity.
  - intros header rest Hh ->. apply Hno in Hh. unfold base64_of.
    rewrite split_comma_first by exact Hh.
    assert (Hrest : forall r : jsstring,
               exists field fields,
                 split_comma r = field :: fields
                 /\ exists tail, r = field ++ tail
                                 /\ (tail = [] \/ exists more, tail = comma :: more)).
    { induction r as [| c r IH]; cbn [split_comma].
      - exists [], []. split; [reflexivity |]. exists []. split; [reflexivity | tauto].
      - destruct (N.eqb_spec c comma) as [-> | Hne].
        + eexists [], _. split; [reflexivity |].
          exists (comma :: r). split; [reflexivity |]. right. eexists. reflexivity.
        + destruct IH as [field [fields [Hs [tail [Hr Ht]]]]]. rewrite Hs.
          eexists (c :: field), fields. split; [reflexivity |].
          exists tail. split; [cbn; f_equal; exact Hr | exact Ht]. }
    destruct (Hrest rest) as [field [fields [Hs [tail [Hr Ht]]]]].
    rewrite Hs. exists tail. split; assumption.
Qed.

Lemma base64_content_has_no_comma_witness :
  base64_of (lit "data:application/octet-stream;base64,") = lit ""
  /\ base64_of (lit "QUJD") = lit "QUJD".
Proof.
  destruct (base64_content_has_no_comma (lit "data:application/octet-stream;base64,"))
    as [_ [_ Hurl]].
  destruct (base64_content_has_no_comma (lit "QUJD")) as [_ [Hplain _]].
  split.
  - destruct (Hurl (lit "data:application/octet-stream;base64") [])
      as [tail [Hrest _]].
    + repeat constructor; vm_compute; discriminate.
    + reflexivity.
    + destruct (base64_of (lit "data:application/octet-stream;base64,"));
        [reflexivity | discriminate Hrest].
  - apply Hplain. repeat constructor; vm_compute; discriminate.
Defined.

(** ** What the sidebar shows *)

Lemma reachable_known_status (env : vite_env) (h : host) (st : state) :
  reachable env h st ->
  forall e, In e (uploadedFiles st) -> known_status (entry_status e).
Proof.
  induction 1 as [| a st Hreach IH]; intros e He.
  - rewrite mount_uploadedFiles in He. contradiction.
  - destruct (step_files env h a st) as [Hk | files Ha _ | entry r Hs | fileId Hr].
    + rewrite Hk in He. exact (IH e He).
    + rewrite Ha in He. apply in_app_or in He. destruct He as [He | He].
      * exact (IH e He).
      * pose proof (entries_at_uploading h files (tick st)) as Hup.
        rewrite Forall_forall in Hup. left. exact (Hup e He).
    + destruct (Forall2_In_right _ _ _ e Hs He) as [e0 [He0 Hsettled]].
      exact (settled_status _ _ _ _ Hsettled (IH e0 He0)).
    + rewrite Hr in He. apply filter_In in He. apply IH. tauto.
Qed.

(** X20. In every reachable state the sidebar tells the three statuses
    apart: an entry shows the "Uploading" label and the progress bar exactly
    when its status is ['uploading'], the red "Failed" tag and an error text
    exactly when it is ['error'], and the green "Uploaded" tag exactly when
    it is ['complete']. *)
Theorem sidebar_tag_matches_status
    (env : vite_env) (h : host) (st : state) (e : file_entry) :
  reachable env h st ->
  In e (uploadedFiles st) ->
  let v := render_item e in
  (view_control v = UploadingLabel <-> entry_status e = status_uploading)
  /\ (view_progress v = true <-> entry_status e = status_uploading)
  /\ (view_control v = FailedTag <-> entry_status e = status_error)
  /\ (view_error v <> None <-> entry_status e = status_error)
  /\ (view_control v = UploadedTag <-> entry_status e = status_complete).
Proof.
  intros Hreach He v. subst v.
  pose proof (reachable_known_status env h st Hreach e He) as Hknown.
  unfold render_item.
  cbn [view_control view_progress view_error].
  destruct Hknown as [-> | [-> | ->]]; vm_compute;
    repeat split; intros H; try discriminate H; try reflexivity;
    try discriminate; try (exfalso; apply H; reflexivity).
Qed.

Lemma sidebar_tag_matches_status_witness :
  let env := Sample.configured in
  let h := Sample.browser (Sample.reply true 200 (VObj [])) Sample.text_plain_ABC in
  let st := steps env h
              [FilesSelected (Some [Sample.notes_txt; Sample.notes_txt]);
               TimerFired 0] (mount h) in
  let e := completed (uploading_entry (of_N 1) Sample.notes_txt 2) 10 (VObj []) in
  view_control (render_item e) = UploadedTag <-> entry_status e = status_complete.
Proof.
  intros env h st e.
  destruct (sidebar_tag_matches_status env h st e) as [_ [_ [_ [_ H]]]].
  - subst st. cbn [steps fold_left].
    apply reachable_step, reachable_step, reachable_mount.
  - vm_compute. left. reflexivity.
  - exact H.
Defined.

(** X21. The list area of the sidebar shows the placeholder exactly when no
    file is in the list, and otherwise one article per entry, in the order of
    the list, under the entry's name; as long as [makeId] never returns the
    same value twice, the React keys of the articles of a reachable state
    are pairwise distinct. *)
Theorem sidebar_lists_every_entry (env : vite_env) (h : host) (st : state) :
  (forall i j, makeId_at h i = makeId_at h j -> i = j) ->
  reachable env h st ->
  match render_list (uploadedFiles st) with
  | EmptyPlaceholder => uploadedFiles st = []
  | Articles items =>
      uploadedFiles st <> []
      /\ map view_name items = map entry_name (uploadedFiles st)
      /\ map view_key items = map entry_id (uploadedFiles st)
      /\ NoDup (map view_key items)
  end.
Proof.
  intros Hinj Hreach.
  destruct (reachable_drawn env h st Hinj Hreach) as [[Hnd _] _].
  unfold render_list. destruct (uploadedFiles st) as [| e rest]; [reflexivity |].
  cbn [List.length Nat.eqb].
  assert (Hkeys : forall l, map view_key (map render_item l) = map entry_id l).
  { intros l. rewrite map_map. reflexivity. }
  split; [discriminate | split; [| split]].
  - rewrite map_map. reflexivity.
  - apply Hkeys.
  - rewrite Hkeys. exact Hnd.
Qed.

Lemma sidebar_lists_every_entry_witness :
  let env := Sample.configured in
  let h := Sample.browser (Sample.reply true 200 (VObj [])) Sample.text_plain_ABC in
  let st := steps env h
              [FilesSelected (Some [Sample.notes_txt; Sample.notes_txt])]
              (mount h) in
  match render_list (uploadedFiles st) with
  | EmptyPlaceholder => uploadedFiles st = []
  | Articles items =>
      uploadedFiles st <> []
      /\ map view_name items = map entry_name (uploadedFiles st)
      /\ map view_key items = map entry_id (uploadedFiles st)
      /\ NoDup (map view_key items)
  end.
Proof.
  intros env h st. apply (sidebar_lists_every_entry env h st).
  - intros i j Hij. cbn in Hij. apply of_N_injective in Hij. lia.
  - subst st. cbn [steps fold_left]. apply reachable_step, reachable_mount.
Defined.

(** ** The response envelope and the selection of files *)

(** X22. [buildTextResponse] returns an envelope with the request identifier
    it was given and exactly one item, of type ['text'], that carries the
    text unchanged; the identifier of the item differs from the identifier
    of the response whatever [makeId] returns.  Building it writes no trace
    and changes nothing of the component's state. *)
Theorem text_response_envelope
    (h : host) (txt : jsstring) (requestId : option jsstring) (st : state) :
  exists m st',
    buildTextResponse h txt requestId st = (Normal m, st')
    /\ msg_request_id m = requestId
    /\ (exists item,
          msg_generic m = [item]
          /\ item_text item = txt
          /\ response_type item = lit "text"
          /\ item_id item <> msg_id m)
    /\ trace st' = trace st
    /\ same_component st st'.
Proof.
  rewrite buildTextResponse_run. eexists _, _. split; [reflexivity |].
  split; [reflexivity | split; [| split]].
  - eexists. split; [reflexivity |]. repeat split.
    cbn [text_response_at msg_id item_id]. unfold lit. cbn. discriminate.
  - apply trace_advance.
  - assert (Hsame : forall n, same_component st (advance n st)).
    { induction n as [| n IH]; [apply same_component_refl |].
      destruct IH as [H1 [H2 [H3 [H4 [H5 H6]]]]].
      repeat split; cbn; assumption. }
    apply Hsame.
Qed.

(** X23. Selecting files makes no HTTP request: the uploads only start when
    the timers fire.  A selection of no files changes nothing at all, not
    even the file input; otherwise the new entries carry the names and sizes
    of the files, in the order of the selection, and the input is cleared. *)
Theorem file_selection_is_deferred
    (env : vite_env) (h : host) (files : option (list file)) (st : state) :
  let st' := step env h (FilesSelected files) st in
  (files = None \/ files = Some [] -> st' = st)
  /\ (forall f rest,
        files = Some (f :: rest) ->
        trace st' = trace st ++ [EInputCleared]
        /\ exists news,
             uploadedFiles st' = uploadedFiles st ++ news
             /\ map entry_name news = map file_name (f :: rest)
             /\ map entry_size news = map file_size (f :: rest))
  /\ exists delta, trace st' = trace st ++ delta /\ collect fetched delta = [].
Proof.
  intros st'. subst st'.
  assert (Hnames : forall l k,
             map entry_name (entries_at h l k) = map file_name l
             /\ map entry_size (entries_at h l k) = map file_size l).
  { induction l as [| f rest IH]; intros k; cbn [entries_at map];
      [split; reflexivity |].
    destruct (IH (S (id_cost h + k))) as [-> ->]. split; reflexivity. }
  split; [| split].
  - intros [-> | ->]; reflexivity.
  - intros f rest ->.
    destruct (handleFilesSelected_run h f rest st) as [Hf [_ [Htr _]]].
    split; [exact Htr |].
    exists (entries_at h (f :: rest) (tick st)).
    split; [exact Hf | apply Hnames].
  - destruct files as [[| f rest] |].
    + exists []. split; [symmetry; apply app_nil_r | reflexivity].
    + destruct (handleFilesSelected_run h f rest st) as [_ [_ [Htr _]]].
      exists [EInputCleared]. split; [exact Htr | reflexivity].
    + exists []. split; [symmetry; apply app_nil_r | reflexivity].
Qed.

Lemma file_selection_is_deferred_witness :
  let env := Sample.configured in
  let h := Sample.browser (Sample.reply true 200 (VObj [])) Sample.text_plain_ABC in
  step env h (FilesSelected (Some [])) (mount h) = mount h
  /\ trace (step env h (FilesSelected (Some [Sample.notes_txt])) (mount h))
     = trace (mount h) ++ [EInputCleared].
Proof.
  intros env h. split.
  - destruct (file_selection_is_deferred env h (Some []) (mount h)) as [Hnone _].
    apply Hnone. right. reflexivity.
  - destruct (file_selection_is_deferred env h (Some [Sample.notes_txt]) (mount h))
      as [_ [Hsome _]].
    destruct (Hsome Sample.notes_txt [] eq_refl) as [Htr _]. exact Htr.
Defined.
